(** * Call signaling of the chat application: a shallow embedding

  The development follows the call-signaling code of the repository:

  - [chat-app/src/components/GroupVideoCall.tsx] (the group call:
    [cleanup], [initializeCall], [setupPeerConnection] and the handlers
    it installs),
  - the second copy of the group call that is embedded in
    [chat-app/src/components/PhilosophicalQuote.tsx],
  - the one-to-one [VideoCall] embedded in
    [chat-app/src/components/GroupMessages.tsx] ([startCall],
    [answerCall], [endCall]) and its use by
    [chat-app/src/components/IncomingCallAlert.tsx],
  - the group chat of [chat-app/src/components/GroupMessages.tsx]
    ([handleSendMessage], [updateReadStatus], [kickMember], the
    recording time of the voice recorder),
  - [chat-app/src/components/GroupCallNotification.tsx] (the calls a
    user is offered to join).

  JavaScript strings are sequences of UTF-16 code units, Firestore
  collections are ordered association lists of documents, and the
  asynchronous functions are written in a small state-and-exception
  monad over the document store and the component state. *)

From Stdlib Require Import List NArith ZArith Bool String Ascii Lia DecimalN.
Import ListNotations.

Set Implicit Arguments.

(* ================================================================= *)
(** * JavaScript values *)

Module JS.

(** A string is its sequence of UTF-16 code units. *)
Definition code_unit := N.
Definition js_string := list code_unit.

(** String literals of the source, read as code units. *)
Definition of_string (s : string) : js_string :=
  map N_of_ascii (list_ascii_of_string s).

(** [x === y] on two strings. *)
Fixpoint string_eqb (x y : js_string) : bool :=
  match x, y with
  | [], [] => true
  | m :: x', n :: y' => (m =? n)%N && string_eqb x' y'
  | _, _ => false
  end.

(** [px < py] on two strings (the abstract relational comparison): a
    proper prefix is smaller, otherwise the first differing code unit
    decides. *)
Fixpoint string_lt (px py : js_string) : bool :=
  match px, py with
  | _, [] => false
  | [], _ :: _ => true
  | m :: px', n :: py' =>
      if (m =? n)%N then string_lt px' py' else (m <? n)%N
  end.

(** The template literal [`${a}_${b}`]. *)
Definition underscore : js_string := [95%N].
Definition template_a_b (a b : js_string) : js_string :=
  a ++ underscore ++ b.

(** The values a Firestore document field can hold here.  The numbers
    that occur are media line indices: integers. *)
Inductive value :=
| VUndefined
| VNull
| VBool (b : bool)
| VNumber (n : Z)
| VString (s : js_string).

(** [ToBoolean]: what [!v] and [if (v)] look at. *)
Definition truthy (v : value) : bool :=
  match v with
  | VUndefined | VNull => false
  | VBool b => b
  | VNumber n => negb (n =? 0)%Z
  | VString s => match s with [] => false | _ :: _ => true end
  end.

(** [v !== s] for a string [s]. *)
Definition strict_neq_string (v : value) (s : js_string) : bool :=
  match v with
  | VString t => negb (string_eqb t s)
  | _ => true
  end.

(** [xs.includes(s)] and [xs.filter(id => id !== s)] on string arrays. *)
Definition includes (xs : list js_string) (s : js_string) : bool :=
  existsb (fun id => string_eqb id s) xs.
Definition without (xs : list js_string) (s : js_string) : list js_string :=
  filter (fun id => negb (string_eqb id s)) xs.

End JS.

Import JS.

(* ================================================================= *)
(** * Firestore paths *)

Module Firestore.

(** Identifiers the store generates ([addDoc], [doc(collection)]). *)
Definition DocId := N.

Inductive segment :=
| Name (s : string)          (* a literal collection name *)
| Auto (id : DocId)          (* a store-generated document id *)
| Key (k : js_string).       (* a document id built by the code *)

Definition path := list segment.

Definition segment_eqb (a b : segment) : bool :=
  match a, b with
  | Name s, Name t => String.eqb s t
  | Auto i, Auto j => (i =? j)%N
  | Key k, Key l => string_eqb k l
  | _, _ => false
  end.

Fixpoint path_eqb (p q : path) : bool :=
  match p, q with
  | [], [] => true
  | a :: p', b :: q' => segment_eqb a b && path_eqb p' q'
  | _, _ => false
  end.

End Firestore.

Import Firestore.

(* ================================================================= *)
(** * GroupVideoCall.tsx: signaling between two participants *)

Module GroupVideoCall.

(** [const shouldCreateOffer = currentUserId < participantId;] *)
Definition shouldCreateOffer (currentUserId participantId : js_string) : bool :=
  string_lt currentUserId participantId.

(** [const connectionId = shouldCreateOffer
      ? `${currentUserId}_${participantId}`
      : `${participantId}_${currentUserId}`;] *)
Definition connectionId (currentUserId participantId : js_string) : js_string :=
  if shouldCreateOffer currentUserId participantId
  then template_a_b currentUserId participantId
  else template_a_b participantId currentUserId.

Inductive RTCPeerConnectionState :=
| StNew | StConnecting | StConnected | StDisconnected | StFailed | StClosed.

(** What [peerConnection.onconnectionstatechange] asks of the
    connection: [restartIce()] or nothing.  (The update of the
    participant tile is not part of the signaling.) *)
Inductive recovery := RestartIce | NoRecovery.

Definition onconnectionstatechange
    (currentUserId participantId : js_string)
    (connectionState : RTCPeerConnectionState) : recovery :=
  match connectionState with
  | StFailed | StDisconnected =>
      let shouldCreateOffer := string_lt currentUserId participantId in
      if shouldCreateOffer then RestartIce else NoRecovery
  | _ => NoRecovery
  end.

(** Session descriptions as they are stored: [{type, sdp}]. *)
Record SessionDescription := {
  sd_type : js_string;
  sd_sdp : js_string
}.

Definition nonempty (s : js_string) : bool :=
  match s with [] => false | _ :: _ => true end.

(** The connection document [connections/<id>]. *)
Record ConnectionDoc := {
  offer : option SessionDescription;
  answer : option SessionDescription;
  offerer : option js_string;
  receiver : option js_string
}.

(** A candidate record of the [candidates] subcollection. *)
Record CandidateData := {
  sender : value;
  sdpMLineIndex : value;
  candidate : value;
  sdpMid : value
}.

(** The signaling part of the store of one call: connection documents
    and candidate records, each under its collection path. *)
Record Signaling := {
  connections : list (path * ConnectionDoc);
  candidates : list (path * CandidateData)
}.

Definition callConnectionsRef (callDocId : DocId) : path :=
  [Name "groupCalls"; Auto callDocId; Name "connections"].

Definition candidatesOf (callDocId : DocId) (connectionId : js_string) : path :=
  [Name "groupCalls"; Auto callDocId; Name "connections";
   Key connectionId; Name "candidates"].

(** What the environment of one [setupPeerConnection] call decides:
    whether the user document exists, what [createOffer] resolves to
    ([None]: it rejects), whether [setLocalDescription] resolves and
    whether the write of the offer succeeds. *)
Record SetupEnv := {
  userDocExists : bool;
  createOffer : option SessionDescription;
  setLocalDescription_ok : bool;
  setDocOffer_ok : bool
}.

(** [doc(collectionRef, id)] *)
Definition docIn (collectionRef : path) (id : js_string) : path :=
  collectionRef ++ [Key id].

(** [setDoc(ref, {...})] replaces the document at [ref]. *)
Definition setDoc_connection (ref : path) (d : ConnectionDoc)
    (s : Signaling) : Signaling :=
  {| connections :=
       (ref, d) ::
       filter (fun e => negb (path_eqb (fst e) ref)) (connections s);
     candidates := candidates s |}.

(** The offer part of [setupPeerConnection]: [Some s'] when the code
    goes on to install its listeners, [None] on the early [return]
    after an offer without SDP. *)
Definition sendOffer (env : SetupEnv) (currentUserId participantId : js_string)
    (callDocId : DocId) (s : Signaling) : option Signaling :=
  match createOffer env with
  | None => Some s                               (* caught and logged *)
  | Some offer =>
      if negb (nonempty (sd_sdp offer)) then None
      else if negb (setLocalDescription_ok env) then Some s   (* caught and logged *)
      else if nonempty (sd_type offer) && nonempty (sd_sdp offer) then
        if setDocOffer_ok env then
          Some (setDoc_connection
                  (docIn (callConnectionsRef callDocId)
                     (template_a_b currentUserId participantId))
                  {| offer := Some offer; answer := None;
                     offerer := Some currentUserId;
                     receiver := Some participantId |} s)
        else Some s                              (* caught and logged *)
      else Some s
  end.

(** The listeners and handlers [setupPeerConnection] leaves behind. *)
Record PeerSetup := {
  offerRole : bool;               (* shouldCreateOffer *)
  iceCandidatesRef : path;        (* where onicecandidate writes *)
  connectionRef : path;           (* the document listened to *)
  candidatesQuery : path;         (* the collection listened to *)
  signaling : Signaling           (* the store after the offer part *)
}.

Definition setupPeerConnection (env : SetupEnv)
    (currentUserId participantId : js_string) (callDocId : DocId)
    (s : Signaling) : option PeerSetup :=
  if negb (userDocExists env) then None
  else
    let shouldCreateOffer := string_lt currentUserId participantId in
    match (if shouldCreateOffer
           then sendOffer env currentUserId participantId callDocId s
           else Some s) with
    | None => None
    | Some s' =>
        let connectionId :=
          if shouldCreateOffer
          then template_a_b currentUserId participantId
          else template_a_b participantId currentUserId in
        Some {| offerRole := shouldCreateOffer;
                iceCandidatesRef :=
                  candidatesOf callDocId
                    (if shouldCreateOffer
                     then template_a_b currentUserId participantId
                     else template_a_b participantId currentUserId);
                connectionRef :=
                  [Name "groupCalls"; Auto callDocId; Name "connections";
                   Key connectionId];
                candidatesQuery := candidatesOf callDocId connectionId;
                signaling := s' |}
    end.

(** The branch the connection-document listener takes on a snapshot:
    [data.offer && !shouldCreateOffer && !currentLocalDescription]
    answers, [data.answer && shouldCreateOffer && currentLocalDescription]
    accepts the answer. *)
Inductive snapshotBranch := AnswerTheOffer | AcceptTheAnswer | Ignore.

Definition onConnectionSnapshot (shouldCreateOffer : bool)
    (data : ConnectionDoc) (currentLocalDescription : bool) : snapshotBranch :=
  match offer data with
  | Some _ =>
      if negb shouldCreateOffer && negb currentLocalDescription
      then AnswerTheOffer
      else match answer data with
           | Some _ =>
               if shouldCreateOffer && currentLocalDescription
               then AcceptTheAnswer else Ignore
           | None => Ignore
           end
  | None =>
      match answer data with
      | Some _ =>
          if shouldCreateOffer && currentLocalDescription
          then AcceptTheAnswer else Ignore
      | None => Ignore
      end
  end.

(** The calls the connection listener makes on the peer connection. *)
Inductive connectionCall :=
| SetRemoteDescription (description : SessionDescription)
| CreateAnswer
| SetLocalDescription (description : SessionDescription).

(** What the surroundings decide during one run of the connection
    listener: whether [setRemoteDescription] resolves, what
    [createAnswer] resolves to ([None]: it rejects), whether
    [setLocalDescription] resolves and whether the write of the answer
    succeeds. *)
Record ListenerEnv := {
  listener_setRemoteDescription_ok : bool;
  listener_createAnswer : option SessionDescription;
  listener_setLocalDescription_ok : bool;
  listener_updateDoc_ok : bool
}.

(** The field [{answer: {type, sdp}}] of an update. *)
Definition answeredWith (a : SessionDescription) (d : ConnectionDoc)
    : ConnectionDoc :=
  {| offer := offer d; answer := Some a;
     offerer := offerer d; receiver := receiver d |}.

(** [updateDoc(ref, fields)] on a connection document. *)
Definition updateDoc_connection (ref : path)
    (f : ConnectionDoc -> ConnectionDoc) (s : Signaling) : Signaling :=
  {| connections :=
       map (fun e => if path_eqb (fst e) ref then (fst e, f (snd e)) else e)
           (connections s);
     candidates := candidates s |}.

(** What a snapshot of the document at [ref] shows: [None] when there
    is no such document. *)
Definition snapshotOf (ref : path) (s : Signaling) : option ConnectionDoc :=
  match find (fun e => path_eqb (fst e) ref) (connections s) with
  | Some e => Some (snd e)
  | None => None
  end.

(** The callback of [onSnapshot(connectionRef, ...)]: the calls it
    makes on the peer connection, in order, and the store it leaves.
    [currentLocalDescription] says whether the connection reports a
    current local description when the callback starts.  Every
    rejection is caught and logged. *)
Definition connectionListener (env : ListenerEnv) (shouldCreateOffer : bool)
    (connectionRef : path) (snapshot : option ConnectionDoc)
    (currentLocalDescription : bool) (s : Signaling)
    : list connectionCall * Signaling :=
  match snapshot with
  | None => ([], s)                              (* !snapshot.exists() *)
  | Some data =>
      match onConnectionSnapshot shouldCreateOffer data currentLocalDescription,
            offer data, answer data with
      | AnswerTheOffer, Some o, _ =>
          if negb (nonempty (sd_sdp o)) then ([], s)
          else if negb (listener_setRemoteDescription_ok env)
          then ([SetRemoteDescription o], s)
          else
            match listener_createAnswer env with
            | None => ([SetRemoteDescription o; CreateAnswer], s)
            | Some answer =>
                if negb (nonempty (sd_sdp answer))
                then ([SetRemoteDescription o; CreateAnswer], s)
                else
                  let calls :=
                    [SetRemoteDescription o; CreateAnswer;
                     SetLocalDescription answer] in
                  if negb (listener_setLocalDescription_ok env) then (calls, s)
                  else if nonempty (sd_type answer) && nonempty (sd_sdp answer)
                  then
                    if listener_updateDoc_ok env
                    then (calls,
                          updateDoc_connection connectionRef (answeredWith answer) s)
                    else (calls, s)
                  else (calls, s)
            end
      | AcceptTheAnswer, _, Some a =>
          if negb (nonempty (sd_sdp a)) then ([], s)
          else ([SetRemoteDescription a], s)
      | _, _, _ => ([], s)
      end
  end.

(** ** ICE candidates *)

(** [new RTCIceCandidate({sdpMLineIndex, candidate, sdpMid})] *)
Record RTCIceCandidate := {
  ice_sdpMLineIndex : value;
  ice_candidate : value;
  ice_sdpMid : value
}.

(** [peerConnection.onicecandidate]: a gathered local candidate is
    stored under the connection's [candidates] collection with
    [sender: currentUserId]; the end-of-gathering event ([null]) is
    only logged. *)
Definition onicecandidate (currentUserId participantId : js_string)
    (callDocId : DocId) (event_candidate : option RTCIceCandidate)
    (s : Signaling) : Signaling :=
  match event_candidate with
  | Some c =>
      let shouldCreateOffer := string_lt currentUserId participantId in
      let connectionId :=
        if shouldCreateOffer
        then template_a_b currentUserId participantId
        else template_a_b participantId currentUserId in
      let candidatesRef := candidatesOf callDocId connectionId in
      {| connections := connections s;
         candidates :=
           candidates s ++
           [(candidatesRef,
             {| sender := VString currentUserId;
                sdpMLineIndex := ice_sdpMLineIndex c;
                candidate := ice_candidate c;
                sdpMid := ice_sdpMid c |})] |}
  | None => s
  end.

(** The part of an [RTCPeerConnection] the candidate listener reads
    and writes. *)
Record PeerConnection := {
  remoteDescription : option SessionDescription;
  remoteCandidates : list RTCIceCandidate
}.

(** [await peerConnection.addIceCandidate(candidate)]: the engine
    either takes the candidate or rejects ([None]). *)
Definition addIceCandidate (engine : RTCIceCandidate -> bool)
    (c : RTCIceCandidate) (pc : PeerConnection) : option PeerConnection :=
  if engine c
  then Some {| remoteDescription := remoteDescription pc;
               remoteCandidates := remoteCandidates pc ++ [c] |}
  else None.

Inductive changeType := Added | Modified | Removed.

(** A pending [setTimeout(callback, delay)]: the callback of the
    listener closes over the candidate it will try again. *)
Record Timer := {
  delay : N;
  retried : RTCIceCandidate
}.

(** The completeness guard of the listener:
    [!data.sdpMLineIndex || !data.candidate || !data.sdpMid]. *)
Definition incomplete (data : CandidateData) : bool :=
  negb (truthy (sdpMLineIndex data)) ||
  negb (truthy (candidate data)) ||
  negb (truthy (sdpMid data)).

(** The callback of the candidate listener for one document change.
    It returns the connection and the timers it has scheduled. *)
Definition onCandidateChange (engine : RTCIceCandidate -> bool)
    (currentUserId : js_string) (type : changeType) (data : CandidateData)
    (pc : PeerConnection) : PeerConnection * list Timer :=
  match type with
  | Added =>
      if strict_neq_string (sender data) currentUserId then
        if incomplete data then (pc, [])          (* logged, return *)
        else
          let candidate :=
            {| ice_sdpMLineIndex := sdpMLineIndex data;
               ice_candidate := candidate data;
               ice_sdpMid := sdpMid data |} in
          match remoteDescription pc with
          | Some _ =>
              match addIceCandidate engine candidate pc with
              | Some pc' => (pc', [])
              | None => (pc, [])                  (* caught and logged *)
              end
          | None =>
              (pc, [{| delay := 2000; retried := candidate |}])
          end
      else (pc, [])
  | _ => (pc, [])
  end.

(** The candidate the callback builds from a complete record. *)
Definition candidateOf (data : CandidateData) : RTCIceCandidate :=
  {| ice_sdpMLineIndex := sdpMLineIndex data;
     ice_candidate := candidate data;
     ice_sdpMid := sdpMid data |}.

(** The callback given to [setTimeout]: when it fires. *)
Definition onRetryTimeout (engine : RTCIceCandidate -> bool)
    (t : Timer) (pc : PeerConnection) : PeerConnection * list Timer :=
  match remoteDescription pc with
  | Some _ =>
      match addIceCandidate engine (retried t) pc with
      | Some pc' => (pc', [])
      | None => (pc, [])                          (* caught and logged *)
      end
  | None => (pc, [])
  end.

(** [snapshot.docChanges().forEach(...)] *)
Fixpoint onCandidatesSnapshot (engine : RTCIceCandidate -> bool)
    (currentUserId : js_string) (changes : list (changeType * CandidateData))
    (pc : PeerConnection) : PeerConnection * list Timer :=
  match changes with
  | [] => (pc, [])
  | (type, data) :: rest =>
      let (pc1, t1) := onCandidateChange engine currentUserId type data pc in
      let (pc2, t2) := onCandidatesSnapshot engine currentUserId rest pc1 in
      (pc2, t1 ++ t2)
  end.

(** ** The call record, the store and the component state *)

Definition Timestamp := N.

(** A document of the [groupCalls] collection.  [participants] is
    [None] when the field is missing or is not an array. *)
Record GroupCallData := {
  groupId : js_string;
  creatorId : value;
  creatorName : js_string;
  creatorPhotoURL : js_string;
  status : js_string;
  participants : option (list js_string);
  startTime : option Timestamp;
  endTime : option Timestamp
}.

(** A system message of the [groupMessages] collection. *)
Record GroupMessage := {
  message_groupId : js_string;
  senderId : js_string;
  senderName : js_string;
  content : js_string;
  timestamp : Timestamp;
  type : string
}.

Inductive MediaStreamTrack := VideoTrack | AudioTrack.
Definition MediaStream := list MediaStreamTrack.

(** What lies outside the component: the two collections, the
    identifier the store hands out next, the server clock, which of
    the coming store requests fail ([true]: that request rejects), and
    what [navigator.mediaDevices.getUserMedia({video, audio})] answers
    ([None]: it rejects).  [groupCalls] lists the documents in the
    order in which a query returns them. *)
Record World := {
  groupCalls : list (DocId * GroupCallData);
  groupMessages : list GroupMessage;
  nextId : DocId;
  serverTime : Timestamp;
  faults : list bool;
  getUserMedia : bool -> bool -> option MediaStream
}.

Record GroupVideoCallProps := {
  currentUserId : js_string;
  props_groupId : js_string;
  displayName : js_string;
  photoURL : option js_string
}.

Record Participant := {
  id : js_string;
  participant_displayName : js_string;
  participant_photoURL : option js_string;
  stream : option MediaStream;
  connectionState : option string
}.

Inductive Toast := ToastInfo (s : string) | ToastError (s : string).

(** The React state and refs of the component, with what it has asked
    of its surroundings (toasts, [onEndCall], snapshot listeners).
    [tiles] is the [participants] state. *)
Record Component := {
  isJoining : bool;
  isCallActive : bool;
  callId : option DocId;
  isMicMuted : bool;
  isVideoOff : bool;
  tiles : list Participant;
  activeParticipant : option js_string;
  localStream : option MediaStream;
  peerConnections : list js_string;
  listening : list DocId;
  toasts : list Toast;
  onEndCall : nat
}.

(** [useState] initial values at mount. *)
Definition mounted : Component :=
  {| isJoining := true; isCallActive := false; callId := None;
     isMicMuted := false; isVideoOff := false; tiles := [];
     activeParticipant := None; localStream := None;
     peerConnections := []; listening := []; toasts := [];
     onEndCall := 0 |}.

Record State := { world : World; comp : Component }.

(** *** Updates *)

Definition setIsJoining (v : bool) (c : Component) : Component :=
  let 'Build_Component _ b c0 d e f g h i j k l := c in
  Build_Component v b c0 d e f g h i j k l.
Definition setIsCallActive (v : bool) (c : Component) : Component :=
  let 'Build_Component a _ c0 d e f g h i j k l := c in
  Build_Component a v c0 d e f g h i j k l.
Definition setCallId (v : option DocId) (c : Component) : Component :=
  let 'Build_Component a b _ d e f g h i j k l := c in
  Build_Component a b v d e f g h i j k l.
Definition setIsMicMuted (v : bool) (c : Component) : Component :=
  let 'Build_Component a b c0 _ e f g h i j k l := c in
  Build_Component a b c0 v e f g h i j k l.
Definition setIsVideoOff (v : bool) (c : Component) : Component :=
  let 'Build_Component a b c0 d _ f g h i j k l := c in
  Build_Component a b c0 d v f g h i j k l.
Definition setParticipants (v : list Participant -> list Participant)
    (c : Component) : Component :=
  let 'Build_Component a b c0 d e f g h i j k l := c in
  Build_Component a b c0 d e (v f) g h i j k l.
Definition setActiveParticipant (v : option js_string) (c : Component) : Component :=
  let 'Build_Component a b c0 d e f _ h i j k l := c in
  Build_Component a b c0 d e f v h i j k l.
Definition setLocalStream (v : option MediaStream) (c : Component) : Component :=
  let 'Build_Component a b c0 d e f g _ i j k l := c in
  Build_Component a b c0 d e f g v i j k l.
Definition setPeerConnections (v : list js_string) (c : Component) : Component :=
  let 'Build_Component a b c0 d e f g h _ j k l := c in
  Build_Component a b c0 d e f g h v j k l.
Definition addListener (v : DocId) (c : Component) : Component :=
  let 'Build_Component a b c0 d e f g h i j k l := c in
  Build_Component a b c0 d e f g h i (j ++ [v]) k l.
Definition addToast (v : Toast) (c : Component) : Component :=
  let 'Build_Component a b c0 d e f g h i j k l := c in
  Build_Component a b c0 d e f g h i j (k ++ [v]) l.
Definition callOnEndCall (c : Component) : Component :=
  let 'Build_Component a b c0 d e f g h i j k l := c in
  Build_Component a b c0 d e f g h i j k (S l).

Definition setGroupCalls (v : list (DocId * GroupCallData)) (w : World) : World :=
  let 'Build_World _ b c d e f := w in Build_World v b c d e f.
Definition setGroupMessages (v : list GroupMessage) (w : World) : World :=
  let 'Build_World a _ c d e f := w in Build_World a v c d e f.
Definition setNextId (v : DocId) (w : World) : World :=
  let 'Build_World a b _ d e f := w in Build_World a b v d e f.
Definition setFaults (v : list bool) (w : World) : World :=
  let 'Build_World a b c d _ f := w in Build_World a b c d v f.

(** The two shapes of [updateDoc(doc(db, 'groupCalls', id), {...})]
    in the component. *)
Definition withParticipants (ps : list js_string) (d : GroupCallData) : GroupCallData :=
  let 'Build_GroupCallData a b c e f _ h i := d in
  Build_GroupCallData a b c e f (Some ps) h i.
Definition withEnded (ps : list js_string) (t : Timestamp) (d : GroupCallData)
    : GroupCallData :=
  let 'Build_GroupCallData a b c e _ _ h _ := d in
  Build_GroupCallData a b c e (of_string "ended") (Some ps) h (Some t).

(** *** The monad of the asynchronous functions *)

Inductive result (A : Type) :=
| Ok (a : A) (s : State)
| Throw (s : State).
Arguments Throw {A} s.

Definition M (A : Type) := State -> result A.

Definition ret {A} (a : A) : M A := fun s => Ok a s.
Definition bind {A B} (m : M A) (k : A -> M B) : M B :=
  fun s => match m s with
           | Ok a s' => k a s'
           | Throw s' => Throw s'
           end.
(** [try { m } catch (error) { h }] *)
Definition try_catch {A} (m h : M A) : M A :=
  fun s => match m s with
           | Ok a s' => Ok a s'
           | Throw s' => h s'
           end.

Definition modify (f : Component -> Component) : M unit :=
  fun s => Ok tt {| world := world s; comp := f (comp s) |}.
Definition modifyWorld (f : World -> World) : M unit :=
  fun s => Ok tt {| world := f (world s); comp := comp s |}.
Definition getWorld : M World := fun s => Ok (world s) s.

Notation "x <- m ;; k" := (bind m (fun x => k))
  (at level 61, m at next level, right associativity).
Notation "m ;; k" := (bind m (fun _ => k))
  (at level 61, right associativity).

(** *** The store requests of the component *)

(** Every request to the store may reject: the next entry of the fault
    schedule says whether this one does. *)
Definition request : M unit :=
  fun s =>
    match faults (world s) with
    | [] => Ok tt s
    | false :: rest =>
        Ok tt {| world := setFaults rest (world s); comp := comp s |}
    | true :: rest =>
        Throw {| world := setFaults rest (world s); comp := comp s |}
    end.

Definition serverTimestamp : M Timestamp :=
  w <- getWorld ;; ret (serverTime w).

(** [getDocs(query(collection(db, 'groupCalls'),
      where('groupId', '==', groupId), where('status', '==', 'active')))] *)
Definition activeCallOf (g : js_string) (d : DocId * GroupCallData) : bool :=
  string_eqb (groupId (snd d)) g && string_eqb (status (snd d)) (of_string "active").

Definition getDocs_groupCallsQuery (g : js_string)
    : M (list (DocId * GroupCallData)) :=
  request ;;
  w <- getWorld ;;
  ret (filter (activeCallOf g) (groupCalls w)).

(** [addDoc(collection(db, 'groupCalls'), callData)] *)
Definition addDoc_groupCalls (callData : GroupCallData) : M DocId :=
  request ;;
  w <- getWorld ;;
  modifyWorld (fun w => setNextId (N.succ (nextId w))
                          (setGroupCalls (groupCalls w ++ [(nextId w, callData)]) w)) ;;
  ret (nextId w).

(** [addDoc(collection(db, 'groupMessages'), {...})] *)
Definition addDoc_groupMessages (m : GroupMessage) : M unit :=
  request ;;
  modifyWorld (fun w => setGroupMessages (groupMessages w ++ [m]) w).

Fixpoint lookupDoc (i : DocId) (docs : list (DocId * GroupCallData))
    : option GroupCallData :=
  match docs with
  | [] => None
  | (j, d) :: rest => if (j =? i)%N then Some d else lookupDoc i rest
  end.

(** [getDoc(doc(db, 'groupCalls', id))]: [None] when
    [callDoc.exists()] is false. *)
Definition getDoc_groupCall (i : DocId) : M (option GroupCallData) :=
  request ;;
  w <- getWorld ;;
  ret (lookupDoc i (groupCalls w)).

Definition updateIn (i : DocId) (f : GroupCallData -> GroupCallData)
    (docs : list (DocId * GroupCallData)) : list (DocId * GroupCallData) :=
  map (fun e => if (fst e =? i)%N then (fst e, f (snd e)) else e) docs.

(** [updateDoc(doc(db, 'groupCalls', id), fields)]: rejects when the
    document does not exist. *)
Definition updateDoc_groupCall (i : DocId)
    (f : GroupCallData -> GroupCallData) : M unit :=
  request ;;
  w <- getWorld ;;
  match lookupDoc i (groupCalls w) with
  | Some _ => modifyWorld (fun w => setGroupCalls (updateIn i f (groupCalls w)) w)
  | None => fun s => Throw s
  end.

(** [navigator.mediaDevices.getUserMedia({video, audio})] *)
Definition mediaDevices_getUserMedia (video audio : bool) : M MediaStream :=
  w <- getWorld ;;
  match getUserMedia w video audio with
  | Some stream => ret stream
  | None => fun s => Throw s
  end.

(** [callData.participants] read with the [Array.isArray] check. *)
Definition participantsOrEmpty (callData : GroupCallData) : list js_string :=
  match participants callData with
  | Some ps => ps
  | None => []                                   (* warned *)
  end.

(** *** [cleanup] *)

(** [callId] is the value of the state variable in the render whose
    [cleanup] closure runs. *)
Definition cleanup (props : GroupVideoCallProps) (callId : option DocId) : M unit :=
  modify (setLocalStream None) ;;
  modify (setPeerConnections []) ;;
  modify (setParticipants (fun _ => [])) ;;
  modify (setActiveParticipant None) ;;
  match callId with
  | Some callId =>
      try_catch
        (callDoc <- getDoc_groupCall callId ;;
         match callDoc with
         | Some callData =>
             let currentParticipants := participantsOrEmpty callData in
             let updatedParticipants :=
               without currentParticipants (currentUserId props) in
             try_catch
               (if negb (strict_neq_string (creatorId callData) (currentUserId props))
                   || (List.length updatedParticipants =? 0)%nat
                then
                  endTime <- serverTimestamp ;;
                  updateDoc_groupCall callId (withEnded updatedParticipants endTime)
                else
                  updateDoc_groupCall callId (withParticipants updatedParticipants))
               (ret tt)                          (* logged *)
         | None => ret tt
         end)
        (ret tt)                                 (* logged *)
  | None => ret tt
  end ;;
  modify (setIsCallActive false) ;;
  modify (setCallId None).

(** *** [initializeCall] *)

Definition systemMessage (props : GroupVideoCallProps) (what : string)
    (t : Timestamp) : GroupMessage :=
  {| message_groupId := props_groupId props;
     senderId := currentUserId props;
     senderName := displayName props;
     content := displayName props ++ of_string what;
     timestamp := t;
     type := "system" |}.

Definition orEmpty (s : option js_string) : js_string :=
  match s with Some ((_ :: _) as u) => u | _ => [] end.

(** The first part of [initializeCall]: the record is created or
    joined, and its identifier is the result. *)
Definition createOrJoin (props : GroupVideoCallProps) : M DocId :=
  querySnapshot <- getDocs_groupCallsQuery (props_groupId props) ;;
  match querySnapshot with
  | [] =>
      t <- serverTimestamp ;;
      callDocId <- addDoc_groupCalls
        {| groupId := props_groupId props;
           creatorId := VString (currentUserId props);
           creatorName := displayName props;
           creatorPhotoURL := orEmpty (photoURL props);
           status := of_string "active";
           participants := Some [currentUserId props];
           startTime := Some t;
           endTime := None |} ;;
      addDoc_groupMessages (systemMessage props " started a video call" t) ;;
      ret callDocId
  | existingCall :: _ =>
      let callDocId := fst existingCall in
      let callData := snd existingCall in
      let currentParticipants := participantsOrEmpty callData in
      (if negb (includes currentParticipants (currentUserId props)) then
         let updatedParticipants := currentParticipants ++ [currentUserId props] in
         try_catch
           (updateDoc_groupCall callDocId (withParticipants updatedParticipants) ;;
            t <- serverTimestamp ;;
            addDoc_groupMessages (systemMessage props " joined the call" t))
           (ret tt)                              (* logged, we go on *)
       else ret tt) ;;
      ret callDocId
  end.

(** The local variables of the media part. *)
Record Media := {
  media_stream : option MediaStream;
  hasVideo : bool;
  hasAudio : bool;
  isViewOnly : bool
}.

Definition viewOnlyNotice : Toast :=
  ToastInfo "Joined in view-only mode. You cannot broadcast audio or video, but can see others.".

Definition viewOnly : M Media :=
  modify (setIsVideoOff true) ;;
  modify (setIsMicMuted true) ;;
  modify (addToast viewOnlyNotice) ;;
  ret {| media_stream := Some []; hasVideo := false; hasAudio := false;
         isViewOnly := true |}.

(** The nested [try]/[catch] around the two [getUserMedia] calls. *)
Definition acquireMedia : M Media :=
  try_catch
    (try_catch
       (stream <- mediaDevices_getUserMedia true true ;;
        ret {| media_stream := Some stream; hasVideo := true; hasAudio := true;
               isViewOnly := false |})
       (try_catch
          (stream <- mediaDevices_getUserMedia false true ;;
           modify (setIsVideoOff true) ;;
           ret {| media_stream := Some stream; hasVideo := false; hasAudio := true;
                  isViewOnly := false |})
          viewOnly))
    viewOnly.

(** [if (!stream) { stream = new MediaStream(); isViewOnly = true; }] *)
Definition ensureStream (m : Media) : Media :=
  match media_stream m with
  | Some _ => m
  | None => {| media_stream := Some []; hasVideo := hasVideo m;
               hasAudio := hasAudio m; isViewOnly := true |}
  end.

Definition streamOf (m : Media) : MediaStream :=
  match media_stream m with Some s => s | None => [] end.

Definition selfTile (props : GroupVideoCallProps) (stream : MediaStream) : Participant :=
  {| id := currentUserId props;
     participant_displayName := displayName props;
     participant_photoURL := photoURL props;
     stream := Some stream;
     connectionState := Some "connected"%string |}.

(** [callId] is the state variable as the closure of [initializeCall]
    sees it: it reaches the [cleanup] of the [catch] block. *)
Definition initializeCall (props : GroupVideoCallProps) (callId : option DocId)
    : M unit :=
  try_catch
    (callDocId <- createOrJoin props ;;
     modify (setCallId (Some callDocId)) ;;
     media <- acquireMedia ;;
     let stream := streamOf (ensureStream media) in
     modify (setLocalStream (Some stream)) ;;
     modify (setParticipants (fun prev =>
       filter (fun p => negb (string_eqb (id p) (currentUserId props))) prev
       ++ [selfTile props stream])) ;;
     modify (setIsCallActive true) ;;
     modify (setIsJoining false) ;;
     modify (addListener callDocId))
    (modify (addToast (ToastError "Failed to join call. Please try again.")) ;;
     cleanup props callId ;;
     modify callOnEndCall).

End GroupVideoCall.

(* ================================================================= *)
(** * PhilosophicalQuote.tsx: the second copy of the group call *)

Module PhilosophicalQuote.

(** [const shouldCreateOffer = currentUserId < participantId;] *)
Definition shouldCreateOffer (currentUserId participantId : js_string) : bool :=
  string_lt currentUserId participantId.

(** The document the offer is stored in, when this side offers:
    [doc(callConnectionsRef, `${currentUserId}_${participantId}`)]. *)
Definition offerRef (currentUserId participantId : js_string)
    (callDocId : DocId) : path :=
  [Name "groupCalls"; Auto callDocId; Name "connections"] ++
  [Key (template_a_b currentUserId participantId)].

(** [const connectionId = shouldCreateOffer
      ? `${currentUserId}_${participantId}`
      : `${participantId}_${currentUserId}`;] *)
Definition connectionId (currentUserId participantId : js_string) : js_string :=
  if shouldCreateOffer currentUserId participantId
  then template_a_b currentUserId participantId
  else template_a_b participantId currentUserId.

(** The collection [onicecandidate] writes to; the handler computes
    the identifier again, with the same expression. *)
Definition candidatesRef (currentUserId participantId : js_string)
    (callDocId : DocId) : path :=
  let shouldCreateOffer := string_lt currentUserId participantId in
  let connectionId :=
    if shouldCreateOffer
    then template_a_b currentUserId participantId
    else template_a_b participantId currentUserId in
  [Name "groupCalls"; Auto callDocId; Name "connections";
   Key connectionId; Name "candidates"].

(** The document and the collection the two listeners watch. *)
Definition connectionRef (currentUserId participantId : js_string)
    (callDocId : DocId) : path :=
  [Name "groupCalls"; Auto callDocId; Name "connections";
   Key (connectionId currentUserId participantId)].

Definition candidatesQuery (currentUserId participantId : js_string)
    (callDocId : DocId) : path :=
  [Name "groupCalls"; Auto callDocId; Name "connections";
   Key (connectionId currentUserId participantId); Name "candidates"].

End PhilosophicalQuote.

(* ================================================================= *)
(** * GroupMessages.tsx: the one-to-one VideoCall *)

Module VideoCall.

(** The state variables of one render that [startCall] and the effect
    that launches it read. *)
Record Render := {
  isCalling : bool;
  isCallConnected : bool;
  incomingCall : option DocId;
  callDocId : option DocId
}.

(** [useState] initial values: the render at mount. *)
Definition mounted : Render :=
  {| isCalling := false; isCallConnected := false;
     incomingCall := None; callDocId := None |}.

Definition IceCandidateJSON := GroupVideoCall.RTCIceCandidate.

(** A document of the [calls] collection, as [startCall] writes it. *)
Record CallData := {
  callerId : js_string;
  receiverId : js_string;
  offerSDP : GroupVideoCall.SessionDescription;
  status : js_string;
  answered : bool
}.

(** The [calls] collection and the two candidate subcollections, each
    record under the identifier of its call document. *)
Record Store := {
  calls : list (DocId * CallData);
  offerCandidates : list (DocId * IceCandidateJSON);
  answerCandidates : list (DocId * IceCandidateJSON);
  nextId : DocId
}.

Record VideoCallProps := {
  currentUserId : js_string;
  targetUserId : option js_string
}.

(** What the surroundings decide during one [startCall]: whether
    [getUserMedia] resolves, what [createOffer] resolves to and
    whether the write of the call document succeeds. *)
Record StartEnv := {
  getUserMedia_ok : bool;
  createOffer : option GroupVideoCall.SessionDescription;
  setDoc_ok : bool
}.

(** [peerConnection.onicecandidate] as [startCall] installs it:
    [callDocId] is the state variable of the render [startCall]
    belongs to.
      [if (event.candidate && callDocId) {
         setDoc(doc(collection(db, 'calls', callDocId, 'offerCandidates')),
                event.candidate.toJSON()); }] *)
Definition onicecandidate (callDocId : option DocId)
    (event_candidate : option IceCandidateJSON) (s : Store) : Store :=
  match event_candidate, callDocId with
  | Some c, Some callDocId =>
      {| calls := calls s;
         offerCandidates := offerCandidates s ++ [(callDocId, c)];
         answerCandidates := answerCandidates s;
         nextId := nextId s |}
  | _, _ => s
  end.

(** [cleanup]: the call document is deleted when the closure knows it,
    and the state is reset. *)
Definition cleanup (r : Render) (s : Store) : Render * Store :=
  (mounted,
   match callDocId r with
   | Some i =>
       {| calls := filter (fun e => negb (fst e =? i)%N) (calls s);
          offerCandidates := offerCandidates s;
          answerCandidates := answerCandidates s;
          nextId := nextId s |}
   | None => s
   end).

Inductive started :=
| Calling (handler : option IceCandidateJSON -> Store -> Store)
          (state : Render) (s : Store)
| Failed (state : Render) (s : Store).

(** [startCall], run from render [r]: the handler is installed before
    the offer is created, the call document is written after it, and
    [setCallDocId(newCallDocId)] comes last. *)
Definition startCall (props : VideoCallProps) (env : StartEnv)
    (r : Render) (s : Store) : started :=
  let r1 := {| isCalling := true; isCallConnected := isCallConnected r;
               incomingCall := incomingCall r; callDocId := callDocId r |} in
  if negb (getUserMedia_ok env) then
    let (r', s') := cleanup r s in Failed r' s'
  else
    let handler := onicecandidate (callDocId r) in
    match createOffer env, targetUserId props with
    | Some offerDescription, Some target =>
        if setDoc_ok env then
          let newCallDocId := nextId s in
          let callData :=
            {| callerId := currentUserId props;
               receiverId := target;
               offerSDP := offerDescription;
               status := of_string "pending";
               answered := false |} in
          Calling handler
            {| isCalling := isCalling r1; isCallConnected := isCallConnected r1;
               incomingCall := incomingCall r1;
               callDocId := Some newCallDocId |}
            {| calls := calls s ++ [(newCallDocId, callData)];
               offerCandidates := offerCandidates s;
               answerCandidates := answerCandidates s;
               nextId := N.succ newCallDocId |}
        else let (r', s') := cleanup r s in Failed r' s'
    | _, _ => let (r', s') := cleanup r s in Failed r' s'
    end.

(** The effect [useEffect(() => { if (targetUserId && !isCalling &&
    !isCallConnected && !incomingCall) startCall(); }, [targetUserId])]
    as it runs after the first render. *)
Definition startOnMount (props : VideoCallProps) (env : StartEnv)
    (s : Store) : option started :=
  match targetUserId props with
  | Some (_ :: _) =>
      if negb (isCalling mounted) && negb (isCallConnected mounted)
         && match incomingCall mounted with None => true | Some _ => false end
      then Some (startCall props env mounted s)
      else None
  | _ => None
  end.

End VideoCall.

(* ================================================================= *)
(** * The life of a call record: specifications and steps *)

Module CallRecord.

Import GroupVideoCall.

(** The state an asynchronous function ends in, returned or thrown. *)
Definition stateOf {A} (r : result A) : State :=
  match r with
  | Ok _ s => s
  | Throw s => s
  end.

(** Pre- and postcondition of a run: [Q] on return, [E] on throw. *)
Definition triple {A} (P : State -> Prop) (m : M A)
    (Q : A -> State -> Prop) (E : State -> Prop) : Prop :=
  forall s, P s ->
    match m s with
    | Ok a s' => Q a s'
    | Throw s' => E s'
    end.

(** A run that leaves the [groupCalls] collection as it is. *)
Definition untouched {A} (m : M A) : Prop :=
  forall s, groupCalls (world (stateOf (m s))) = groupCalls (world s).

(** No record lists a participant twice. *)
Definition distinctIn (l : list (DocId * GroupCallData)) : Prop :=
  forall i d, In (i, d) l -> NoDup (participantsOrEmpty d).
Definition participantsDistinct (w : World) : Prop :=
  distinctIn (groupCalls w).
Definition distinct (s : State) : Prop := participantsDistinct (world s).

(** The user is listed in an active call record of the group. *)
Definition memberOfActiveCall (user g : js_string) (i : DocId) (w : World) : Prop :=
  exists d ps,
    In (i, d) (groupCalls w) /\
    groupId d = g /\ status d = of_string "active" /\
    participants d = Some ps /\ In user ps.

(** The record [initializeCall] writes when it creates the call. *)
Definition createdBy (props : GroupVideoCallProps) (t : Timestamp) : GroupCallData :=
  {| groupId := props_groupId props;
     creatorId := VString (currentUserId props);
     creatorName := displayName props;
     creatorPhotoURL := orEmpty (photoURL props);
     status := of_string "active";
     participants := Some [currentUserId props];
     startTime := Some t;
     endTime := None |}.

(** The steps the component takes on the [groupCalls] collection:
    somebody's [initializeCall] (which creates or joins), somebody's
    [cleanup] (which leaves), each from any component state and with
    any [callId] in its closure; in between the surroundings may change
    everything but the collection. *)
Inductive step : World -> World -> Prop :=
| step_initializeCall (props : GroupVideoCallProps) (callId : option DocId)
    (w : World) (c : Component) :
    step w (world (stateOf (initializeCall props callId {| world := w; comp := c |})))
| step_cleanup (props : GroupVideoCallProps) (callId : option DocId)
    (w : World) (c : Component) :
    step w (world (stateOf (cleanup props callId {| world := w; comp := c |})))
| step_surroundings (w w' : World) :
    groupCalls w' = groupCalls w -> step w w'.

(** Everything starts with no call record. *)
Inductive reachable : World -> Prop :=
| reachable_start (w : World) : groupCalls w = [] -> reachable w
| reachable_step (w w' : World) : reachable w -> step w w' -> reachable w'.

End CallRecord.

(* ================================================================= *)
(** * Sample data *)

Module Samples.

Definition alice : js_string := Eval cbv in of_string "alice".
Definition bob : js_string := Eval cbv in of_string "bob".
Definition carol : js_string := Eval cbv in of_string "carol".

(** A host candidate line, the identification tag of a media section. *)
Definition hostCandidate : js_string :=
  Eval cbv in of_string "candidate:1 1 UDP 2122252543 192.0.2.1 54321 typ host".
Definition mid0 : js_string := Eval cbv in of_string "0".
Definition mid1 : js_string := Eval cbv in of_string "1".

(** Bob's candidate for the first media line: index 0. *)
Definition firstLineCandidate : GroupVideoCall.CandidateData :=
  {| GroupVideoCall.sender := VString bob;
     GroupVideoCall.sdpMLineIndex := VNumber 0;
     GroupVideoCall.candidate := VString hostCandidate;
     GroupVideoCall.sdpMid := VString mid0 |}.

(** Bob's candidate for the second media line: index 1. *)
Definition secondLineCandidate : GroupVideoCall.CandidateData :=
  {| GroupVideoCall.sender := VString bob;
     GroupVideoCall.sdpMLineIndex := VNumber 1;
     GroupVideoCall.candidate := VString hostCandidate;
     GroupVideoCall.sdpMid := VString mid1 |}.

(** Bob's candidate for the second media line, sent without the tag
    of the media section ([sdpMid: null]). *)
Definition untaggedCandidate : GroupVideoCall.CandidateData :=
  {| GroupVideoCall.sender := VString bob;
     GroupVideoCall.sdpMLineIndex := VNumber 1;
     GroupVideoCall.candidate := VString hostCandidate;
     GroupVideoCall.sdpMid := VNull |}.

(** A connection that has no remote description yet. *)
Definition freshConnection : GroupVideoCall.PeerConnection :=
  {| GroupVideoCall.remoteDescription := None;
     GroupVideoCall.remoteCandidates := [] |}.

Definition someOffer : GroupVideoCall.SessionDescription :=
  {| GroupVideoCall.sd_type := of_string "offer";
     GroupVideoCall.sd_sdp := of_string "v=0" |}.

Definition hostIce : GroupVideoCall.RTCIceCandidate :=
  {| GroupVideoCall.ice_sdpMLineIndex := VNumber 0;
     GroupVideoCall.ice_candidate := VString hostCandidate;
     GroupVideoCall.ice_sdpMid := VString mid0 |}.

(** Alice opens the one-to-one call view to call Bob; camera, offer and
    store all work. *)
Definition aliceCallsBob : VideoCall.VideoCallProps :=
  {| VideoCall.currentUserId := alice; VideoCall.targetUserId := Some bob |}.
Definition allWorks : VideoCall.StartEnv :=
  {| VideoCall.getUserMedia_ok := true;
     VideoCall.createOffer := Some someOffer;
     VideoCall.setDoc_ok := true |}.
(** A group call: Alice and Bob of the group "family" open the call
    view; no camera or microphone is available and the store works. *)
Definition family : js_string := Eval cbv in of_string "family".
Definition aliceJoins : GroupVideoCall.GroupVideoCallProps :=
  {| GroupVideoCall.currentUserId := alice;
     GroupVideoCall.props_groupId := family;
     GroupVideoCall.displayName := of_string "Alice";
     GroupVideoCall.photoURL := None |}.
Definition bobJoins : GroupVideoCall.GroupVideoCallProps :=
  {| GroupVideoCall.currentUserId := bob;
     GroupVideoCall.props_groupId := family;
     GroupVideoCall.displayName := of_string "Bob";
     GroupVideoCall.photoURL := None |}.
Definition emptyWorld : GroupVideoCall.World :=
  {| GroupVideoCall.groupCalls := [];
     GroupVideoCall.groupMessages := [];
     GroupVideoCall.nextId := 0%N;
     GroupVideoCall.serverTime := 1000%N;
     GroupVideoCall.faults := [];
     GroupVideoCall.getUserMedia := fun _ _ => None |}.
Definition opened (w : GroupVideoCall.World) : GroupVideoCall.State :=
  {| GroupVideoCall.world := w; GroupVideoCall.comp := GroupVideoCall.mounted |}.
Definition afterAlice : GroupVideoCall.World :=
  GroupVideoCall.world
    (CallRecord.stateOf (GroupVideoCall.initializeCall aliceJoins None (opened emptyWorld))).
Definition afterBob : GroupVideoCall.World :=
  GroupVideoCall.world
    (CallRecord.stateOf (GroupVideoCall.initializeCall bobJoins None (opened afterAlice))).
Definition afterBobLeft : GroupVideoCall.World :=
  GroupVideoCall.world
    (CallRecord.stateOf (GroupVideoCall.cleanup bobJoins (Some 0%N) (opened afterBob))).

(** The store with Alice and Bob in the call, about to answer the read
    of the record and then to reject its update. *)
Definition afterBobFlaky : GroupVideoCall.World :=
  GroupVideoCall.setFaults [false; true] afterBob.

(** The store as Alice left it, about to answer Bob's query and then
    to reject his update. *)
Definition afterAliceFlaky : GroupVideoCall.World :=
  GroupVideoCall.setFaults [false; true] afterAlice.

(** Surroundings in which everything works: the user document is
    there, offers and answers are created and set, writes go through. *)
Definition someAnswerSDP : GroupVideoCall.SessionDescription :=
  {| GroupVideoCall.sd_type := of_string "answer";
     GroupVideoCall.sd_sdp := of_string "v=0" |}.
Definition setupWorks : GroupVideoCall.SetupEnv :=
  {| GroupVideoCall.userDocExists := true;
     GroupVideoCall.createOffer := Some someOffer;
     GroupVideoCall.setLocalDescription_ok := true;
     GroupVideoCall.setDocOffer_ok := true |}.
Definition listenerWorks : GroupVideoCall.ListenerEnv :=
  {| GroupVideoCall.listener_setRemoteDescription_ok := true;
     GroupVideoCall.listener_createAnswer := Some someAnswerSDP;
     GroupVideoCall.listener_setLocalDescription_ok := true;
     GroupVideoCall.listener_updateDoc_ok := true |}.
Definition noSignalingYet : GroupVideoCall.Signaling :=
  {| GroupVideoCall.connections := []; GroupVideoCall.candidates := [] |}.

Definition emptyCalls : VideoCall.Store :=
  {| VideoCall.calls := []; VideoCall.offerCandidates := [];
     VideoCall.answerCandidates := []; VideoCall.nextId := 0%N |}.

End Samples.

(* ================================================================= *)
(** * GroupVideoCall.tsx: the participants of a running call *)

Module GroupCallParticipants.

Import GroupVideoCall.

(** ** The candidate listener, a snapshot at a time *)

(** The changes the candidate listener goes on with: added records of
    another sender that pass the completeness guard. *)
Definition foreignComplete (currentUserId : js_string)
    (change : changeType * CandidateData) : bool :=
  match fst change with
  | Added =>
      strict_neq_string (sender (snd change)) currentUserId
      && negb (incomplete (snd change))
  | _ => false
  end.

Definition retryOf (change : changeType * CandidateData) : Timer :=
  {| delay := 2000; retried := candidateOf (snd change) |}.

(** ** [listenForParticipants] *)

(** [Array.from(new Set(xs))]: the elements in the order of their first
    occurrence. *)
Definition setOf (xs : list js_string) : list js_string :=
  fold_left (fun seen x => if includes seen x then seen else seen ++ [x]) xs [].

(** One insertion into a [Set]. *)
Definition addNew (seen : list js_string) (x : js_string) : list js_string :=
  if includes seen x then seen else seen ++ [x].

(** What the snapshot callback of [listenForParticipants] does: it
    either gives the call up ([toast.info('The call has ended')],
    [cleanup()], [onEndCall()]) or calls [setupPeerConnection] for the
    first list, in order, and then [cleanupParticipantConnection] for
    the second. *)
Inductive reaction :=
| CallHasEnded
| Reconcile (setups teardowns : list js_string).

(** [participants] is the state variable as the closure of the callback
    sees it; [snapshot] is [None] when [snapshot.exists()] is false. *)
Definition onCallSnapshot (currentUserId : js_string)
    (participants : list Participant) (snapshot : option GroupCallData)
    : reaction :=
  match snapshot with
  | None => CallHasEnded
  | Some callData =>
      if string_eqb (status callData) (of_string "ended") then CallHasEnded
      else
        let currentParticipantIds := map id participants in
        let currentParticipantsSet := setOf currentParticipantIds in
        let firestoreParticipants := participantsOrEmpty callData in
        let newParticipantsSet := setOf firestoreParticipants in
        let newParticipantsArray := newParticipantsSet in
        Reconcile
          (filter (fun participantId =>
                     negb (string_eqb participantId currentUserId)
                     && negb (includes currentParticipantsSet participantId))
                  newParticipantsArray)
          (filter (fun participantId =>
                     negb (string_eqb participantId currentUserId)
                     && negb (includes newParticipantsSet participantId))
                  currentParticipantIds)
  end.

(** The effect of giving the call up, with the [callId] of the closure. *)
Definition callHasEnded (props : GroupVideoCallProps) (callId : option DocId)
    : M unit :=
  modify (addToast (ToastInfo "The call has ended")) ;;
  cleanup props callId ;;
  modify callOnEndCall.

(** ** The participant tiles *)

(** The fields of a [users] document the component reads. *)
Record UserData := {
  user_displayName : js_string;
  user_photoURL : js_string
}.

(** [userData.displayName || 'User'] *)
Definition orUser (s : js_string) : js_string :=
  match s with [] => of_string "User" | _ :: _ => s end.

(** [setupPeerConnection]: the tile of the participant, without stream. *)
Definition showConnecting (participantId : js_string) (userData : UserData)
    (prev : list Participant) : list Participant :=
  filter (fun p => negb (string_eqb (id p) participantId)) prev ++
  [{| id := participantId;
      participant_displayName := orUser (user_displayName userData);
      participant_photoURL := Some (user_photoURL userData);
      stream := None;
      connectionState := Some "connecting"%string |}].

Definition stateName (st : RTCPeerConnectionState) : string :=
  match st with
  | StNew => "new"
  | StConnecting => "connecting"
  | StConnected => "connected"
  | StDisconnected => "disconnected"
  | StFailed => "failed"
  | StClosed => "closed"
  end.

Definition withConnectionState (st : string) (p : Participant) : Participant :=
  {| id := id p;
     participant_displayName := participant_displayName p;
     participant_photoURL := participant_photoURL p;
     stream := stream p;
     connectionState := Some st |}.

Definition withStream (ms : MediaStream) (p : Participant) : Participant :=
  {| id := id p;
     participant_displayName := participant_displayName p;
     participant_photoURL := participant_photoURL p;
     stream := Some ms;
     connectionState := connectionState p |}.

(** [onconnectionstatechange] and the [catch] of [setupPeerConnection]:
    the state shown on the participant's tile. *)
Definition showConnectionState (participantId : js_string) (st : string)
    (prev : list Participant) : list Participant :=
  map (fun p => if string_eqb (id p) participantId
                then withConnectionState st p else p) prev.

(** [ontrack]: the stream of the participant, shown as connected. *)
Definition showStream (participantId : js_string) (newStream : MediaStream)
    (prev : list Participant) : list Participant :=
  map (fun p => if string_eqb (id p) participantId
                then withConnectionState "connected" (withStream newStream p)
                else p) prev.

(** [initializeCall]: the tile of the current user. *)
Definition showSelf (props : GroupVideoCallProps) (ms : MediaStream)
    (prev : list Participant) : list Participant :=
  filter (fun p => negb (string_eqb (id p) (currentUserId props))) prev
  ++ [selfTile props ms].

(** [toggleMicrophone] and [toggleVideo]: the tile found by
    [findIndex(p => p.id === currentUserId)] gets the local stream. *)
Fixpoint refreshOwnStream (currentUserId : js_string)
    (localStream : option MediaStream) (prev : list Participant)
    : list Participant :=
  match prev with
  | [] => []
  | p :: rest =>
      if string_eqb (id p) currentUserId then
        match localStream with
        | Some ms => withStream ms p :: rest
        | None => p :: rest
        end
      else p :: refreshOwnStream currentUserId localStream rest
  end.

(** [cleanupParticipantConnection]: [activeParticipant] is the state
    variable of the closure. *)
Definition cleanupParticipantConnection (activeParticipant : option js_string)
    (participantId : js_string) (c : Component) : Component :=
  let c1 :=
    if includes (peerConnections c) participantId
    then setPeerConnections (without (peerConnections c) participantId) c
    else c in
  let c2 :=
    setParticipants
      (fun prev => filter (fun p => negb (string_eqb (id p) participantId)) prev)
      c1 in
  match activeParticipant with
  | Some a => if string_eqb a participantId then setActiveParticipant None c2 else c2
  | None => c2
  end.

(** The updates the component makes to its tiles. *)
Inductive tilesStep : list Participant -> list Participant -> Prop :=
| tiles_self props ms prev : tilesStep prev (showSelf props ms prev)
| tiles_connecting pid userData prev : tilesStep prev (showConnecting pid userData prev)
| tiles_state pid st prev : tilesStep prev (showConnectionState pid st prev)
| tiles_stream pid ms prev : tilesStep prev (showStream pid ms prev)
| tiles_refresh cur ms prev : tilesStep prev (refreshOwnStream cur ms prev)
| tiles_left active pid c :
    tilesStep (tiles c) (tiles (cleanupParticipantConnection active pid c))
| tiles_reset prev : tilesStep prev [].

Inductive tilesReachable : list Participant -> Prop :=
| tiles_mounted : tilesReachable []
| tiles_next prev next :
    tilesReachable prev -> tilesStep prev next -> tilesReachable next.

(** ** The history of the call records *)

(** What may become of a record: group, creator and start stay, the
    status stays or becomes 'ended'. *)
Definition recordEvolves (d d' : GroupCallData) : Prop :=
  groupId d' = groupId d /\ creatorId d' = creatorId d /\
  creatorName d' = creatorName d /\ startTime d' = startTime d /\
  (status d' = status d \/ status d' = of_string "ended").

Definition sameDocument (e e' : DocId * GroupCallData) : Prop :=
  fst e' = fst e /\ recordEvolves (snd e) (snd e').

(** What may become of the collection: every document is still there,
    under its identifier and in its place, and new ones come after. *)
Definition storeEvolves (l l' : list (DocId * GroupCallData)) : Prop :=
  exists kept added,
    l' = kept ++ added /\ Forall2 sameDocument l kept.

(** The collection of a state has evolved from [l0]. *)
Definition since (l0 : list (DocId * GroupCallData)) (s : State) : Prop :=
  storeEvolves l0 (groupCalls (world s)).

(** Any number of steps of the component, one after the other. *)
Inductive runs : World -> World -> Prop :=
| runs_none (w : World) : runs w w
| runs_more (w w1 w2 : World) : CallRecord.step w w1 -> runs w1 w2 -> runs w w2.

End GroupCallParticipants.

(* ================================================================= *)
(** * More sample data *)

Module MoreSamples.

Import Samples.

(** A candidate of the second media line, as the browser hands it out. *)
Definition hostIce1 : GroupVideoCall.RTCIceCandidate :=
  {| GroupVideoCall.ice_sdpMLineIndex := VNumber 1;
     GroupVideoCall.ice_candidate := VString hostCandidate;
     GroupVideoCall.ice_sdpMid := VString mid1 |}.

(** A connection whose remote description is set. *)
Definition describedConnection : GroupVideoCall.PeerConnection :=
  {| GroupVideoCall.remoteDescription := Some someOffer;
     GroupVideoCall.remoteCandidates := [] |}.

Definition noSignaling : GroupVideoCall.Signaling :=
  {| GroupVideoCall.connections := []; GroupVideoCall.candidates := [] |}.

(** The record of a call Alice created and Bob and Carol joined. *)
Definition threeInCall : GroupVideoCall.GroupCallData :=
  GroupVideoCall.withParticipants [alice; bob; carol]
    (CallRecord.createdBy aliceJoins 1000%N).

Definition carolJoins : GroupVideoCall.GroupVideoCallProps :=
  {| GroupVideoCall.currentUserId := carol;
     GroupVideoCall.props_groupId := family;
     GroupVideoCall.displayName := of_string "Carol";
     GroupVideoCall.photoURL := None |}.

(** The empty store, about to answer the query and the creation of the
    call and then to reject the system message. *)
Definition emptyWorldFlaky : GroupVideoCall.World :=
  GroupVideoCall.setFaults [false; false; true] emptyWorld.

(** A call record whose participants field is missing, and a store
    that holds it under the identifier 0. *)
Definition brokenRecord : GroupVideoCall.GroupCallData :=
  {| GroupVideoCall.groupId := family;
     GroupVideoCall.creatorId := VString alice;
     GroupVideoCall.creatorName := of_string "Alice";
     GroupVideoCall.creatorPhotoURL := [];
     GroupVideoCall.status := of_string "active";
     GroupVideoCall.participants := None;
     GroupVideoCall.startTime := Some 1000%N;
     GroupVideoCall.endTime := None |}.
Definition brokenWorld : GroupVideoCall.World :=
  GroupVideoCall.setNextId 1%N
    (GroupVideoCall.setGroupCalls [(0%N, brokenRecord)] emptyWorld).

(** Bob's tile, as Alice's component shows it. *)
Definition bobTile : GroupVideoCall.Participant :=
  {| GroupVideoCall.id := bob;
     GroupVideoCall.participant_displayName := of_string "Bob";
     GroupVideoCall.participant_photoURL := None;
     GroupVideoCall.stream := None;
     GroupVideoCall.connectionState := Some "connecting"%string |}.

End MoreSamples.

(* ================================================================= *)
(** * PhilosophicalQuote.tsx: the quotes and the rest of the second copy *)

Module QuoteCopy.

Import GroupVideoCall.

(** ** The rotating quote *)

Record Quote := { text : string; author : string }.

Definition quotes : list Quote :=
  [ {| text := "The unexamined life is not worth living.";
       author := "Socrates" |};
    {| text := "Happiness is not something ready-made. It comes from your own actions.";
       author := "Dalai Lama" |};
    {| text := "I think, therefore I am.";
       author := "René Descartes" |};
    {| text := "He who has a why to live can bear almost any how.";
       author := "Friedrich Nietzsche" |};
    {| text := "We are what we repeatedly do. Excellence, then, is not an act, but a habit.";
       author := "Aristotle" |} ].

(** [setCurrentQuoteIndex((prev) => (prev + 1) % quotes.length)] *)
Definition nextQuoteIndex (prev : nat) : nat :=
  (prev + 1) mod List.length quotes.

(** The index after [n] ticks of the interval, from [useState(0)]. *)
Definition quoteIndexAfter (n : nat) : nat := Nat.iter n nextQuoteIndex 0.

(** [quotes[currentQuoteIndex]] *)
Definition shownQuote (currentQuoteIndex : nat) : option Quote :=
  nth_error quotes currentQuoteIndex.

(** ** [cleanup] of the second copy *)

(** [callData.participants.filter(...)] is called on the field as it
    is: when the field is no array the call throws. *)
Definition cleanup (props : GroupVideoCallProps) (callId : option DocId) : M unit :=
  modify (setLocalStream None) ;;
  modify (setPeerConnections []) ;;
  modify (setParticipants (fun _ => [])) ;;
  modify (setActiveParticipant None) ;;
  match callId with
  | Some callId =>
      try_catch
        (callDoc <- getDoc_groupCall callId ;;
         match callDoc with
         | Some callData =>
             match participants callData with
             | Some ps =>
                 let updatedParticipants := without ps (currentUserId props) in
                 if negb (strict_neq_string (creatorId callData) (currentUserId props))
                    || (List.length updatedParticipants =? 0)%nat
                 then
                   endTime <- serverTimestamp ;;
                   updateDoc_groupCall callId (withEnded updatedParticipants endTime)
                 else
                   updateDoc_groupCall callId (withParticipants updatedParticipants)
             | None => fun s => Throw s             (* TypeError *)
             end
         | None => ret tt
         end)
        (ret tt)                                   (* logged *)
  | None => ret tt
  end ;;
  modify (setIsCallActive false) ;;
  modify (setCallId None).

(** ** [initializeCall] of the second copy *)

(** The tile of the current user: no connection state here. *)
Definition selfTile (props : GroupVideoCallProps) (ms : MediaStream) : Participant :=
  {| id := currentUserId props;
     participant_displayName := displayName props;
     participant_photoURL := photoURL props;
     stream := Some ms;
     connectionState := None |}.

Definition createOrJoin (props : GroupVideoCallProps) : M DocId :=
  querySnapshot <- getDocs_groupCallsQuery (props_groupId props) ;;
  match querySnapshot with
  | [] =>
      t <- serverTimestamp ;;
      callDocId <- addDoc_groupCalls
        {| groupId := props_groupId props;
           creatorId := VString (currentUserId props);
           creatorName := displayName props;
           creatorPhotoURL := orEmpty (photoURL props);
           status := of_string "active";
           participants := Some [currentUserId props];
           startTime := Some t;
           endTime := None |} ;;
      addDoc_groupMessages (systemMessage props " started a video call" t) ;;
      ret callDocId
  | existingCall :: _ =>
      let callDocId := fst existingCall in
      let callData := snd existingCall in
      match participants callData with
      | Some ps =>
          (if negb (includes ps (currentUserId props))
           then updateDoc_groupCall callDocId
                  (withParticipants (ps ++ [currentUserId props]))
           else ret tt) ;;
          ret callDocId
      | None => fun s => Throw s                   (* TypeError *)
      end
  end.

Definition initializeCall (props : GroupVideoCallProps) (callId : option DocId)
    : M unit :=
  try_catch
    (callDocId <- createOrJoin props ;;
     modify (setCallId (Some callDocId)) ;;
     ms <- mediaDevices_getUserMedia true true ;;
     modify (setLocalStream (Some ms)) ;;
     modify (setParticipants (fun prev =>
       filter (fun p => negb (string_eqb (id p) (currentUserId props))) prev
       ++ [selfTile props ms])) ;;
     modify (setIsCallActive true) ;;
     modify (setIsJoining false) ;;
     modify (addListener callDocId))
    (modify (addToast (ToastError
       "Failed to start call. Please check your camera and microphone permissions.")) ;;
     cleanup props callId ;;
     modify callOnEndCall).

(** ** The candidate listener of the second copy *)

(** Every added record of another sender goes to [addIceCandidate] as
    it is; a rejection is caught and logged. *)
Definition onCandidateChange (engine : RTCIceCandidate -> bool)
    (currentUserId : js_string) (type : changeType) (data : CandidateData)
    (pc : PeerConnection) : PeerConnection :=
  match type with
  | Added =>
      if strict_neq_string (sender data) currentUserId then
        let candidate :=
          {| ice_sdpMLineIndex := sdpMLineIndex data;
             ice_candidate := candidate data;
             ice_sdpMid := sdpMid data |} in
        match addIceCandidate engine candidate pc with
        | Some pc' => pc'
        | None => pc
        end
      else pc
  | _ => pc
  end.

(** ** The simple toggles (second copy and one-to-one call) *)

(** A track of the local stream with its [enabled] flag. *)
Record LocalTrack := {
  kind : MediaStreamTrack;
  enabled : bool
}.

(** [localStreamRef.current] and the two flags of the controls. *)
Record Controls := {
  localTracks : option (list LocalTrack);
  micMuted : bool;
  videoOff : bool
}.

Definition isAudio (t : LocalTrack) : bool :=
  match kind t with AudioTrack => true | VideoTrack => false end.
Definition isVideo (t : LocalTrack) : bool :=
  match kind t with VideoTrack => true | AudioTrack => false end.

(** [track.enabled = !track.enabled] *)
Definition flip (t : LocalTrack) : LocalTrack :=
  {| kind := kind t; enabled := negb (enabled t) |}.

(** [toggleMicrophone]: every audio track is flipped, then the flag. *)
Definition toggleMicrophone (c : Controls) : Controls :=
  match localTracks c with
  | Some ts =>
      {| localTracks := Some (map (fun t => if isAudio t then flip t else t) ts);
         micMuted := negb (micMuted c);
         videoOff := videoOff c |}
  | None => c
  end.

(** [toggleVideo]: every video track is flipped, then the flag. *)
Definition toggleVideo (c : Controls) : Controls :=
  match localTracks c with
  | Some ts =>
      {| localTracks := Some (map (fun t => if isVideo t then flip t else t) ts);
         micMuted := micMuted c;
         videoOff := negb (videoOff c) |}
  | None => c
  end.

(** The flags say what the tracks do. *)
Definition inSync (c : Controls) : Prop :=
  forall ts t, localTracks c = Some ts -> In t ts ->
    enabled t = if isAudio t then negb (micMuted c) else negb (videoOff c).

(** The controls after [getUserMedia]: all tracks enabled, nothing
    muted, nothing off. *)
Definition freshControls (kinds : MediaStream) : Controls :=
  {| localTracks := Some (map (fun k => {| kind := k; enabled := true |}) kinds);
     micMuted := false;
     videoOff := false |}.

Inductive pressed : Controls -> Controls -> Prop :=
| pressed_none c : pressed c c
| pressed_mic c c' : pressed c c' -> pressed c (toggleMicrophone c')
| pressed_video c c' : pressed c c' -> pressed c (toggleVideo c').

End QuoteCopy.

(* ================================================================= *)
(** * GroupMessages.tsx and IncomingCallAlert.tsx: the rest of the
      one-to-one call *)

Module OneToOneCall.

Import VideoCall.

(** [updateDoc(doc(db, 'calls', id), {status})] on the collection. *)
Definition withStatus (st : js_string) (d : CallData) : CallData :=
  {| callerId := callerId d; receiverId := receiverId d;
     offerSDP := offerSDP d; status := st; answered := answered d |}.

Definition hasCall (i : DocId) (s : Store) : bool :=
  existsb (fun e => (fst e =? i)%N) (calls s).

Definition updateCall (i : DocId) (f : CallData -> CallData) (s : Store) : Store :=
  {| calls := map (fun e => if (fst e =? i)%N then (fst e, f (snd e)) else e) (calls s);
     offerCandidates := offerCandidates s;
     answerCandidates := answerCandidates s;
     nextId := nextId s |}.

(** [cleanup] with the outcome of its [deleteDoc]: a failure is caught
    and the state is reset all the same. *)
Definition cleanupWith (deleteDoc_ok : bool) (r : Render) (s : Store)
    : Render * Store :=
  if deleteDoc_ok then cleanup r s else (mounted, s).

(** [endCall]: the status is written when the closure knows the call
    ([updateDoc_ok]: the write goes through; a failure is caught), then
    [cleanup] runs, which deletes the document. *)
Definition endCall (updateDoc_ok deleteDoc_ok : bool) (r : Render) (s : Store)
    : Render * Store :=
  let s1 :=
    match callDocId r with
    | Some i => if updateDoc_ok then updateCall i (withStatus (of_string "ended")) s else s
    | None => s
    end in
  cleanupWith deleteDoc_ok r s1.

(** [rejectCall]: nothing without an incoming call; the state forgets
    the call only when the write went through. *)
Definition rejectCall (updateDoc_ok : bool) (r : Render) (s : Store) : Render * Store :=
  match incomingCall r with
  | None => (r, s)
  | Some i =>
      if updateDoc_ok && hasCall i s then
        ({| isCalling := isCalling r; isCallConnected := isCallConnected r;
            incomingCall := None; callDocId := callDocId r |},
         updateCall i (withStatus (of_string "rejected")) s)
      else (r, s)
  end.

(** [peerConnection.onicecandidate] as [answerCall] installs it: the
    identifier is that of the incoming call, which the closure has. *)
Definition onicecandidate_answer (incomingCallId : DocId)
    (event_candidate : option IceCandidateJSON) (s : Store) : Store :=
  match event_candidate with
  | Some c =>
      {| calls := calls s;
         offerCandidates := offerCandidates s;
         answerCandidates := answerCandidates s ++ [(incomingCallId, c)];
         nextId := nextId s |}
  | None => s
  end.

(** What the surroundings decide during one [answerCall];
    [createAnswer] is [None] when it or [setLocalDescription] rejects. *)
Record AnswerEnv := {
  answer_getUserMedia_ok : bool;
  setRemoteDescription_ok : bool;
  createAnswer : option GroupVideoCall.SessionDescription;
  answer_updateDoc_ok : bool;
  getDocs_ok : bool;
  reject_updateDoc_ok : bool;
  engine : IceCandidateJSON -> bool
}.

(** [getDocs(collection(db, 'calls', id, 'offerCandidates'))] *)
Definition offerCandidatesOf (i : DocId) (s : Store) : list IceCandidateJSON :=
  map snd (filter (fun e => (fst e =? i)%N) (offerCandidates s)).

Definition withAnswer (d : CallData) : CallData :=
  {| callerId := callerId d; receiverId := receiverId d;
     offerSDP := offerSDP d; status := of_string "active"; answered := true |}.

Inductive answered_call :=
| Answering (handler : option IceCandidateJSON -> Store -> Store)
            (pc : GroupVideoCall.PeerConnection)
            (answerSDP : GroupVideoCall.SessionDescription)
            (state : Render) (s : Store)
| NotAnswering (state : Render) (s : Store).

(** [answerCall], run from render [r]; [incoming] is the data of the
    incoming call the state holds.  The offer candidates are read once;
    the ones the engine rejects are not added. *)
Definition answerCall (env : AnswerEnv) (r : Render) (incoming : CallData)
    (s : Store) : answered_call :=
  match incomingCall r with
  | None => NotAnswering r s
  | Some i =>
      let giveUp (s0 : Store) :=
        let (r', s') := rejectCall (reject_updateDoc_ok env) r s0 in
        NotAnswering r' s' in
      if negb (answer_getUserMedia_ok env) then giveUp s
      else if negb (setRemoteDescription_ok env) then giveUp s
      else
        match createAnswer env with
        | None => giveUp s
        | Some answerDescription =>
            if negb (answer_updateDoc_ok env && hasCall i s) then giveUp s
            else
              let s1 := updateCall i withAnswer s in
              if negb (getDocs_ok env) then
                let (r', s') := rejectCall (reject_updateDoc_ok env) r s1 in
                NotAnswering
                  {| isCalling := isCalling r'; isCallConnected := isCallConnected r';
                     incomingCall := incomingCall r'; callDocId := Some i |}
                  s'
              else
                Answering (onicecandidate_answer i)
                  {| GroupVideoCall.remoteDescription := Some (offerSDP incoming);
                     GroupVideoCall.remoteCandidates :=
                       filter (engine env) (offerCandidatesOf i s1) |}
                  answerDescription
                  {| isCalling := isCalling r; isCallConnected := true;
                     incomingCall := None; callDocId := Some i |}
                  s1
        end
  end.

(** [IncomingCallAlert], once the call is accepted, renders
    [<VideoCall targetUserId={incomingCall.callerId} ... />]. *)
Definition acceptedCallProps (currentUserId : js_string) (incoming : CallData)
    : VideoCallProps :=
  {| currentUserId := currentUserId; targetUserId := Some (callerId incoming) |}.

(** The candidate events the caller's connection delivers, one after
    the other, to the handler [startCall] installed. *)
Definition deliver (handler : option IceCandidateJSON -> Store -> Store)
    (events : list (option IceCandidateJSON)) (s : Store) : Store :=
  fold_left (fun st ev => handler ev st) events s.

End OneToOneCall.

(** * Sample one-to-one calls *)

Module OneToOneSamples.
Import VideoCall OneToOneCall Samples MoreSamples.

(** Bob's side of the one-to-one call Alice placed under identifier 0:
    his view holds it as incoming call; media, answer and store work. *)
Definition bobRinging : Render :=
  {| isCalling := false; isCallConnected := false;
     incomingCall := Some 0%N; callDocId := None |}.
Definition aliceToBob : CallData :=
  {| callerId := alice; receiverId := bob;
     offerSDP := someOffer;
     status := of_string "pending"; answered := false |}.
Definition someAnswer : GroupVideoCall.SessionDescription :=
  {| GroupVideoCall.sd_type := of_string "answer";
     GroupVideoCall.sd_sdp := of_string "v=0" |}.
Definition bobAnswers : AnswerEnv :=
  {| answer_getUserMedia_ok := true;
     setRemoteDescription_ok := true;
     createAnswer := Some someAnswer;
     answer_updateDoc_ok := true;
     getDocs_ok := true;
     reject_updateDoc_ok := true;
     engine := fun _ => true |}.

(** The store with Alice's call to Bob pending, and Alice's view of it. *)
Definition oneCall : Store :=
  {| calls := [(0%N, aliceToBob)]; offerCandidates := [];
     answerCandidates := [(0%N, hostIce1)]; nextId := 1%N |}.
Definition aliceCalling : Render :=
  {| isCalling := true; isCallConnected := false;
     incomingCall := None; callDocId := Some 0%N |}.

End OneToOneSamples.

(* ================================================================= *)
(** * GroupMessages.tsx: the group chat *)

Module GroupChat.

(** ** Strings *)

(** The code units [String.prototype.trim] removes: white space and
    line terminators. *)
Definition isWhiteSpace (c : code_unit) : bool :=
  ((c =? 9) || (c =? 10) || (c =? 11) || (c =? 12) || (c =? 13) || (c =? 32)
   || (c =? 160) || (c =? 5760) || ((8192 <=? c) && (c <=? 8202))
   || (c =? 8232) || (c =? 8233) || (c =? 8239) || (c =? 8287)
   || (c =? 12288) || (c =? 65279))%N.

Fixpoint trimStart (s : js_string) : js_string :=
  match s with
  | [] => []
  | c :: s' => if isWhiteSpace c then trimStart s' else s
  end.
Definition trimEnd (s : js_string) : js_string := rev (trimStart (rev s)).
Definition trim (s : js_string) : js_string := trimEnd (trimStart s).

(** [a || b] where [a] is a string or undefined: undefined and the
    empty string are falsy. *)
Definition orElse (a b : option js_string) : option js_string :=
  match a with Some (_ :: _) => a | _ => b end.
Definition orLiteral (a : option js_string) (b : js_string) : js_string :=
  match a with Some ((_ :: _) as x) => x | _ => b end.

(** [newMessage.trim().substring(0, 30) + (newMessage.length > 30 ? '...' : '')] *)
Definition preview (newMessage : js_string) : js_string :=
  firstn 30 (trim newMessage)
  ++ (if (30 <? List.length newMessage)%nat then of_string "..." else []).

(** ** Documents *)

Definition Timestamp := N.

(** [currentUser]: the code reads [id], [uid] and [displayName], each
    of which may be missing. *)
Record User := {
  id : option js_string;
  uid : option js_string;
  displayName : option js_string
}.

(** [currentUser.id || currentUser.uid] *)
Definition userIdOf (u : User) : option js_string := orElse (id u) (uid u).

Record MessageData := {
  message_groupId : js_string;
  senderId : js_string;
  senderName : js_string;
  content : js_string;
  timestamp : Timestamp;
  type : string
}.

(** The fields of a [groups] document that the chat writes. *)
Record GroupData := {
  members : list js_string;
  lastMessage : option js_string;
  lastMessageTime : option Timestamp;
  lastMessageSender : option js_string
}.

Record ReadStatus := {
  status_groupId : js_string;
  status_userId : js_string;
  lastReadTimestamp : Timestamp
}.

(** The three collections, the identifier the store hands out next and
    the server clock. *)
Record Db := {
  groups : list (js_string * GroupData);
  groupMessages : list (DocId * MessageData);
  groupReadStatus : list (DocId * ReadStatus);
  nextId : DocId;
  serverTime : Timestamp
}.

(** [groupInfo] and [groupMembers], the state the component loaded. *)
Record GroupInfo := { createdBy : option js_string }.
Record GroupMember := {
  member_id : js_string;
  member_displayName : option js_string
}.

(** What one render of the component gives its handlers: the props and
    the state variables they close over. *)
Record Render := {
  groupId : js_string;
  currentUser : option User;
  newMessage : js_string;
  groupInfo : option GroupInfo;
  groupMembers : list GroupMember
}.

Inductive Toast := ToastError (s : string) | ToastSuccess (s : string).

(** The store, which of the coming requests fail ([true]: that request
    rejects), and what the handlers leave for the next render: the
    message input and the toasts shown. *)
Record State := {
  db : Db;
  faults : list bool;
  input : js_string;
  toasts : list Toast
}.

Definition setDb (d : Db) (s : State) : State :=
  {| db := d; faults := faults s; input := input s; toasts := toasts s |}.
Definition setFaults (f : list bool) (s : State) : State :=
  {| db := db s; faults := f; input := input s; toasts := toasts s |}.
(** [setNewMessage(v)] *)
Definition setNewMessage (v : js_string) (s : State) : State :=
  {| db := db s; faults := faults s; input := v; toasts := toasts s |}.
Definition addToast (t : Toast) (s : State) : State :=
  {| db := db s; faults := faults s; input := input s; toasts := toasts s ++ [t] |}.

(** The server clock moves on. *)
Definition atTime (t : Timestamp) (s : State) : State :=
  setDb {| groups := groups (db s);
           groupMessages := groupMessages (db s);
           groupReadStatus := groupReadStatus (db s);
           nextId := nextId (db s);
           serverTime := t |} s.

(** ** The monad of the asynchronous handlers *)

Inductive result (A : Type) :=
| Ok (a : A) (s : State)
| Throw (s : State).
Arguments Throw {A} s.

Definition M (A : Type) := State -> result A.

Definition ret {A} (a : A) : M A := fun s => Ok a s.
Definition throw {A} : M A := fun s => Throw s.
Definition bind {A B} (m : M A) (k : A -> M B) : M B :=
  fun s => match m s with
           | Ok a s' => k a s'
           | Throw s' => Throw s'
           end.
(** [try { m } catch (error) { h }] *)
Definition try_catch {A} (m h : M A) : M A :=
  fun s => match m s with
           | Ok a s' => Ok a s'
           | Throw s' => h s'
           end.
Definition modify (f : State -> State) : M unit := fun s => Ok tt (f s).

Notation "x <- m ;; k" := (bind m (fun x => k))
  (at level 61, m at next level, right associativity).
Notation "m ;; k" := (bind m (fun _ => k))
  (at level 61, right associativity).

(** ** The store requests *)

(** Every request to the store may reject: the next entry of the fault
    schedule says whether this one does. *)
Definition request : M unit :=
  fun s =>
    match faults s with
    | [] => Ok tt s
    | false :: rest => Ok tt (setFaults rest s)
    | true :: rest => Throw (setFaults rest s)
    end.

(** [serverTimestamp()], resolved by the store when it writes. *)
Definition serverTimestamp : M Timestamp := fun s => Ok (serverTime (db s)) s.

(** [addDoc(collection(db, 'groupMessages'), m)] *)
Definition addDoc_groupMessages (m : MessageData) : M DocId :=
  request ;;
  fun s =>
    let d := db s in
    Ok (nextId d)
       (setDb {| groups := groups d;
                 groupMessages := groupMessages d ++ [(nextId d, m)];
                 groupReadStatus := groupReadStatus d;
                 nextId := N.succ (nextId d);
                 serverTime := serverTime d |} s).

Definition hasGroup (g : js_string) (d : Db) : bool :=
  existsb (fun e => string_eqb (fst e) g) (groups d).

(** [updateDoc(doc(db, 'groups', g), fields)]: [doc] throws on an empty
    identifier, the request rejects when there is no such document. *)
Definition updateDoc_group (g : js_string) (f : GroupData -> GroupData) : M unit :=
  match g with
  | [] => throw
  | _ :: _ =>
      request ;;
      fun s =>
        let d := db s in
        if hasGroup g d then
          Ok tt
             (setDb {| groups :=
                         map (fun e => if string_eqb (fst e) g
                                       then (fst e, f (snd e)) else e)
                             (groups d);
                       groupMessages := groupMessages d;
                       groupReadStatus := groupReadStatus d;
                       nextId := nextId d;
                       serverTime := serverTime d |} s)
        else Throw s
  end.

(** The fields [{lastMessage, lastMessageTime: serverTimestamp(),
    lastMessageSender}]. *)
Definition withLastMessage (text : js_string) (t : Timestamp) (sender : js_string)
    (d : GroupData) : GroupData :=
  {| members := members d;
     lastMessage := Some text;
     lastMessageTime := Some t;
     lastMessageSender := Some sender |}.

(** The field [{members}]. *)
Definition withMembers (ms : list js_string) (d : GroupData) : GroupData :=
  {| members := ms;
     lastMessage := lastMessage d;
     lastMessageTime := lastMessageTime d;
     lastMessageSender := lastMessageSender d |}.

(** [where('groupId', '==', g), where('userId', '==', u)] *)
Definition statusOf (g u : js_string) (e : DocId * ReadStatus) : bool :=
  string_eqb (status_groupId (snd e)) g && string_eqb (status_userId (snd e)) u.

Definition getDocs_readStatus (g u : js_string) : M (list (DocId * ReadStatus)) :=
  request ;;
  fun s => Ok (filter (statusOf g u) (groupReadStatus (db s))) s.

Definition addDoc_readStatus (r : ReadStatus) : M DocId :=
  request ;;
  fun s =>
    let d := db s in
    Ok (nextId d)
       (setDb {| groups := groups d;
                 groupMessages := groupMessages d;
                 groupReadStatus := groupReadStatus d ++ [(nextId d, r)];
                 nextId := N.succ (nextId d);
                 serverTime := serverTime d |} s).

Definition withLastRead (t : Timestamp) (r : ReadStatus) : ReadStatus :=
  {| status_groupId := status_groupId r;
     status_userId := status_userId r;
     lastReadTimestamp := t |}.

(** [updateDoc(doc(readStatusRef, docId), {lastReadTimestamp})] *)
Definition updateDoc_readStatus (i : DocId) (f : ReadStatus -> ReadStatus) : M unit :=
  request ;;
  fun s =>
    let d := db s in
    if existsb (fun e => (fst e =? i)%N) (groupReadStatus d) then
      Ok tt
         (setDb {| groups := groups d;
                   groupMessages := groupMessages d;
                   groupReadStatus :=
                     map (fun e => if (fst e =? i)%N then (fst e, f (snd e)) else e)
                         (groupReadStatus d);
                   nextId := nextId d;
                   serverTime := serverTime d |} s)
    else Throw s.

(** ** The handlers *)

(** [updateReadStatus]: one status document per group and user is
    looked for; the first one found is updated, and one is created when
    there is none.  Every error is caught and logged.  A user without
    [id] and [uid] makes the query carry [undefined], which [where]
    rejects. *)
Definition updateReadStatus (r : Render) : M unit :=
  match currentUser r, groupId r with
  | Some user, _ :: _ =>
      try_catch
        (match userIdOf user with
         | None => throw
         | Some userId =>
             querySnapshot <- getDocs_readStatus (groupId r) userId ;;
             match querySnapshot with
             | [] =>
                 t <- serverTimestamp ;;
                 addDoc_readStatus
                   {| status_groupId := groupId r;
                      status_userId := userId;
                      lastReadTimestamp := t |} ;;
                 ret tt
             | first :: _ =>
                 t <- serverTimestamp ;;
                 updateDoc_readStatus (fst first) (withLastRead t)
             end
         end)
        (ret tt)
  | _, _ => ret tt
  end.

(** [handleSendMessage], from the render [r].  A message that carries
    [undefined] as sender is rejected by [addDoc]. *)
Definition handleSendMessage (r : Render) : M unit :=
  match trim (newMessage r), currentUser r, groupId r with
  | _ :: _, Some user, _ :: _ =>
      try_catch
        (match userIdOf user with
         | None => throw
         | Some userId =>
             t <- serverTimestamp ;;
             addDoc_groupMessages
               {| message_groupId := groupId r;
                  senderId := userId;
                  senderName := orLiteral (displayName user) (of_string "User");
                  content := trim (newMessage r);
                  timestamp := t;
                  type := "text" |} ;;
             t' <- serverTimestamp ;;
             updateDoc_group (groupId r)
               (withLastMessage (preview (newMessage r)) t' userId) ;;
             updateReadStatus r ;;
             modify (setNewMessage [])
         end)
        (modify (addToast (ToastError "Failed to send message")))
  | _, _, _ => ret tt
  end.

(** [isGroupCreator()], as a condition. *)
Definition isGroupCreator (r : Render) : bool :=
  match currentUser r, groupInfo r with
  | Some user, Some info =>
      match userIdOf user with
      | Some ((_ :: _) as userId) =>
          match createdBy info with
          | Some creator => string_eqb creator userId
          | None => false
          end
      | _ => false
      end
  | _, _ => false
  end.

(** [memberId === (currentUser.id || currentUser.uid)] *)
Definition isSelf (user : User) (memberId : js_string) : bool :=
  match userIdOf user with
  | Some userId => string_eqb memberId userId
  | None => false
  end.

(** [`${removedMemberName} was removed from the group`] *)
Definition removalNotice (r : Render) (memberId : js_string) : js_string :=
  let removedMember :=
    find (fun m => string_eqb (member_id m) memberId) (groupMembers r) in
  let removedMemberName :=
    match removedMember with
    | Some m => orLiteral (member_displayName m) (of_string "A member")
    | None => of_string "A member"
    end in
  removedMemberName ++ of_string " was removed from the group".

(** [groupMembers.filter(member => member.id !== memberId).map(member => member.id)] *)
Definition updatedMembers (r : Render) (memberId : js_string) : list js_string :=
  map member_id
      (filter (fun m => negb (string_eqb (member_id m) memberId)) (groupMembers r)).

(** [kickMember], from the render [r]. *)
Definition kickMember (r : Render) (memberId : js_string) : M unit :=
  match currentUser r, groupInfo r with
  | Some user, Some _ =>
      if negb (isGroupCreator r) || isSelf user memberId then ret tt
      else
        try_catch
          (match userIdOf user with
           | Some ((_ :: _) as userId) =>
               updateDoc_group (groupId r) (withMembers (updatedMembers r memberId)) ;;
               let systemMessage := removalNotice r memberId in
               t <- serverTimestamp ;;
               addDoc_groupMessages
                 {| message_groupId := groupId r;
                    senderId := userId;
                    senderName := orLiteral (displayName user) (of_string "User");
                    content := systemMessage;
                    timestamp := t;
                    type := "system" |} ;;
               t' <- serverTimestamp ;;
               updateDoc_group (groupId r) (withLastMessage systemMessage t' userId) ;;
               modify (addToast (ToastSuccess "Member removed from group"))
           | _ => modify (addToast (ToastError "User ID not found"))
           end)
          (modify (addToast (ToastError "Failed to remove member")))
  | _, _ => ret tt
  end.

(** ** What the chat does over time *)

(** [m] keeps [P] of the store, whether it returns or throws. *)
Definition keeps (P : Db -> Prop) {A} (m : M A) : Prop :=
  forall s, P (db s) ->
            match m s with
            | Ok _ s' => P (db s')
            | Throw s' => P (db s')
            end.

(** One status document at most for a group and a user. *)
Definition oneStatusEach (d : Db) : Prop :=
  forall g u, (List.length (filter (statusOf g u) (groupReadStatus d)) <= 1)%nat.

(** A user the store can name: [id] or [uid] is there. *)
Definition signedIn (r : Render) : Prop :=
  exists user userId, currentUser r = Some user /\ userIdOf user = Some userId.

(** The handlers run one after the other, from any render of any
    signed-in user, while requests fail as the surroundings decide. *)
Inductive step : State -> State -> Prop :=
| step_send r s s' :
    signedIn r -> handleSendMessage r s = Ok tt s' -> step s s'
| step_read r s s' :
    signedIn r -> updateReadStatus r s = Ok tt s' -> step s s'
| step_kick r memberId s s' :
    signedIn r -> kickMember r memberId s = Ok tt s' -> step s s'
| step_faults fs s : step s (setFaults fs s)
| step_clock t s : step s (atTime t s).

Inductive runs : State -> State -> Prop :=
| runs_refl s : runs s s
| runs_step s s' s'' : runs s s' -> step s' s'' -> runs s s''.

(** ** The voice recorder *)

(** [n.toString()] for a natural number: decimal digits. *)
Fixpoint digits (d : Decimal.uint) : js_string :=
  match d with
  | Decimal.Nil => []
  | Decimal.D0 d => 48%N :: digits d
  | Decimal.D1 d => 49%N :: digits d
  | Decimal.D2 d => 50%N :: digits d
  | Decimal.D3 d => 51%N :: digits d
  | Decimal.D4 d => 52%N :: digits d
  | Decimal.D5 d => 53%N :: digits d
  | Decimal.D6 d => 54%N :: digits d
  | Decimal.D7 d => 55%N :: digits d
  | Decimal.D8 d => 56%N :: digits d
  | Decimal.D9 d => 57%N :: digits d
  end.
Definition toString (n : N) : js_string := digits (N.to_uint n).

(** [s.padStart(targetLength, '0')] *)
Definition padStart (targetLength : nat) (s : js_string) : js_string :=
  repeat 48%N (targetLength - List.length s) ++ s.

(** [VoiceRecorder]'s [formatTime]; [seconds] is the recording time, a
    count of elapsed seconds:
      [const mins = Math.floor(seconds / 60);
       const secs = seconds % 60;
       return `${mins}:${secs.toString().padStart(2, '0')}`;] *)
Definition formatTime (seconds : N) : js_string :=
  let mins := (seconds / 60)%N in
  let secs := (seconds mod 60)%N in
  toString mins ++ of_string ":" ++ padStart 2 (toString secs).

(** Counts of seconds that [Math.floor(seconds / 60)] divides exactly. *)
Definition exactInteger (n : N) : Prop := (n < 2 ^ 53)%N.

End GroupChat.

(* ================================================================= *)
(** * GroupCallNotification.tsx: the calls a user can join *)

Module CallNotification.

Import GroupVideoCall.

Record ActiveCall := {
  call_id : DocId;
  call_groupId : js_string;
  groupName : js_string;
  call_creatorName : js_string;
  participantCount : nat
}.

(** [ref.parent] of a document: its collection. *)
Definition documentParent (p : path) : path := removelast p.
(** [ref.parent] of a collection: the document it belongs to, [null]
    for a top-level collection. *)
Definition collectionParent (p : path) : option path :=
  match removelast p with
  | [] => None
  | q => Some q
  end.

(** The reference of a document of a snapshot on
    [collection(db, 'groupCalls')]. *)
Definition refOf (i : DocId) : path := [Name "groupCalls"; Auto i].

(** What the [participants] field of a record holds when it is not an
    array: a falsy value (missing, [null], [false], 0, the empty
    string), a string, or some other truthy value (a number, [true], a
    map). *)
Inductive otherValue :=
| Falsy
| Text (s : js_string)
| Truthy.

(** The field as the listener can use it. *)
Inductive participantsValue :=
| Nothing                         (* a falsy value *)
| Ids (ps : list js_string)       (* an array *)
| Characters (s : js_string).     (* a string that is not empty *)

(** [held i] says what the record [i] holds when its [participants]
    is not an array.  The result is [None] for a truthy value that is
    neither an array nor a string: it has no [includes] method, and the
    call of it throws. *)
Definition participantsOf (held : DocId -> otherValue)
    (doc : DocId * GroupCallData) : option participantsValue :=
  match participants (snd doc) with
  | Some ps => Some (Ids ps)
  | None =>
      match held (fst doc) with
      | Falsy => Some Nothing
      | Text [] => Some Nothing
      | Text ((_ :: _) as s) => Some (Characters s)
      | Truthy => None
      end
  end.

(** [text.startsWith(searchString)] and [text.includes(searchString)]
    on strings. *)
Fixpoint startsWith (text searchString : js_string) : bool :=
  match searchString, text with
  | [], _ => true
  | _ :: _, [] => false
  | c :: searchString', d :: text' => (c =? d)%N && startsWith text' searchString'
  end.
Fixpoint includesText (text searchString : js_string) : bool :=
  startsWith text searchString
  || match text with
     | [] => false
     | _ :: text' => includesText text' searchString
     end.

(** [callData.participants && callData.participants.includes(currentUserId)] *)
Definition alreadyIn (currentUserId : js_string) (v : participantsValue) : bool :=
  match v with
  | Nothing => false
  | Ids ps => includes ps currentUserId
  | Characters s => includesText s currentUserId
  end.

(** [callData.participants?.length || 0] *)
Definition lengthOrZero (v : participantsValue) : nat :=
  match v with
  | Nothing => 0
  | Ids ps => List.length ps
  | Characters s => List.length s
  end.

(** The entry pushed for a call: [{id, groupId, groupName,
    creatorName: callData.creatorName || 'Someone',
    participantCount: callData.participants?.length || 0}]. *)
Definition notificationOf (name : js_string) (e : DocId * GroupCallData)
    (v : participantsValue) : ActiveCall :=
  {| call_id := fst e;
     call_groupId := groupId (snd e);
     groupName := name;
     call_creatorName :=
       match creatorName (snd e) with
       | [] => of_string "Someone"
       | (_ :: _) as n => n
       end;
     participantCount := lengthOrZero v |}.

(** The callback of the snapshot listener, up to [setActiveCalls]:
    [getDoc p] is what [await getDoc(groupRef)] gives for the reference
    [p] ([None]: it rejects, [Some None]: no such document,
    [Some (Some name)]: the [name] of the group).  The result is [None]
    when the callback is left by an exception, in which case
    [setActiveCalls] is not reached. *)
Fixpoint activeCallsOf (currentUserId : js_string)
    (getDoc : path -> option (option js_string))
    (held : DocId -> otherValue)
    (docs : list (DocId * GroupCallData)) : option (list ActiveCall) :=
  match docs with
  | [] => Some []
  | doc :: rest =>
      match participantsOf held doc with
      | None => None                             (* TypeError *)
      | Some v =>
          if alreadyIn currentUserId v then
            activeCallsOf currentUserId getDoc held rest
          else
            let found :=
              match collectionParent (documentParent (refOf (fst doc))) with
              | Some groupRef =>
                  match getDoc groupRef with
                  | None => None
                  | Some (Some name) => Some name
                  | Some None => Some (of_string "Unknown Group")
                  end
              | None => Some (of_string "Unknown Group")
              end in
            match found with
            | None => None
            | Some name =>
                match activeCallsOf currentUserId getDoc held rest with
                | None => None
                | Some calls => Some (notificationOf name doc v :: calls)
                end
            end
      end
  end.

(** The entries one record adds to the list when the callback gets
    past it without a look at the groups. *)
Definition pushed (currentUserId : js_string) (held : DocId -> otherValue)
    (doc : DocId * GroupCallData) : list ActiveCall :=
  match participantsOf held doc with
  | Some v =>
      if alreadyIn currentUserId v then []
      else [notificationOf (of_string "Unknown Group") doc v]
  | None => []
  end.

(** The effect installs the listener when there is a user and a group
    to ask for; the [in] operator of the query takes a bounded number
    of values, never fewer than ten. *)
Definition listening (currentUserId : js_string) (userGroups : list js_string)
    : Prop :=
  currentUserId <> [] /\ (0 < List.length userGroups <= 10)%nat.

(** The snapshot of
    [query(collection(db, 'groupCalls'), where('groupId', 'in', userGroups),
           where('status', '==', 'active'))]. *)
Definition callsQuery (userGroups : list js_string)
    (groupCalls : list (DocId * GroupCallData)) : list (DocId * GroupCallData) :=
  filter (fun e => includes userGroups (groupId (snd e))
                   && string_eqb (status (snd e)) (of_string "active"))
         groupCalls.

(** The props with which [joinCall] mounts [GroupVideoCall]. *)
Definition joinProps (currentUserId displayName : js_string)
    (photoURL : option js_string) (selectedCall : ActiveCall) : GroupVideoCallProps :=
  {| currentUserId := currentUserId;
     props_groupId := call_groupId selectedCall;
     GroupVideoCall.displayName := displayName;
     GroupVideoCall.photoURL := photoURL |}.

End CallNotification.

(* ================================================================= *)
(** * Sample chats *)

Module ChatSamples.

Import GroupChat Samples.

(** Alice as the authentication hands her over: [uid], no [id]. *)
Definition aliceUser : User :=
  {| id := None; uid := Some alice; displayName := Some (of_string "Alice") |}.
Definition bobUser : User :=
  {| id := Some bob; uid := None; displayName := None |}.

Definition member (name : js_string) (shown : option js_string) : GroupMember :=
  {| member_id := name; member_displayName := shown |}.

(** The group "family", created by Alice, with no message yet. *)
Definition familyGroup : GroupData :=
  {| members := [alice; bob; carol];
     lastMessage := None; lastMessageTime := None; lastMessageSender := None |}.
Definition familyDb : Db :=
  {| groups := [(family, familyGroup)];
     groupMessages := [];
     groupReadStatus := [];
     nextId := 0%N;
     serverTime := 1000%N |}.

(** The render of the chat of "family" in which [user] has typed
    [text]. *)
Definition typing (user : User) (text : js_string) : Render :=
  {| groupId := family;
     currentUser := Some user;
     newMessage := text;
     groupInfo := Some {| createdBy := Some alice |};
     groupMembers :=
       [member alice (Some (of_string "Alice")); member bob None;
        member carol (Some (of_string "Carol"))] |}.

Definition hello : js_string := Eval cbv in of_string "  hello ".
Definition blank : js_string := [32%N; 9%N; 10%N; 160%N].
(** Twenty-nine letters and two spaces: thirty-one code units. *)
Definition padded : js_string :=
  Eval cbv in of_string "the quick brown fox jumps ove  ".

(** The store answers ([chatting []]), or rejects as [fs] says. *)
Definition chatting (fs : list bool) (text : js_string) : State :=
  {| db := familyDb; faults := fs; input := text; toasts := [] |}.

(** Alice sends "hello", Bob opens the chat, Alice sends again. *)
Definition outcome {A} (x : result A) : State :=
  match x with Ok _ s => s | Throw s => s end.
Definition aliceSent : State :=
  Eval vm_compute in
    outcome (handleSendMessage (typing aliceUser hello) (chatting [] hello)).
Definition bobRead : State :=
  Eval vm_compute in outcome (updateReadStatus (typing bobUser []) aliceSent).
Definition aliceSentAgain : State :=
  Eval vm_compute in
    outcome (handleSendMessage (typing aliceUser hello) bobRead).

End ChatSamples.

(* ================================================================= *)
(** * Sample notifications *)

Module NotificationSamples.

Import GroupVideoCall CallNotification Samples.

(** What Bob is shown while Alice's call of "family" is on. *)
Definition aliceCall : ActiveCall :=
  {| call_id := 0%N;
     call_groupId := family;
     groupName := of_string "Unknown Group";
     call_creatorName := of_string "Alice";
     participantCount := 1 |}.

(** A store of group names that answers nothing. *)
Definition noGroups : path -> option (option js_string) := fun _ => None.

(** Records whose [participants] is missing where it is not an array. *)
Definition noneHeld : DocId -> otherValue := fun _ => Falsy.

(** A record of "family" that holds the text "carol" for participants,
    and one that holds a number. *)
Definition textRecord : GroupCallData :=
  {| groupId := family;
     creatorId := VString alice;
     creatorName := of_string "Alice";
     creatorPhotoURL := [];
     status := of_string "active";
     participants := None;
     startTime := Some 1000%N;
     endTime := None |}.
Definition heldText : DocId -> otherValue := fun _ => Text carol.
Definition heldNumber : DocId -> otherValue := fun _ => Truthy.

End NotificationSamples.

(* ================================================================= *)
(** * Facts about JavaScript strings *)

Module JSFacts.

Lemma string_eqb_eq (x y : js_string) : string_eqb x y = true <-> x = y.
Proof.
  revert y; induction x as [|m x IH]; intros [|n y]; simpl;
    try (split; [discriminate | discriminate]); try tauto.
  rewrite andb_true_iff, N.eqb_eq, IH.
  split; [intros [-> ->]; reflexivity | intros H; inversion H; auto].
Qed.

Lemma string_eqb_refl (x : js_string) : string_eqb x x = true.
Proof. apply string_eqb_eq; reflexivity. Qed.

Lemma string_eqb_neq (x y : js_string) : string_eqb x y = false <-> x <> y.
Proof.
  rewrite <- string_eqb_eq. destruct (string_eqb x y); split; congruence.
Qed.

(** [string_lt] is the lexicographic order on code units: after a
    common prefix either the left string ends and the right goes on, or
    the left code unit is the smaller one. *)
Lemma string_lt_lexicographic (x y : js_string) :
  string_lt x y = true <->
  exists p,
    (exists n y', x = p /\ y = p ++ n :: y') \/
    (exists m x' n y', x = p ++ m :: x' /\ y = p ++ n :: y' /\ (m < n)%N).
Proof.
  revert y; induction x as [|m x IH]; intros [|n y]; simpl.
  - split; [discriminate|].
    intros [p [(n & y' & Hx & Hy)|(m & x' & n & y' & Hx & Hy & _)]];
      destruct p; discriminate.
  - split; [|reflexivity]. intros _. exists []. left. now exists n, y.
  - split; [discriminate|].
    intros [p [(n & y' & Hx & Hy)|(m0 & x' & n & y' & Hx & Hy & _)]];
      destruct p; discriminate.
  - destruct (N.eqb_spec m n) as [->|Hmn].
    + rewrite IH. split.
      * intros [p [(k & y' & Hx & Hy)|(a & x' & b & y' & Hx & Hy & Hab)]];
          subst; exists (n :: p); [left | right]; simpl; eauto 8.
      * intros [p [(k & y' & Hx & Hy)|(a & x' & b & y' & Hx & Hy & Hab)]].
        -- destruct p as [|c p]; [discriminate|]. simpl in *.
           inversion Hy; subst. inversion Hx; subst.
           exists p. left. eauto.
        -- destruct p as [|c p]; simpl in *.
           ++ inversion Hx; inversion Hy; subst. lia.
           ++ inversion Hx; inversion Hy; subst.
              exists p. right. eauto 8.
    + rewrite N.ltb_lt. split.
      * intros Hlt. exists []. right. simpl. eauto 8.
      * intros [p [(k & y' & Hx & Hy)|(a & x' & b & y' & Hx & Hy & Hab)]].
        -- destruct p as [|c p]; [discriminate|]. simpl in *.
           inversion Hy; subst. inversion Hx; subst. contradiction.
        -- destruct p as [|c p]; simpl in *.
           ++ inversion Hx; inversion Hy; subst. exact Hab.
           ++ inversion Hx; inversion Hy; subst. contradiction.
Qed.

Lemma string_lt_irrefl (x : js_string) : string_lt x x = false.
Proof.
  induction x as [|m x IH]; simpl; [reflexivity|].
  now rewrite N.eqb_refl.
Qed.

Lemma string_lt_asym (x y : js_string) :
  string_lt x y = true -> string_lt y x = false.
Proof.
  revert y; induction x as [|m x IH]; intros [|n y]; simpl; try congruence.
  rewrite (N.eqb_sym n m).
  destruct (N.eqb_spec m n) as [->|Hmn]; [apply IH|].
  rewrite N.ltb_lt, N.ltb_ge. lia.
Qed.

Lemma string_lt_connex (x y : js_string) :
  x <> y -> string_lt x y = true \/ string_lt y x = true.
Proof.
  revert y; induction x as [|m x IH]; intros [|n y] Hxy; simpl; auto.
  rewrite (N.eqb_sym n m).
  destruct (N.eqb_spec m n) as [->|Hmn].
  - apply IH; congruence.
  - rewrite !N.ltb_lt. lia.
Qed.

(** Of two different strings exactly one is smaller than the other. *)
Lemma string_lt_flip (x y : js_string) :
  x <> y -> string_lt y x = negb (string_lt x y).
Proof.
  intros Hxy.
  destruct (string_lt x y) eqn:E; simpl.
  - now apply string_lt_asym.
  - destruct (string_lt_connex Hxy) as [H|H]; congruence.
Qed.

Lemma string_lt_trans (x y z : js_string) :
  string_lt x y = true -> string_lt y z = true -> string_lt x z = true.
Proof.
  revert y z; induction x as [|m x IH]; intros [|n y] [|k z]; simpl;
    try congruence.
  destruct (N.eqb_spec m n) as [->|Hmn].
  - destruct (N.eqb_spec n k) as [->|Hnk]; [apply IH | auto].
  - destruct (N.eqb_spec n k) as [->|Hnk].
    + intros H _. destruct (N.eqb_spec m k); [congruence | exact H].
    + rewrite !N.ltb_lt. intros H1 H2.
      destruct (N.eqb_spec m k) as [->|Hmk]; [lia|].
      rewrite N.ltb_lt. lia.
Qed.

Lemma template_a_b_inj_left (a b c : js_string) :
  template_a_b a b = template_a_b a c -> b = c.
Proof.
  unfold template_a_b. intros H.
  apply app_inv_head in H. now apply app_inv_head in H.
Qed.

Lemma includes_In (xs : list js_string) (s : js_string) :
  includes xs s = true <-> In s xs.
Proof.
  unfold includes. rewrite existsb_exists. split.
  - intros [x [Hin Heq]]. apply string_eqb_eq in Heq. now subst.
  - intros Hin. exists s. split; [assumption | apply string_eqb_refl].
Qed.

Lemma without_In (xs : list js_string) (s t : js_string) :
  In t (without xs s) <-> In t xs /\ t <> s.
Proof.
  unfold without. rewrite filter_In, negb_true_iff, string_eqb_neq. tauto.
Qed.

End JSFacts.

Import JSFacts.

(* ================================================================= *)
(** * The offer/answer roles and the shared connection document *)

Module SignalingRole.

Import GroupVideoCall Samples.

Lemma shouldCreateOffer_flip (a b : js_string) :
  a <> b -> shouldCreateOffer b a = negb (shouldCreateOffer a b).
Proof. apply string_lt_flip. Qed.

(** The two sides of a pair compute the same identifier, whoever is
    "current". *)
Lemma connectionId_sym (a b : js_string) : connectionId a b = connectionId b a.
Proof.
  destruct (list_eq_dec N.eq_dec a b) as [->|Hab]; [reflexivity|].
  unfold connectionId. rewrite (shouldCreateOffer_flip Hab).
  now destruct (shouldCreateOffer a b).
Qed.

Lemma setupPeerConnection_inv env a b callDocId s ps :
  setupPeerConnection env a b callDocId s = Some ps ->
  offerRole ps = shouldCreateOffer a b /\
  connectionRef ps = docIn (callConnectionsRef callDocId) (connectionId a b) /\
  candidatesQuery ps = candidatesOf callDocId (connectionId a b) /\
  iceCandidatesRef ps = candidatesOf callDocId (connectionId a b) /\
  (shouldCreateOffer a b = false -> signaling ps = s).
Proof.
  unfold setupPeerConnection, connectionId, shouldCreateOffer.
  destruct (userDocExists env); simpl; [|discriminate].
  destruct (string_lt a b).
  - destruct (sendOffer env a b callDocId s); [|discriminate].
    intros [= <-]; simpl. repeat split; discriminate.
  - intros [= <-]; simpl. repeat split; reflexivity.
Qed.

Lemma sendOffer_stores env a b callDocId s o :
  createOffer env = Some o ->
  nonempty (sd_type o) = true -> nonempty (sd_sdp o) = true ->
  setLocalDescription_ok env = true ->
  setDocOffer_ok env = true ->
  sendOffer env a b callDocId s =
  Some (setDoc_connection (docIn (callConnectionsRef callDocId) (template_a_b a b))
          {| offer := Some o; answer := None;
             offerer := Some a; receiver := Some b |} s).
Proof.
  intros Hc Ht Hs Hl Hw. unfold sendOffer. now rewrite Hc, Hs, Ht, Hl, Hw.
Qed.

(** ** The connection listener *)

Lemma segment_eqb_refl (x : segment) : segment_eqb x x = true.
Proof.
  destruct x; simpl;
    [apply String.eqb_refl | apply N.eqb_refl | apply string_eqb_refl].
Qed.

Lemma path_eqb_refl (p : path) : path_eqb p p = true.
Proof.
  induction p as [|x p IH]; [reflexivity|].
  simpl. now rewrite segment_eqb_refl, IH.
Qed.

Lemma snapshotOf_setDoc ref d s :
  snapshotOf ref (setDoc_connection ref d s) = Some d.
Proof. unfold snapshotOf, setDoc_connection; simpl. now rewrite path_eqb_refl. Qed.

Lemma snapshotOf_update ref f s d :
  snapshotOf ref s = Some d ->
  snapshotOf ref (updateDoc_connection ref f s) = Some (f d).
Proof.
  unfold snapshotOf, updateDoc_connection; simpl.
  induction (connections s) as [|[q e] l IH]; simpl; [discriminate|].
  destruct (path_eqb q ref) eqn:E; simpl; rewrite E.
  - now intros [= ->].
  - exact IH.
Qed.

(** With everything resolving, the listener of the side without the
    role answers an offer it is shown. *)
Lemma listener_answers env ref data o ans s :
  offer data = Some o -> nonempty (sd_sdp o) = true ->
  listener_setRemoteDescription_ok env = true ->
  listener_createAnswer env = Some ans ->
  nonempty (sd_type ans) = true -> nonempty (sd_sdp ans) = true ->
  listener_setLocalDescription_ok env = true ->
  listener_updateDoc_ok env = true ->
  connectionListener env false ref (Some data) false s
  = ([SetRemoteDescription o; CreateAnswer; SetLocalDescription ans],
     updateDoc_connection ref (answeredWith ans) s).
Proof.
  intros Ho Hsdp Hr Hc Ht Hs Hl Hw.
  unfold connectionListener, onConnectionSnapshot.
  rewrite Ho; simpl. now rewrite Hsdp, Hr, Hc, Hs, Ht, Hl, Hw.
Qed.

(** The listener of the side with the role hands an answer it is shown
    to the connection, once that reports a local description. *)
Lemma listener_accepts env ref data ans s :
  answer data = Some ans -> nonempty (sd_sdp ans) = true ->
  connectionListener env true ref (Some data) true s
  = ([SetRemoteDescription ans], s).
Proof.
  intros Ha Hsdp. unfold connectionListener, onConnectionSnapshot.
  rewrite Ha. destruct (offer data); simpl; now rewrite Hsdp.
Qed.

Ltac silent := split; [reflexivity | split; [reflexivity | intros ? []]].
Ltac offerOnly data :=
  let Hd := fresh "Hd" in
  intros ? Hd; simpl in Hd;
  repeat (destruct Hd as [Hd|Hd]; [try discriminate Hd|]);
  first [contradiction | injection Hd as <-; now exists data].

(** The side without the role never writes an offer and never takes
    an answer for remote description: whatever happens, the documents
    keep their places and their offers, and a description it sets as
    remote is the offer it was shown. *)
Lemma listener_without_role env ref snapshot cld s :
  let (calls, s') := connectionListener env false ref snapshot cld s in
  map (fun e => (fst e, offer (snd e))) (connections s')
  = map (fun e => (fst e, offer (snd e))) (connections s) /\
  candidates s' = candidates s /\
  (forall d, In (SetRemoteDescription d) calls ->
             exists data, snapshot = Some data /\ offer data = Some d /\
                          cld = false).
Proof.
  assert (Hkeep : forall a,
            map (fun e => (fst e, offer (snd e)))
                (connections (updateDoc_connection ref (answeredWith a) s))
            = map (fun e => (fst e, offer (snd e))) (connections s)).
  { intros a. unfold updateDoc_connection; cbn [connections].
    rewrite map_map. apply map_ext. intros [q e]. cbn [fst snd].
    now destruct (path_eqb q ref). }
  unfold connectionListener.
  destruct snapshot as [data|]; [|silent].
  unfold onConnectionSnapshot.
  destruct (offer data) as [o|] eqn:Ho; simpl;
    [|destruct (answer data); silent].
  destruct cld; simpl; [destruct (answer data); silent|].
  destruct (nonempty (sd_sdp o)); simpl; [|silent].
  destruct (listener_setRemoteDescription_ok env); simpl;
    [|split; [reflexivity | split; [reflexivity | offerOnly data]]].
  destruct (listener_createAnswer env) as [ans|]; simpl;
    [|split; [reflexivity | split; [reflexivity | offerOnly data]]].
  destruct (nonempty (sd_sdp ans)); simpl;
    [|split; [reflexivity | split; [reflexivity | offerOnly data]]].
  destruct (listener_setLocalDescription_ok env); simpl;
    [|split; [reflexivity | split; [reflexivity | offerOnly data]]].
  destruct (nonempty (sd_type ans)); simpl;
    [|split; [reflexivity | split; [reflexivity | offerOnly data]]].
  destruct (listener_updateDoc_ok env);
    (split; [first [apply Hkeep | reflexivity]
            | split; [reflexivity | offerOnly data]]).
Qed.

(** The side with the role never answers: it leaves the store as it
    is, and the only call it makes is to set the answer it was shown
    as remote description. *)
Lemma listener_with_role env ref snapshot cld s :
  snd (connectionListener env true ref snapshot cld s) = s /\
  (forall c, In c (fst (connectionListener env true ref snapshot cld s)) ->
             exists data ans,
               snapshot = Some data /\ answer data = Some ans /\
               cld = true /\ c = SetRemoteDescription ans).
Proof.
  unfold connectionListener.
  destruct snapshot as [data|]; [|split; [reflexivity | intros c []]].
  unfold onConnectionSnapshot.
  destruct (offer data) as [o|], (answer data) as [ans|] eqn:Ha, cld; simpl;
    try (split; [reflexivity | intros c []]);
    (destruct (nonempty (sd_sdp ans)); simpl;
     [|split; [reflexivity | intros c []]]);
    (split; [reflexivity|]); intros c [<-|[]];
    exists data, ans; now repeat split.
Qed.

(** ** C1 *)

(** C1.  For two distinct participant identifiers the offer role is
    the plain string comparison [currentUserId < participantId]:
    exactly one side of the pair has it.  The side that has it is the
    one whose [setupPeerConnection] stores the offer (under its own
    identifier first); the other side leaves the store as it is,
    whatever [createOffer] would give.  The other side only answers:
    shown the offer, with every step resolving, its connection listener
    sets the offer as remote description, creates the answer, sets it
    as local description and writes it into the connection document;
    it never writes or changes an offer, and it never does anything
    but this.  The side with the role never answers: its listener
    leaves the store alone and only sets an answer it is shown as
    remote description.  So the offer the smaller identifier stores is
    answered by the other side in the same document, and that answer
    comes back to the side that offered.  After a failed or
    disconnected connection [restartIce] is called exactly by the side
    with the role. *)
Theorem offer_role_by_string_comparison (a b : js_string) :
  a <> b ->
  shouldCreateOffer a b = string_lt a b /\
  shouldCreateOffer b a = negb (shouldCreateOffer a b) /\
  (forall env callDocId s ps,
      setupPeerConnection env a b callDocId s = Some ps ->
      offerRole ps = shouldCreateOffer a b /\
      (shouldCreateOffer a b = false -> signaling ps = s)) /\
  (forall env callDocId s o,
      shouldCreateOffer a b = true ->
      userDocExists env = true -> createOffer env = Some o ->
      nonempty (sd_type o) = true -> nonempty (sd_sdp o) = true ->
      setLocalDescription_ok env = true -> setDocOffer_ok env = true ->
      exists ps,
        setupPeerConnection env a b callDocId s = Some ps /\
        In (docIn (callConnectionsRef callDocId) (template_a_b a b),
            {| offer := Some o; answer := None;
               offerer := Some a; receiver := Some b |})
           (connections (signaling ps))) /\
  (forall data cld,
      onConnectionSnapshot (shouldCreateOffer a b) data cld = AnswerTheOffer ->
      shouldCreateOffer a b = false /\ shouldCreateOffer b a = true) /\
  (forall data cld,
      onConnectionSnapshot (shouldCreateOffer a b) data cld = AcceptTheAnswer ->
      shouldCreateOffer a b = true /\ shouldCreateOffer b a = false) /\
  (forall st,
      onconnectionstatechange a b st = RestartIce <->
      shouldCreateOffer a b = true /\ (st = StFailed \/ st = StDisconnected)) /\
  (* the side without the role answers the offer it is shown *)
  (forall env ref data o ans s,
      shouldCreateOffer a b = false ->
      offer data = Some o -> nonempty (sd_sdp o) = true ->
      listener_setRemoteDescription_ok env = true ->
      listener_createAnswer env = Some ans ->
      nonempty (sd_type ans) = true -> nonempty (sd_sdp ans) = true ->
      listener_setLocalDescription_ok env = true ->
      listener_updateDoc_ok env = true ->
      onConnectionSnapshot (shouldCreateOffer a b) data false = AnswerTheOffer /\
      connectionListener env (shouldCreateOffer a b) ref (Some data) false s
      = ([SetRemoteDescription o; CreateAnswer; SetLocalDescription ans],
         updateDoc_connection ref (answeredWith ans) s)) /\
  (* and does nothing else: no offer of its own, no answer taken *)
  (forall env env' callDocId s,
      shouldCreateOffer a b = false ->
      userDocExists env' = userDocExists env ->
      setupPeerConnection env' a b callDocId s
      = setupPeerConnection env a b callDocId s) /\
  (forall env ref snapshot cld s calls s',
      shouldCreateOffer a b = false ->
      connectionListener env (shouldCreateOffer a b) ref snapshot cld s
      = (calls, s') ->
      map (fun e => (fst e, offer (snd e))) (connections s')
      = map (fun e => (fst e, offer (snd e))) (connections s) /\
      candidates s' = candidates s /\
      (forall d, In (SetRemoteDescription d) calls ->
                 exists data, snapshot = Some data /\ offer data = Some d /\
                              cld = false)) /\
  (* the side with the role never answers *)
  (forall env ref snapshot cld s,
      shouldCreateOffer a b = true ->
      snd (connectionListener env (shouldCreateOffer a b) ref snapshot cld s) = s /\
      (forall c,
          In c (fst (connectionListener env (shouldCreateOffer a b) ref
                       snapshot cld s)) ->
          exists data ans,
            snapshot = Some data /\ answer data = Some ans /\
            cld = true /\ c = SetRemoteDescription ans)) /\
  (* offer, answer and the answer's way back, for the pair *)
  (forall enva envb envc callDocId s o ans,
      shouldCreateOffer a b = true ->
      userDocExists enva = true -> createOffer enva = Some o ->
      nonempty (sd_type o) = true -> nonempty (sd_sdp o) = true ->
      setLocalDescription_ok enva = true -> setDocOffer_ok enva = true ->
      listener_setRemoteDescription_ok envb = true ->
      listener_createAnswer envb = Some ans ->
      nonempty (sd_type ans) = true -> nonempty (sd_sdp ans) = true ->
      listener_setLocalDescription_ok envb = true ->
      listener_updateDoc_ok envb = true ->
      exists pa answered,
        setupPeerConnection enva a b callDocId s = Some pa /\
        snapshotOf (connectionRef pa) (signaling pa)
        = Some {| offer := Some o; answer := None;
                  offerer := Some a; receiver := Some b |} /\
        (forall env pb,
            setupPeerConnection env b a callDocId (signaling pa) = Some pb ->
            offerRole pb = false /\ connectionRef pb = connectionRef pa /\
            signaling pb = signaling pa) /\
        connectionListener envb (shouldCreateOffer b a) (connectionRef pa)
          (snapshotOf (connectionRef pa) (signaling pa)) false (signaling pa)
        = ([SetRemoteDescription o; CreateAnswer; SetLocalDescription ans],
           answered) /\
        snapshotOf (connectionRef pa) answered
        = Some {| offer := Some o; answer := Some ans;
                  offerer := Some a; receiver := Some b |} /\
        connectionListener envc (shouldCreateOffer a b) (connectionRef pa)
          (snapshotOf (connectionRef pa) answered) true answered
        = ([SetRemoteDescription ans], answered)).
Proof.
  intros Hab. pose proof (shouldCreateOffer_flip Hab) as Hflip.
  split; [reflexivity|]. split; [exact Hflip|].
  split; [|split; [|split; [|split; [|split; [|split; [|split;
    [|split; [|split]]]]]]]].
  - intros env callDocId s ps H.
    destruct (setupPeerConnection_inv _ _ _ _ _ H) as (H1 & _ & _ & _ & H5).
    now split.
  - intros env callDocId s o Hrole Hu Hc Ht Hs Hl Hw.
    unfold setupPeerConnection. unfold shouldCreateOffer in Hrole.
    rewrite Hu, Hrole; simpl.
    rewrite (sendOffer_stores _ _ _ _ _ Hc Ht Hs Hl Hw).
    eexists; split; [reflexivity|]. simpl. now left.
  - intros data cld. rewrite Hflip.
    unfold onConnectionSnapshot.
    destruct (shouldCreateOffer a b), (offer data), (answer data), cld;
      simpl; intros H; try discriminate; now split.
  - intros data cld. rewrite Hflip.
    unfold onConnectionSnapshot.
    destruct (shouldCreateOffer a b), (offer data), (answer data), cld;
      simpl; intros H; try discriminate; now split.
  - intros st. unfold onconnectionstatechange, shouldCreateOffer.
    destruct st, (string_lt a b); simpl; split;
      try discriminate; try tauto;
      intros [H1 [H2|H2]]; discriminate.
  - intros env ref data o ans s Hrole Ho Hsdp Hr Hc Ht Hs Hl Hw.
    rewrite Hrole. split.
    + unfold onConnectionSnapshot. now rewrite Ho.
    + now apply listener_answers.
  - intros env env' callDocId s Hrole Hu.
    unfold setupPeerConnection. unfold shouldCreateOffer in Hrole.
    now rewrite Hu, Hrole.
  - intros env ref snapshot cld s calls s' Hrole Hrun. rewrite Hrole in Hrun.
    pose proof (listener_without_role env ref snapshot cld s) as H.
    now rewrite Hrun in H.
  - intros env ref snapshot cld s Hrole. rewrite Hrole.
    apply listener_with_role.
  - intros enva envb envc callDocId s o ans Hrole Hu Hc Ht Hs Hl Hw
      Hr' Hc' Ht' Hs' Hl' Hw'.
    assert (Hba : shouldCreateOffer b a = false) by now rewrite Hflip, Hrole.
    set (ref := docIn (callConnectionsRef callDocId) (template_a_b a b)).
    set (offered := {| offer := Some o; answer := None;
                       offerer := Some a; receiver := Some b |}).
    assert (Hsetup : setupPeerConnection enva a b callDocId s
                     = Some {| offerRole := true;
                               iceCandidatesRef :=
                                 candidatesOf callDocId (template_a_b a b);
                               connectionRef := ref;
                               candidatesQuery :=
                                 candidatesOf callDocId (template_a_b a b);
                               signaling := setDoc_connection ref offered s |}).
    { unfold setupPeerConnection. unfold shouldCreateOffer in Hrole.
      rewrite Hu, Hrole; simpl.
      now rewrite (sendOffer_stores _ _ _ _ _ Hc Ht Hs Hl Hw). }
    eexists. exists (updateDoc_connection ref (answeredWith ans)
                       (setDoc_connection ref offered s)).
    split; [exact Hsetup|]. cbn [connectionRef signaling].
    rewrite snapshotOf_setDoc.
    split; [reflexivity|]. split; [|split; [|split]].
    + intros env pb Hpb.
      destruct (setupPeerConnection_inv _ _ _ _ _ Hpb) as (B1 & B2 & _ & _ & B5).
      split; [now rewrite B1|]. split; [|now apply B5].
      rewrite B2, <- connectionId_sym. subst ref.
      unfold connectionId. now rewrite Hrole.
    + rewrite Hba. now apply listener_answers.
    + now rewrite (snapshotOf_update _ _ _ (snapshotOf_setDoc ref offered s)).
    + rewrite (snapshotOf_update _ _ _ (snapshotOf_setDoc ref offered s)), Hrole.
      now apply listener_accepts.
Qed.

Lemma offer_role_by_string_comparison_witness :
  alice <> bob /\
  shouldCreateOffer alice bob = true /\ shouldCreateOffer bob alice = false /\
  exists pa answered,
    setupPeerConnection setupWorks alice bob 7%N noSignalingYet = Some pa /\
    connectionListener listenerWorks (shouldCreateOffer bob alice)
      (connectionRef pa) (snapshotOf (connectionRef pa) (signaling pa)) false
      (signaling pa)
    = ([SetRemoteDescription someOffer; CreateAnswer;
        SetLocalDescription someAnswerSDP], answered) /\
    connections answered
    = [([Name "groupCalls"; Auto 7%N; Name "connections";
         Key (of_string "alice_bob")],
        {| offer := Some someOffer; answer := Some someAnswerSDP;
           offerer := Some alice; receiver := Some bob |})] /\
    connectionListener listenerWorks (shouldCreateOffer alice bob)
      (connectionRef pa) (snapshotOf (connectionRef pa) answered) true answered
    = ([SetRemoteDescription someAnswerSDP], answered).
Proof.
  assert (H : alice <> bob) by discriminate.
  split; [exact H|].
  destruct (offer_role_by_string_comparison H)
    as (H1 & H2 & _ & _ & _ & _ & _ & _ & _ & _ & _ & Hpair).
  assert (Hrole : shouldCreateOffer alice bob = true) by (rewrite H1; reflexivity).
  split; [exact Hrole|]. split; [rewrite H2, Hrole; reflexivity|].
  destruct (Hpair setupWorks listenerWorks listenerWorks 7%N noSignalingYet
              someOffer someAnswerSDP Hrole
              eq_refl eq_refl eq_refl eq_refl eq_refl eq_refl
              eq_refl eq_refl eq_refl eq_refl eq_refl eq_refl)
    as (pa & answered & Hsetup & _ & _ & Hanswer & _ & Hback).
  exists pa, answered.
  split; [exact Hsetup|]. split; [exact Hanswer|]. split; [|exact Hback].
  assert (Hpa : setupPeerConnection setupWorks alice bob 7%N noSignalingYet
                = Some pa) by exact Hsetup.
  vm_compute in Hpa. injection Hpa as <-.
  assert (Hans : connectionListener listenerWorks (shouldCreateOffer bob alice)
                   [Name "groupCalls"; Auto 7%N; Name "connections";
                    Key (of_string "alice_bob")]
                   (snapshotOf
                      [Name "groupCalls"; Auto 7%N; Name "connections";
                       Key (of_string "alice_bob")]
                      (setDoc_connection
                         [Name "groupCalls"; Auto 7%N; Name "connections";
                          Key (of_string "alice_bob")]
                         {| offer := Some someOffer; answer := None;
                            offerer := Some alice; receiver := Some bob |}
                         noSignalingYet))
                   false
                   (setDoc_connection
                      [Name "groupCalls"; Auto 7%N; Name "connections";
                       Key (of_string "alice_bob")]
                      {| offer := Some someOffer; answer := None;
                         offerer := Some alice; receiver := Some bob |}
                      noSignalingYet)
                 = ([SetRemoteDescription someOffer; CreateAnswer;
                     SetLocalDescription someAnswerSDP], answered)).
  { exact Hanswer. }
  vm_compute in Hans. injection Hans as <-. reflexivity.
Defined.

(** ** C3 *)

(** C3.  For two distinct identifiers [a] and [b] in one call, with
    the offerer the smaller of the two: both sides compute
    [offererId + "_" + answererId] as connection identifier; the
    listeners either side installs watch the same connection document
    and the same [candidates] collection, each side's local candidates
    are written to that collection, and the offer is stored in that
    document. *)
Theorem connection_document_agreed (a b : js_string) (callDocId : DocId) :
  a <> b ->
  let offererId := if string_lt a b then a else b in
  let answererId := if string_lt a b then b else a in
  let shared := template_a_b offererId answererId in
  string_lt offererId answererId = true /\
  connectionId a b = shared /\
  connectionId b a = shared /\
  (forall enva envb sa sb pa pb,
      setupPeerConnection enva a b callDocId sa = Some pa ->
      setupPeerConnection envb b a callDocId sb = Some pb ->
      connectionRef pa = docIn (callConnectionsRef callDocId) shared /\
      connectionRef pb = connectionRef pa /\
      candidatesQuery pa = candidatesOf callDocId shared /\
      candidatesQuery pb = candidatesQuery pa /\
      iceCandidatesRef pa = candidatesQuery pb /\
      iceCandidatesRef pb = candidatesQuery pa) /\
  (forall c s,
      candidates (onicecandidate a b callDocId (Some c) s) =
      candidates s ++
      [(candidatesOf callDocId shared,
        {| sender := VString a; sdpMLineIndex := ice_sdpMLineIndex c;
           candidate := ice_candidate c; sdpMid := ice_sdpMid c |})]) /\
  (forall env s o,
      userDocExists env = true -> createOffer env = Some o ->
      nonempty (sd_type o) = true -> nonempty (sd_sdp o) = true ->
      setLocalDescription_ok env = true -> setDocOffer_ok env = true ->
      exists ps,
        setupPeerConnection env offererId answererId callDocId s = Some ps /\
        offerRole ps = true /\
        In (connectionRef ps,
            {| offer := Some o; answer := None;
               offerer := Some offererId; receiver := Some answererId |})
           (connections (signaling ps))).
Proof.
  intros Hab offererId answererId shared.
  assert (Hlt : string_lt offererId answererId = true).
  { subst offererId answererId. destruct (string_lt a b) eqn:E; [exact E|].
    destruct (string_lt_connex Hab); congruence. }
  assert (Hid : connectionId a b = shared).
  { subst shared offererId answererId. unfold connectionId, shouldCreateOffer.
    now destruct (string_lt a b). }
  assert (Hid' : connectionId b a = shared) by now rewrite <- connectionId_sym.
  split; [exact Hlt|]. split; [exact Hid|]. split; [exact Hid'|].
  split; [|split].
  - intros enva envb sa sb pa pb Ha Hb.
    destruct (setupPeerConnection_inv _ _ _ _ _ Ha) as (_ & A2 & A3 & A4 & _).
    destruct (setupPeerConnection_inv _ _ _ _ _ Hb) as (_ & B2 & B3 & B4 & _).
    rewrite A2, A3, A4, B2, B3, B4, Hid, Hid'. repeat split.
  - intros c s. unfold onicecandidate; simpl.
    fold (shouldCreateOffer a b).
    change (if shouldCreateOffer a b then template_a_b a b else template_a_b b a)
      with (connectionId a b).
    now rewrite Hid.
  - intros env s o Hu Hc Ht Hs Hl Hw.
    unfold setupPeerConnection. rewrite Hu, Hlt; simpl.
    rewrite (sendOffer_stores _ _ _ _ _ Hc Ht Hs Hl Hw).
    eexists; split; [reflexivity|]. simpl. split; [reflexivity|]. now left.
Qed.

Lemma connection_document_agreed_witness :
  alice <> bob /\
  connectionId alice bob = of_string "alice_bob" /\
  connectionId bob alice = of_string "alice_bob".
Proof.
  assert (H : alice <> bob) by discriminate.
  split; [exact H|].
  destruct (connection_document_agreed 7%N H) as (_ & H1 & H2 & _).
  split; [rewrite H1 | rewrite H2]; reflexivity.
Defined.

(** ** C9 *)

(** C9.  The copy of the group call in [PhilosophicalQuote.tsx] and
    the one in [GroupVideoCall.tsx] decide the signaling role alike:
    for every pair of identifiers they compute the same
    [shouldCreateOffer], the same connection identifier, and from
    them the same document for the offer, the same connection
    document and the same [candidates] collection. *)
Theorem copies_agree_on_signaling_role
    (currentUserId participantId : js_string) (callDocId : DocId) :
  PhilosophicalQuote.shouldCreateOffer currentUserId participantId =
  GroupVideoCall.shouldCreateOffer currentUserId participantId /\
  PhilosophicalQuote.connectionId currentUserId participantId =
  GroupVideoCall.connectionId currentUserId participantId /\
  PhilosophicalQuote.offerRef currentUserId participantId callDocId =
  docIn (callConnectionsRef callDocId)
    (template_a_b currentUserId participantId) /\
  PhilosophicalQuote.connectionRef currentUserId participantId callDocId =
  docIn (callConnectionsRef callDocId)
    (GroupVideoCall.connectionId currentUserId participantId) /\
  PhilosophicalQuote.candidatesQuery currentUserId participantId callDocId =
  candidatesOf callDocId
    (GroupVideoCall.connectionId currentUserId participantId) /\
  PhilosophicalQuote.candidatesRef currentUserId participantId callDocId =
  candidatesOf callDocId
    (GroupVideoCall.connectionId currentUserId participantId).
Proof. repeat split. Qed.

End SignalingRole.

(* ================================================================= *)
(** * The listener for remote ICE candidates *)

Module CandidateListener.

Import GroupVideoCall Samples.

Section Listener.

Variable engine : RTCIceCandidate -> bool.
Variable currentUserId : js_string.

Lemma incomplete_false (data : CandidateData) :
  incomplete data = false <->
  truthy (sdpMLineIndex data) = true /\
  truthy (candidate data) = true /\
  truthy (sdpMid data) = true.
Proof.
  unfold incomplete.
  destruct (truthy (sdpMLineIndex data)), (truthy (candidate data)),
    (truthy (sdpMid data)); simpl; intuition congruence.
Qed.

(** The timeout callback never schedules anything. *)
Lemma onRetryTimeout_schedules_nothing (t : Timer) (pc : PeerConnection) :
  snd (onRetryTimeout engine t pc) = [].
Proof.
  unfold onRetryTimeout.
  destruct (remoteDescription pc); [|reflexivity].
  now destruct (addIceCandidate engine (retried t) pc).
Qed.

(** A change never schedules more than one timer, and always with the
    same delay. *)
Lemma onCandidateChange_timers type data pc :
  snd (onCandidateChange engine currentUserId type data pc) = [] \/
  snd (onCandidateChange engine currentUserId type data pc) =
    [{| delay := 2000; retried := candidateOf data |}].
Proof.
  unfold onCandidateChange.
  destruct type; auto.
  destruct (strict_neq_string (sender data) currentUserId); auto.
  destruct (incomplete data); auto.
  destruct (remoteDescription pc); auto.
  destruct (addIceCandidate _ _ pc); auto.
Qed.

(** ** C5 *)

(** C5.  The guard of the listener looks at the truthiness of
    [data.sdpMLineIndex], [data.candidate] and [data.sdpMid]; a record
    whose [sdpMLineIndex] is the number 0 is therefore taken for
    incomplete whatever its other fields are, and the callback returns
    with the connection as it was and nothing scheduled. *)
Theorem index_zero_candidate_dropped
    (type : changeType) (data : CandidateData) (pc : PeerConnection) :
  sdpMLineIndex data = VNumber 0 ->
  incomplete data =
    negb (truthy (sdpMLineIndex data)) || negb (truthy (candidate data))
    || negb (truthy (sdpMid data)) /\
  incomplete data = true /\
  onCandidateChange engine currentUserId type data pc = (pc, []).
Proof.
  intros H0. split; [reflexivity|].
  assert (Hinc : incomplete data = true).
  { unfold incomplete. now rewrite H0. }
  split; [exact Hinc|].
  unfold onCandidateChange. rewrite Hinc.
  destruct type; try reflexivity.
  now destruct (strict_neq_string (sender data) currentUserId).
Qed.

(** ** C2, as the code has it *)

(** C2 (amended).  When an added record of another sender passes the
    completeness guard while the connection has no remote description,
    the candidate is not added and exactly one timer is scheduled, 2000
    milliseconds ahead, for that candidate.  When the timer fires and
    the remote description is still absent the connection stays as it
    is; whatever the state of the connection then, the callback
    schedules nothing further. *)
Theorem single_retry_after_2000ms (data : CandidateData) (pc : PeerConnection) :
  strict_neq_string (sender data) currentUserId = true ->
  incomplete data = false ->
  remoteDescription pc = None ->
  let retry := {| delay := 2000; retried := candidateOf data |} in
  onCandidateChange engine currentUserId Added data pc = (pc, [retry]) /\
  (forall pc', remoteDescription pc' = None ->
               onRetryTimeout engine retry pc' = (pc', [])) /\
  (forall pc', snd (onRetryTimeout engine retry pc') = []).
Proof.
  intros Hs Hi Hr retry. split; [|split].
  - unfold onCandidateChange. now rewrite Hs, Hi, Hr.
  - intros pc' Hr'. unfold onRetryTimeout. now rewrite Hr'.
  - intros pc'. apply onRetryTimeout_schedules_nothing.
Qed.

(** When the remote description has arrived in the meantime, the retry
    hands the candidate to the engine. *)
Lemma retry_adds_when_described (t : Timer) (pc : PeerConnection) d :
  remoteDescription pc = Some d -> engine (retried t) = true ->
  onRetryTimeout engine t pc =
    ({| remoteDescription := Some d;
        remoteCandidates := remoteCandidates pc ++ [retried t] |}, []).
Proof.
  intros Hd He. unfold onRetryTimeout, addIceCandidate. now rewrite Hd, He.
Qed.

End Listener.

Lemma index_zero_candidate_dropped_witness :
  sdpMLineIndex firstLineCandidate = VNumber 0 /\
  truthy (candidate firstLineCandidate) = true /\
  truthy (sdpMid firstLineCandidate) = true /\
  onCandidateChange (fun _ => true) alice Added firstLineCandidate freshConnection
  = (freshConnection, []).
Proof.
  split; [reflexivity|]. split; [reflexivity|]. split; [reflexivity|].
  apply (index_zero_candidate_dropped (fun _ => true) alice Added
           firstLineCandidate freshConnection).
  reflexivity.
Defined.

Lemma single_retry_after_2000ms_witness :
  strict_neq_string (sender secondLineCandidate) alice = true /\
  incomplete secondLineCandidate = false /\
  remoteDescription freshConnection = None /\
  onCandidateChange (fun _ => true) alice Added secondLineCandidate freshConnection
  = (freshConnection,
     [{| delay := 2000; retried := candidateOf secondLineCandidate |}]).
Proof.
  split; [reflexivity|]. split; [reflexivity|]. split; [reflexivity|].
  apply (single_retry_after_2000ms (fun _ => true) alice
           secondLineCandidate freshConnection); reflexivity.
Defined.

(** C2, as stated, fails.  Bob's candidate for the second media line
    that carries no [sdpMid] is a remote candidate, and it arrives
    while there is no remote description; the guard turns it away, so
    it is not added and no retry is scheduled at all. *)
Lemma untagged_candidate_gets_no_retry :
  strict_neq_string (sender untaggedCandidate) alice = true /\
  remoteDescription freshConnection = None /\
  onCandidateChange (fun _ => true) alice Added untaggedCandidate freshConnection
  = (freshConnection, []) /\
  ~ (exists t,
        snd (onCandidateChange (fun _ => true) alice Added untaggedCandidate
               freshConnection) = [t]).
Proof.
  split; [reflexivity|]. split; [reflexivity|]. split; [reflexivity|].
  intros [t H]. discriminate H.
Qed.

End CandidateListener.

(* ================================================================= *)
(** * The caller's candidates in the one-to-one call *)

Module CallerCandidates.

Import VideoCall Samples.

(** A handler that knows the call document does publish. *)
Lemma onicecandidate_publishes (i : DocId) (c : IceCandidateJSON) (s : Store) :
  offerCandidates (onicecandidate (Some i) (Some c) s) =
  offerCandidates s ++ [(i, c)].
Proof. reflexivity. Qed.

(** A handler that closed over [null] does nothing. *)
Lemma onicecandidate_null (event : option IceCandidateJSON) (s : Store) :
  onicecandidate None event s = s.
Proof. now destruct event. Qed.

Lemma startCall_handler props env r s handler r' s' :
  startCall props env r s = Calling handler r' s' ->
  handler = onicecandidate (callDocId r) /\
  callDocId r' = Some (nextId s) /\
  (exists callData, calls s' = calls s ++ [(nextId s, callData)]) /\
  offerCandidates s' = offerCandidates s.
Proof.
  unfold startCall.
  destruct (getUserMedia_ok env); simpl; [|discriminate].
  destruct (createOffer env) as [o|]; [|discriminate].
  destruct (targetUserId props) as [t|]; [|discriminate].
  destruct (setDoc_ok env); [|discriminate].
  intros [= <- <- <-]; simpl. repeat split. eexists; reflexivity.
Qed.

(** C4.  [startCall], run from a render whose [callDocId] is still
    [null], installs an [onicecandidate] handler that closed over that
    [null]; the identifier of the new call document reaches the state
    only afterwards, once the offer is made and the document written.
    So every candidate event given to that handler, whenever it comes
    and whatever the store holds by then, leaves the store (and with it
    [offerCandidates]) unchanged.  With media, offer and store
    cooperating, [startCall] does install the handler. *)
Theorem startCall_never_publishes_candidates
    (props : VideoCallProps) (env : StartEnv) (r : Render) (s : Store) :
  callDocId r = None ->
  (forall handler r' s',
      startCall props env r s = Calling handler r' s' ->
      callDocId r' = Some (nextId s) /\
      offerCandidates s' = offerCandidates s /\
      forall (event : option IceCandidateJSON) (later : Store),
        handler event later = later /\
        offerCandidates (handler event later) = offerCandidates later) /\
  (getUserMedia_ok env = true -> setDoc_ok env = true ->
   createOffer env <> None -> targetUserId props <> None ->
   exists handler r' s', startCall props env r s = Calling handler r' s').
Proof.
  intros Hnull. split.
  - intros handler r' s' H.
    destruct (startCall_handler _ _ _ _ H) as (-> & Hid & _ & Hoc).
    rewrite Hnull. split; [exact Hid|]. split; [exact Hoc|].
    intros event later. now rewrite onicecandidate_null.
  - intros Hm Hw Ho Ht. unfold startCall. rewrite Hm, Hw; simpl.
    destruct (createOffer env); [|contradiction].
    destruct (targetUserId props); [|contradiction].
    do 3 eexists; reflexivity.
Qed.

(** The call Alice starts on mount: the state learns the new call
    document, the handler that was installed never publishes. *)
Lemma startCall_never_publishes_candidates_witness :
  callDocId mounted = None /\
  exists handler r' s',
    startOnMount aliceCallsBob allWorks emptyCalls = Some (Calling handler r' s') /\
    callDocId r' = Some 0%N /\
    forall later, offerCandidates (handler (Some hostIce) later) = offerCandidates later.
Proof.
  split; [reflexivity|].
  destruct (@startCall_never_publishes_candidates aliceCallsBob allWorks
              mounted emptyCalls eq_refl) as [Hall Hex].
  destruct Hex as (handler & r' & s' & Hstart);
    try reflexivity; try discriminate.
  exists handler, r', s'.
  destruct (Hall _ _ _ Hstart) as (Hid & _ & Hev).
  split; [unfold startOnMount; simpl; now rewrite <- Hstart|].
  split; [exact Hid|].
  intros later. apply (Hev (Some hostIce) later).
Defined.

End CallerCandidates.

(* ================================================================= *)
(** * Reasoning about the asynchronous functions *)

Module Triples.

Import GroupVideoCall CallRecord.

Lemma triple_ret {A} (a : A) (P : State -> Prop) Q E :
  (forall s, P s -> Q a s) -> triple P (ret a) Q E.
Proof. intros H s Hs. simpl. now apply H. Qed.

Lemma triple_bind {A B} (m : M A) (k : A -> M B) P Q R E :
  triple P m Q E -> (forall a, triple (Q a) (k a) R E) ->
  triple P (bind m k) R E.
Proof.
  intros Hm Hk s Hs. unfold bind. specialize (Hm s Hs).
  destruct (m s) as [a s'|s']; [now apply Hk | assumption].
Qed.

Lemma triple_try {A} (m h : M A) P Q E E' :
  triple P m Q E' -> triple E' h Q E -> triple P (try_catch m h) Q E.
Proof.
  intros Hm Hh s Hs. unfold try_catch. specialize (Hm s Hs).
  destruct (m s) as [a s'|s']; [assumption | now apply Hh].
Qed.

Lemma triple_weaken {A} (m : M A) (P P' : State -> Prop) Q Q' (E E' : State -> Prop) :
  triple P' m Q' E' ->
  (forall s, P s -> P' s) -> (forall a s, Q' a s -> Q a s) ->
  (forall s, E' s -> E s) ->
  triple P m Q E.
Proof.
  intros Hm HP HQ HE s Hs. specialize (Hm s (HP s Hs)).
  destruct (m s); auto.
Qed.

Lemma triple_throw {A} (P E : State -> Prop) (Q : A -> State -> Prop) :
  (forall s, P s -> E s) -> triple P (fun s => Throw s) Q E.
Proof. intros H s Hs. now apply H. Qed.

(** ** Runs that do not touch the collection *)

Lemma untouched_ret {A} (a : A) : untouched (ret a).
Proof. intros s. reflexivity. Qed.

Lemma untouched_bind {A B} (m : M A) (k : A -> M B) :
  untouched m -> (forall a, untouched (k a)) -> untouched (bind m k).
Proof.
  intros Hm Hk s. unfold bind. specialize (Hm s).
  destruct (m s) as [a s'|s']; simpl in *; [|assumption].
  now rewrite Hk.
Qed.

Lemma untouched_try {A} (m h : M A) :
  untouched m -> untouched h -> untouched (try_catch m h).
Proof.
  intros Hm Hh s. unfold try_catch. specialize (Hm s).
  destruct (m s) as [a s'|s']; simpl in *; [assumption|].
  now rewrite Hh.
Qed.

Lemma untouched_modify f : untouched (modify f).
Proof. intros s. reflexivity. Qed.

Lemma untouched_throw {A} : untouched (fun s => @Throw A s).
Proof. intros s. reflexivity. Qed.

Lemma groupCalls_setFaults l w : groupCalls (setFaults l w) = groupCalls w.
Proof. now destruct w. Qed.

Lemma groupCalls_setGroupMessages l w :
  groupCalls (setGroupMessages l w) = groupCalls w.
Proof. now destruct w. Qed.

Lemma groupCalls_setGroupCalls l w : groupCalls (setGroupCalls l w) = l.
Proof. now destruct w. Qed.

Lemma groupCalls_setNextId n w : groupCalls (setNextId n w) = groupCalls w.
Proof. now destruct w. Qed.

Lemma untouched_request : untouched request.
Proof.
  intros s. unfold request.
  destruct (faults (world s)) as [|[|] rest]; simpl;
    now rewrite ?groupCalls_setFaults.
Qed.

Lemma untouched_getWorld : untouched getWorld.
Proof. intros s. reflexivity. Qed.

Lemma untouched_serverTimestamp : untouched serverTimestamp.
Proof.
  apply untouched_bind; [apply untouched_getWorld | intros; apply untouched_ret].
Qed.

Lemma untouched_addDoc_groupMessages m : untouched (addDoc_groupMessages m).
Proof.
  apply untouched_bind; [apply untouched_request|]. intros _ s. simpl.
  apply groupCalls_setGroupMessages.
Qed.

Lemma untouched_getUserMedia video audio :
  untouched (mediaDevices_getUserMedia video audio).
Proof.
  apply untouched_bind; [apply untouched_getWorld|]. intros w.
  destruct (getUserMedia w video audio);
    [apply untouched_ret | apply untouched_throw].
Qed.

Lemma untouched_viewOnly : untouched viewOnly.
Proof.
  repeat (apply untouched_bind; [apply untouched_modify | intros _]).
  apply untouched_ret.
Qed.

Lemma untouched_acquireMedia : untouched acquireMedia.
Proof.
  unfold acquireMedia.
  repeat first
    [ apply untouched_try
    | apply untouched_viewOnly
    | apply untouched_getUserMedia
    | apply untouched_modify
    | apply untouched_ret
    | apply untouched_bind; [|intros ?] ].
Qed.

(** A run that does not touch the collection keeps whatever holds of
    the collection alone. *)
Lemma untouched_triple {A} (m : M A) (W : list (DocId * GroupCallData) -> Prop) :
  untouched m ->
  triple (fun s => W (groupCalls (world s))) m
         (fun _ s => W (groupCalls (world s)))
         (fun s => W (groupCalls (world s))).
Proof.
  intros Hm s Hs. specialize (Hm s).
  destruct (m s); simpl in Hm; now rewrite Hm.
Qed.

End Triples.

(* ================================================================= *)
(** * No participant is listed twice *)

Module DistinctParticipants.

Import GroupVideoCall CallRecord Triples Samples.

Lemma NoDup_without (ps : list js_string) (u : js_string) :
  NoDup ps -> NoDup (without ps u).
Proof. apply NoDup_filter. Qed.

Lemma NoDup_append_new (ps : list js_string) (u : js_string) :
  NoDup ps -> includes ps u = false -> NoDup (ps ++ [u]).
Proof.
  intros Hnd Hnew.
  assert (Hnot : ~ In u ps).
  { intros Hin. apply includes_In in Hin. congruence. }
  clear Hnew. induction Hnd as [|x ps Hx Hnd IH]; simpl.
  - constructor; [intros []| constructor].
  - constructor.
    + rewrite in_app_iff. simpl. intros [H|[H|[]]]; [contradiction|].
      subst. apply Hnot. now left.
    + apply IH. intros H. apply Hnot. now right.
Qed.

Lemma participants_withParticipants ps d :
  participantsOrEmpty (withParticipants ps d) = ps.
Proof. now destruct d. Qed.

Lemma participants_withEnded ps t d :
  participantsOrEmpty (withEnded ps t d) = ps.
Proof. now destruct d. Qed.

Lemma distinctIn_updateIn i f l :
  (forall d, NoDup (participantsOrEmpty (f d))) ->
  distinctIn l -> distinctIn (updateIn i f l).
Proof.
  intros Hf Hl j d Hin. unfold updateIn in Hin.
  apply in_map_iff in Hin. destruct Hin as [[k e] [Heq Hin]]. simpl in Heq.
  destruct (k =? i)%N; inversion Heq; subst; [apply Hf | now apply (Hl j)].
Qed.

Lemma distinctIn_app l l' : distinctIn l -> distinctIn l' -> distinctIn (l ++ l').
Proof.
  intros H H' i d Hin. apply in_app_iff in Hin.
  destruct Hin; [now apply (H i) | now apply (H' i)].
Qed.

Lemma lookupDoc_In i l d : lookupDoc i l = Some d -> In (i, d) l.
Proof.
  induction l as [|[j e] l IH]; simpl; [discriminate|].
  destruct (N.eqb_spec j i) as [->|Hne].
  - intros [= ->]. now left.
  - intros H. right. now apply IH.
Qed.

(** ** The store requests *)

Lemma getDocs_distinct g :
  triple distinct (getDocs_groupCallsQuery g)
    (fun docs s => distinct s /\
                   forall e, In e docs -> NoDup (participantsOrEmpty (snd e)))
    distinct.
Proof.
  unfold getDocs_groupCallsQuery.
  eapply triple_bind; [apply (untouched_triple distinctIn), untouched_request|].
  intros _ s Hs. simpl. split; [exact Hs|].
  intros [i d] Hin. apply filter_In in Hin. simpl. now apply (Hs i), Hin.
Qed.

Lemma getDoc_distinct i :
  triple distinct (getDoc_groupCall i)
    (fun r s => distinct s /\
                forall d, r = Some d -> NoDup (participantsOrEmpty d))
    distinct.
Proof.
  unfold getDoc_groupCall.
  eapply triple_bind; [apply (untouched_triple distinctIn), untouched_request|].
  intros _ s Hs. simpl. split; [exact Hs|].
  intros d Hd. apply lookupDoc_In in Hd. now apply (Hs i).
Qed.

Lemma updateDoc_distinct i f :
  (forall d, NoDup (participantsOrEmpty (f d))) ->
  triple distinct (updateDoc_groupCall i f) (fun _ => distinct) distinct.
Proof.
  intros Hf. unfold updateDoc_groupCall.
  eapply triple_bind; [apply (untouched_triple distinctIn), untouched_request|].
  intros _ s Hs. unfold bind, getWorld, modifyWorld.
  destruct (lookupDoc i (groupCalls (world s))); simpl; [|exact Hs].
  unfold distinct, participantsDistinct; simpl. rewrite groupCalls_setGroupCalls.
  now apply distinctIn_updateIn.
Qed.

Lemma addDoc_distinct callData :
  NoDup (participantsOrEmpty callData) ->
  triple distinct (addDoc_groupCalls callData) (fun _ => distinct) distinct.
Proof.
  intros Hd. unfold addDoc_groupCalls.
  eapply triple_bind; [apply (untouched_triple distinctIn), untouched_request|].
  intros _ s Hs. unfold bind, getWorld, modifyWorld, ret; simpl.
  unfold distinct, participantsDistinct; simpl.
  rewrite groupCalls_setNextId, groupCalls_setGroupCalls.
  apply distinctIn_app; [exact Hs|].
  intros i d [[= _ <-]|[]]. exact Hd.
Qed.

Lemma untouched_distinct {A} (m : M A) :
  untouched m -> triple distinct m (fun _ => distinct) distinct.
Proof. intros H. now apply (untouched_triple distinctIn). Qed.

Ltac untouched_steps :=
  repeat first
    [ apply untouched_modify
    | apply untouched_ret
    | apply untouched_serverTimestamp
    | apply untouched_addDoc_groupMessages
    | apply untouched_acquireMedia
    | apply untouched_bind; [|intros ?] ].

(** ** The functions of the component *)

Lemma cleanup_distinct props callId :
  triple distinct (cleanup props callId) (fun _ => distinct) distinct.
Proof.
  unfold cleanup.
  do 4 (eapply triple_bind;
        [apply untouched_distinct, untouched_modify | intros ?; cbv beta]).
  eapply triple_bind with (Q := fun _ => distinct).
  - destruct callId as [i|]; [|now apply triple_ret].
    eapply triple_try with (E' := distinct); [|now apply triple_ret].
    eapply triple_bind; [apply getDoc_distinct|].
    intros [callData|]; [|apply triple_ret; tauto].
    intros s [Hs Hd]. specialize (Hd callData eq_refl).
    revert s Hs.
    change (triple distinct
      (try_catch
         (if negb (strict_neq_string (creatorId callData) (currentUserId props))
             || (List.length (without (participantsOrEmpty callData)
                                (currentUserId props)) =? 0)%nat
          then bind serverTimestamp (fun endTime =>
                 updateDoc_groupCall i
                   (withEnded (without (participantsOrEmpty callData)
                                 (currentUserId props)) endTime))
          else updateDoc_groupCall i
                 (withParticipants (without (participantsOrEmpty callData)
                                      (currentUserId props))))
         (ret tt))
      (fun _ => distinct) distinct).
    eapply triple_try with (E' := distinct); [|now apply triple_ret].
    destruct (negb _ || _).
    + eapply triple_bind;
        [apply untouched_distinct, untouched_serverTimestamp|].
      intros t. apply updateDoc_distinct. intros d.
      rewrite participants_withEnded. now apply NoDup_without.
    + apply updateDoc_distinct. intros d.
      rewrite participants_withParticipants. now apply NoDup_without.
  - intros ?; cbv beta. apply untouched_distinct. untouched_steps.
Qed.

Lemma createOrJoin_distinct props :
  triple distinct (createOrJoin props) (fun _ => distinct) distinct.
Proof.
  unfold createOrJoin.
  eapply triple_bind; [apply getDocs_distinct|].
  intros [|existingCall rest].
  - eapply triple_weaken with (P' := distinct) (Q' := fun _ => distinct)
      (E' := distinct); try tauto.
    eapply triple_bind; [apply untouched_distinct, untouched_serverTimestamp|].
    intros t.
    eapply triple_bind.
    + apply addDoc_distinct. simpl. constructor; [intros []|constructor].
    + intros callDocId. apply untouched_distinct. untouched_steps.
  - intros s [Hs Hd].
    specialize (Hd existingCall (or_introl eq_refl)).
    revert s Hs.
    change (triple distinct
      (bind
         (if negb (includes (participantsOrEmpty (snd existingCall))
                     (currentUserId props))
          then try_catch
                 (bind (updateDoc_groupCall (fst existingCall)
                          (withParticipants
                             (participantsOrEmpty (snd existingCall)
                              ++ [currentUserId props])))
                    (fun _ => bind serverTimestamp (fun t =>
                       addDoc_groupMessages
                         (systemMessage props " joined the call" t))))
                 (ret tt)
          else ret tt)
         (fun _ => ret (fst existingCall)))
      (fun _ => distinct) distinct).
    eapply triple_bind with (Q := fun _ => distinct);
      [|intros ?; cbv beta; now apply triple_ret].
    destruct (includes _ _) eqn:Hinc; simpl; [now apply triple_ret|].
    eapply triple_try with (E' := distinct); [|now apply triple_ret].
    eapply triple_bind.
    + apply updateDoc_distinct. intros d.
      rewrite participants_withParticipants. now apply NoDup_append_new.
    + intros ?; cbv beta. apply untouched_distinct. untouched_steps.
Qed.

Lemma initializeCall_distinct props callId :
  triple distinct (initializeCall props callId) (fun _ => distinct) distinct.
Proof.
  unfold initializeCall.
  eapply triple_try with (E' := distinct).
  - eapply triple_bind; [apply createOrJoin_distinct|].
    intros callDocId. apply untouched_distinct. untouched_steps.
  - eapply triple_bind; [apply untouched_distinct, untouched_modify|].
    intros ?; cbv beta.
    eapply triple_bind; [apply cleanup_distinct|].
    intros ?; cbv beta. apply untouched_distinct, untouched_modify.
Qed.

End DistinctParticipants.

(* ================================================================= *)
(** * Creating, joining and leaving a call *)

Module CallLifecycle.

Import GroupVideoCall CallRecord Triples DistinctParticipants Samples.

Lemma lookupDoc_updateIn_same i f l d :
  lookupDoc i l = Some d -> lookupDoc i (updateIn i f l) = Some (f d).
Proof.
  induction l as [|[j e] l IH]; simpl; [discriminate|].
  destruct (N.eqb_spec j i) as [->|Hne]; simpl.
  - rewrite N.eqb_refl. now intros [= ->].
  - destruct (N.eqb_spec j i); [contradiction|]. exact IH.
Qed.

Lemma lookupDoc_updateIn_other i j f l :
  j <> i -> lookupDoc j (updateIn i f l) = lookupDoc j l.
Proof.
  intros Hji. induction l as [|[k e] l IH]; simpl; [reflexivity|].
  destruct (N.eqb_spec k i) as [->|Hki]; simpl.
  - destruct (N.eqb_spec i j); [congruence | exact IH].
  - now rewrite IH.
Qed.

Lemma In_lookupDoc i d l : In (i, d) l -> exists d', lookupDoc i l = Some d'.
Proof.
  induction l as [|[j e] l IH]; simpl; [intros []|].
  intros [[= -> ->]|Hin].
  - rewrite N.eqb_refl. eauto.
  - destruct (j =? i)%N; eauto.
Qed.

Lemma In_updateIn i f l d : In (i, d) l -> In (i, f d) (updateIn i f l).
Proof.
  intros Hin. unfold updateIn. apply in_map_iff.
  exists (i, d). simpl. now rewrite N.eqb_refl.
Qed.

Lemma is_creator (v : value) (u : js_string) :
  negb (strict_neq_string v u) = true <-> v = VString u.
Proof.
  destruct v as [| |b|n|t]; simpl; try (split; discriminate).
  rewrite negb_involutive, string_eqb_eq. split; congruence.
Qed.

Lemma length_zero (l : list js_string) : (List.length l =? 0)%nat = true <-> l = [].
Proof. destruct l; simpl; split; congruence. Qed.

(** With no fault scheduled a request goes through and changes nothing. *)
Lemma request_ok s : faults (world s) = [] -> request s = Ok tt s.
Proof. intros H. unfold request. now rewrite H. Qed.

(** ** The media part *)

Lemma acquireMedia_spec s :
  match getUserMedia (world s) true true, getUserMedia (world s) false true with
  | Some stream, _ =>
      acquireMedia s =
      Ok {| media_stream := Some stream; hasVideo := true; hasAudio := true;
            isViewOnly := false |} s
  | None, Some stream =>
      acquireMedia s =
      Ok {| media_stream := Some stream; hasVideo := false; hasAudio := true;
            isViewOnly := false |}
         {| world := world s; comp := setIsVideoOff true (comp s) |}
  | None, None =>
      acquireMedia s =
      Ok {| media_stream := Some []; hasVideo := false; hasAudio := false;
            isViewOnly := true |}
         {| world := world s;
            comp := addToast viewOnlyNotice
                      (setIsMicMuted true (setIsVideoOff true (comp s))) |}
  end.
Proof.
  unfold acquireMedia, try_catch, mediaDevices_getUserMedia, bind, getWorld,
    viewOnly, modify, ret.
  destruct s as [w c]; simpl.
  destruct (getUserMedia w true true); simpl; [reflexivity|].
  destruct (getUserMedia w false true); reflexivity.
Qed.

(** ** The record part *)

Lemma createOrJoin_spec props s :
  faults (world s) = [] ->
  let me := currentUserId props in
  match filter (activeCallOf (props_groupId props)) (groupCalls (world s)) with
  | [] =>
      exists s',
        createOrJoin props s = Ok (nextId (world s)) s' /\
        comp s' = comp s /\
        getUserMedia (world s') = getUserMedia (world s) /\
        groupCalls (world s') =
          groupCalls (world s) ++
          [(nextId (world s), createdBy props (serverTime (world s)))]
  | (i, d) :: _ =>
      exists s',
        createOrJoin props s = Ok i s' /\
        comp s' = comp s /\
        getUserMedia (world s') = getUserMedia (world s) /\
        groupCalls (world s') =
          if includes (participantsOrEmpty d) me
          then groupCalls (world s)
          else updateIn i (withParticipants (participantsOrEmpty d ++ [me]))
                 (groupCalls (world s))
  end.
Proof.
  intros Hf me. destruct s as [w c]. destruct w as [gc gm nid t fl gum].
  simpl in *. subst fl.
  unfold createOrJoin, getDocs_groupCallsQuery, bind, request, getWorld, ret; simpl.
  destruct (filter (activeCallOf (props_groupId props)) gc) as [|[i d] rest] eqn:Hq.
  - eexists. unfold serverTimestamp, addDoc_groupCalls, addDoc_groupMessages,
      bind, request, getWorld, modifyWorld, ret; simpl.
    split; [reflexivity|]. simpl. repeat split.
  - simpl. fold me.
    destruct (includes (participantsOrEmpty d) me); simpl.
    + eexists. split; [reflexivity|]. repeat split.
    + assert (Hin : In (i, d) gc).
      { assert (H : In (i, d) (filter (activeCallOf (props_groupId props)) gc))
          by (rewrite Hq; now left).
        now apply filter_In in H. }
      destruct (In_lookupDoc _ _ _ Hin) as [d' Hd'].
      unfold try_catch, updateDoc_groupCall, serverTimestamp,
        addDoc_groupMessages, bind, request, getWorld, modifyWorld, ret; simpl.
      rewrite Hd'; simpl.
      eexists. split; [reflexivity|]. repeat split.
Qed.

(** Once the record part has returned, [initializeCall] completes. *)
Lemma initializeCall_completes props callId0 s callDocId s1 :
  createOrJoin props s = Ok callDocId s1 ->
  exists s',
    initializeCall props callId0 s = Ok tt s' /\
    world s' = world s1 /\
    isCallActive (comp s') = true /\
    isJoining (comp s') = false /\
    callId (comp s') = Some callDocId /\
    onEndCall (comp s') = onEndCall (comp s1) /\
    listening (comp s') = listening (comp s1) ++ [callDocId] /\
    match getUserMedia (world s1) true true,
          getUserMedia (world s1) false true with
    | Some stream, _ =>
        localStream (comp s') = Some stream /\
        isVideoOff (comp s') = isVideoOff (comp s1) /\
        isMicMuted (comp s') = isMicMuted (comp s1) /\
        toasts (comp s') = toasts (comp s1)
    | None, Some stream =>
        localStream (comp s') = Some stream /\
        isVideoOff (comp s') = true /\
        isMicMuted (comp s') = isMicMuted (comp s1) /\
        toasts (comp s') = toasts (comp s1)
    | None, None =>
        localStream (comp s') = Some [] /\
        isVideoOff (comp s') = true /\
        isMicMuted (comp s') = true /\
        toasts (comp s') = toasts (comp s1) ++ [viewOnlyNotice]
    end.
Proof.
  intros Hrec. unfold initializeCall, try_catch, bind at 1. rewrite Hrec.
  unfold bind at 1. unfold modify at 1.
  unfold bind at 1.
  pose proof (acquireMedia_spec
                {| world := world s1;
                   comp := setCallId (Some callDocId) (comp s1) |}) as Hm.
  simpl in Hm.
  destruct s1 as [w1 c1]; simpl in *. destruct c1; simpl in *.
  destruct (getUserMedia w1 true true) as [st|];
    [|destruct (getUserMedia w1 false true) as [st|]];
    rewrite Hm; simpl; eexists; (split; [reflexivity|]); simpl;
    repeat split.
Qed.

(** ** C6 *)

(** C6.  The media part of [initializeCall] is a chain of fallbacks:
    video and audio first; when that is refused, audio alone, with the
    video flag turned off; when that is refused too, an empty stream,
    video off, microphone muted, the view-only notice shown.  It never
    throws, so once the call record is created or joined
    [initializeCall] completes whatever the devices answer: the call is
    active, the component no longer joining, [onEndCall] not called and
    no failure toast added. *)
Theorem media_fallback_never_aborts
    (props : GroupVideoCallProps) (callId0 : option DocId)
    (s : State) (callDocId : DocId) (s1 : State) :
  createOrJoin props s = Ok callDocId s1 ->
  (exists media s2,
      acquireMedia s1 = Ok media s2 /\ world s2 = world s1 /\
      match getUserMedia (world s1) true true,
            getUserMedia (world s1) false true with
      | Some stream, _ =>
          media_stream media = Some stream /\ isViewOnly media = false /\
          comp s2 = comp s1
      | None, Some stream =>
          media_stream media = Some stream /\ isViewOnly media = false /\
          comp s2 = setIsVideoOff true (comp s1)
      | None, None =>
          media_stream media = Some [] /\ isViewOnly media = true /\
          comp s2 = addToast viewOnlyNotice
                      (setIsMicMuted true (setIsVideoOff true (comp s1)))
      end) /\
  exists s',
    initializeCall props callId0 s = Ok tt s' /\
    world s' = world s1 /\
    isCallActive (comp s') = true /\
    isJoining (comp s') = false /\
    callId (comp s') = Some callDocId /\
    onEndCall (comp s') = onEndCall (comp s1) /\
    match getUserMedia (world s1) true true,
          getUserMedia (world s1) false true with
    | Some stream, _ =>
        localStream (comp s') = Some stream /\
        isVideoOff (comp s') = isVideoOff (comp s1) /\
        isMicMuted (comp s') = isMicMuted (comp s1) /\
        toasts (comp s') = toasts (comp s1)
    | None, Some stream =>
        localStream (comp s') = Some stream /\
        isVideoOff (comp s') = true /\
        isMicMuted (comp s') = isMicMuted (comp s1) /\
        toasts (comp s') = toasts (comp s1)
    | None, None =>
        localStream (comp s') = Some [] /\
        isVideoOff (comp s') = true /\
        isMicMuted (comp s') = true /\
        toasts (comp s') = toasts (comp s1) ++ [viewOnlyNotice]
    end.
Proof.
  intros Hrec. split.
  - pose proof (acquireMedia_spec s1) as Hm.
    destruct (getUserMedia (world s1) true true) as [st|];
      [|destruct (getUserMedia (world s1) false true) as [st|]];
      do 2 eexists; (split; [exact Hm|]); simpl; repeat split.
  - destruct (initializeCall_completes props callId0 s Hrec)
      as (s' & H1 & H2 & H3 & H4 & H5 & H6 & _ & H8).
    exists s'. repeat (split; [assumption|]). exact H8.
Qed.

Lemma media_fallback_never_aborts_witness :
  exists s1,
    createOrJoin aliceJoins (opened emptyWorld) = Ok 0%N s1 /\
    exists s',
      initializeCall aliceJoins None (opened emptyWorld) = Ok tt s' /\
      isCallActive (comp s') = true /\
      localStream (comp s') = Some [] /\
      isVideoOff (comp s') = true /\ isMicMuted (comp s') = true.
Proof.
  eexists. split; [reflexivity|].
  destruct (@media_fallback_never_aborts aliceJoins None (opened emptyWorld)
              0%N _ eq_refl) as [_ (s' & H1 & _ & H3 & _ & _ & _ & H7)].
  exists s'. split; [exact H1|]. split; [exact H3|].
  simpl in H7. destruct H7 as (Ha & Hb & Hc & _). now repeat split.
Defined.

(** ** C7 *)

(** C7 (amended).  [cleanup], run from a render that holds the id of
    its call, with the record there and the store answering: the
    record is read and the leaver removed from its participants (an
    array is filtered, anything else is taken for the empty array);
    when the leaver is the creator of the call or nobody is left, the
    status becomes 'ended' and an end time is written; otherwise only
    the participants are written, status and end time are as they
    were.  The other fields and the other records are not touched. *)
Theorem cleanup_leaves_call
    (props : GroupVideoCallProps) (i : DocId) (s : State) (callData : GroupCallData) :
  faults (world s) = [] ->
  lookupDoc i (groupCalls (world s)) = Some callData ->
  let me := currentUserId props in
  let updatedParticipants := without (participantsOrEmpty callData) me in
  exists s' after,
    cleanup props (Some i) s = Ok tt s' /\
    lookupDoc i (groupCalls (world s')) = Some after /\
    participants after = Some updatedParticipants /\
    (forall u, In u updatedParticipants <->
               In u (participantsOrEmpty callData) /\ u <> me) /\
    (creatorId callData = VString me \/ updatedParticipants = [] ->
     status after = of_string "ended" /\
     endTime after = Some (serverTime (world s))) /\
    (creatorId callData <> VString me -> updatedParticipants <> [] ->
     status after = status callData /\ endTime after = endTime callData) /\
    groupId after = groupId callData /\
    creatorId after = creatorId callData /\
    startTime after = startTime callData /\
    (forall j, j <> i ->
               lookupDoc j (groupCalls (world s')) = lookupDoc j (groupCalls (world s))) /\
    (* the array as the record holds it *)
    (forall ps, participants callData = Some ps ->
       participants after = Some (filter (fun id => negb (string_eqb id me)) ps) /\
       ~ In me (filter (fun id => negb (string_eqb id me)) ps) /\
       (forall u, u <> me -> In u ps ->
                  In u (filter (fun id => negb (string_eqb id me)) ps))) /\
    (participants callData = None ->
       participants after = Some [] /\ status after = of_string "ended").
Proof.
  intros Hf Hdoc me updatedParticipants.
  assert (Harray : forall ps, participants callData = Some ps ->
            updatedParticipants = filter (fun id => negb (string_eqb id me)) ps).
  { intros ps Hps. subst updatedParticipants.
    unfold participantsOrEmpty, without. now rewrite Hps. }
  assert (Hmissing : participants callData = None -> updatedParticipants = []).
  { intros Hps. subst updatedParticipants.
    unfold participantsOrEmpty, without. now rewrite Hps. }
  assert (Hfilter : forall ps,
            ~ In me (filter (fun id => negb (string_eqb id me)) ps) /\
            (forall u, u <> me -> In u ps ->
                       In u (filter (fun id => negb (string_eqb id me)) ps))).
  { intros ps. split.
    - intros Hin. apply filter_In in Hin. destruct Hin as [_ Hin].
      now rewrite string_eqb_refl in Hin.
    - intros u Hu Hin. apply filter_In. split; [exact Hin|].
      now apply negb_true_iff, string_eqb_neq. }
  destruct s as [w c]. destruct w as [gc gm nid t fl gum]. simpl in *. subst fl.
  unfold cleanup, try_catch, getDoc_groupCall, bind, request, modify,
    getWorld, ret; simpl.
  rewrite Hdoc. fold me. fold updatedParticipants.
  destruct (negb (strict_neq_string (creatorId callData) me)
            || (List.length updatedParticipants =? 0)%nat) eqn:Hcond.
  - unfold serverTimestamp, updateDoc_groupCall, bind, request, getWorld,
      modifyWorld, ret; simpl. rewrite Hdoc; simpl.
    do 2 eexists. split; [reflexivity|]. simpl.
    split; [apply lookupDoc_updateIn_same, Hdoc|].
    assert (Hyes : creatorId callData <> VString me ->
                   updatedParticipants <> [] -> False).
    { intros Hnc Hne. apply orb_true_iff in Hcond. destruct Hcond as [Hc|Hc].
      - apply is_creator in Hc. contradiction.
      - apply length_zero in Hc. contradiction. }
    split; [now destruct callData|].
    split; [intros u; apply without_In|].
    split; [intros _; now destruct callData|].
    split; [intros Hnc Hne; destruct (Hyes Hnc Hne)|].
    split; [now destruct callData|].
    split; [now destruct callData|].
    split; [now destruct callData|].
    split; [intros j Hj; now apply lookupDoc_updateIn_other|].
    split.
    + intros ps Hps. rewrite <- (Harray ps Hps).
      split; [now destruct callData|]. rewrite (Harray ps Hps). apply Hfilter.
    + intros Hps. rewrite <- (Hmissing Hps). split; now destruct callData.
  - unfold updateDoc_groupCall, bind, request, getWorld, modifyWorld, ret; simpl.
    rewrite Hdoc; simpl.
    do 2 eexists. split; [reflexivity|]. simpl.
    split; [apply lookupDoc_updateIn_same, Hdoc|].
    apply orb_false_iff in Hcond. destruct Hcond as [Hc Hl].
    assert (Hnc : creatorId callData <> VString me).
    { intros H. apply is_creator in H. congruence. }
    assert (Hne : updatedParticipants <> []).
    { intros H. apply length_zero in H. congruence. }
    split; [now destruct callData|].
    split; [intros u; apply without_In|].
    split; [intros [H|H]; contradiction|].
    split; [intros _ _; now destruct callData|].
    split; [now destruct callData|].
    split; [now destruct callData|].
    split; [now destruct callData|].
    split; [intros j Hj; now apply lookupDoc_updateIn_other|].
    split.
    + intros ps Hps. rewrite <- (Harray ps Hps).
      split; [now destruct callData|]. rewrite (Harray ps Hps). apply Hfilter.
    + intros Hps. destruct (Hne (Hmissing Hps)).
Qed.

Lemma cleanup_leaves_call_witness :
  faults (world (opened afterBob)) = [] /\
  exists callData,
    lookupDoc 0%N (groupCalls (world (opened afterBob))) = Some callData /\
    participants callData = Some [alice; bob] /\
    exists s' after,
      cleanup bobJoins (Some 0%N) (opened afterBob) = Ok tt s' /\
      lookupDoc 0%N (groupCalls (world s')) = Some after /\
      participants after = Some [alice] /\
      status after = of_string "active".
Proof.
  split; [reflexivity|].
  eexists. split; [reflexivity|]. split; [reflexivity|].
  destruct (@cleanup_leaves_call bobJoins 0%N (opened afterBob) _ eq_refl eq_refl)
    as (s' & after & H1 & H2 & H3 & _ & _ & H6 & _).
  exists s', after. split; [exact H1|]. split; [exact H2|]. split; [exact H3|].
  destruct H6 as [H6 _]; [discriminate | discriminate | exact H6].
Defined.

(** C7, as stated, fails.  Bob leaves the call he is in with Alice;
    his [cleanup] holds the id of the call and reads the record, but
    the store rejects the update.  The error is caught and logged, and
    the record still lists Bob. *)
Lemma rejected_update_keeps_leaver :
  exists callData,
    lookupDoc 0%N (groupCalls afterBobFlaky) = Some callData /\
    participants callData = Some [alice; bob] /\
    exists s' after,
      cleanup bobJoins (Some 0%N) (opened afterBobFlaky) = Ok tt s' /\
      lookupDoc 0%N (groupCalls (world s')) = Some after /\
      participants after = Some [alice; bob] /\
      In bob [alice; bob] /\
      participants after <> Some [alice].
Proof.
  eexists. split; [reflexivity|]. split; [reflexivity|].
  do 2 eexists. split; [reflexivity|]. split; [reflexivity|].
  split; [reflexivity|]. split; [right; now left | discriminate].
Qed.

(** ** C8 *)

Lemma activeCallOf_true g e :
  activeCallOf g e = true ->
  groupId (snd e) = g /\ status (snd e) = of_string "active".
Proof.
  unfold activeCallOf. rewrite andb_true_iff, !string_eqb_eq. tauto.
Qed.

Lemma includes_participantsOrEmpty d u :
  includes (participantsOrEmpty d) u = true ->
  exists ps, participants d = Some ps /\ In u ps.
Proof.
  unfold participantsOrEmpty. destruct (participants d) as [ps|].
  - intros H. exists ps. split; [reflexivity | now apply includes_In].
  - discriminate.
Qed.

(** C8 (amended).  With the store answering, [initializeCall]
    completes and the component knows its call.  When the group has no
    active record, a new one is added: status 'active', the current
    user as creator and as the only participant.  Otherwise the first
    active record of the group is taken: when its participants array
    lists the current user nothing is written; when it does not, the
    record gets that array with the current user appended (the user
    alone when there is no array), its other fields and the other
    records staying as they are.  Either way the current user is
    afterwards listed in an active record of the group. *)
Theorem initializeCall_creates_or_joins
    (props : GroupVideoCallProps) (callId0 : option DocId) (s : State) :
  faults (world s) = [] ->
  let me := currentUserId props in
  let g := props_groupId props in
  exists s' i,
    initializeCall props callId0 s = Ok tt s' /\
    callId (comp s') = Some i /\
    memberOfActiveCall me g i (world s') /\
    match filter (activeCallOf g) (groupCalls (world s)) with
    | [] =>
        i = nextId (world s) /\
        exists created,
          groupCalls (world s') = groupCalls (world s) ++ [(i, created)] /\
          groupId created = g /\
          status created = of_string "active" /\
          creatorId created = VString me /\
          participants created = Some [me]
    | (j, d) :: _ =>
        i = j /\
        In (j, d) (groupCalls (world s)) /\
        groupId d = g /\ status d = of_string "active" /\
        (forall ps, participants d = Some ps -> In me ps ->
           groupCalls (world s') = groupCalls (world s)) /\
        (forall ps, participants d = Some ps \/ (participants d = None /\ ps = []) ->
           ~ In me ps ->
           map fst (groupCalls (world s')) = map fst (groupCalls (world s)) /\
           (forall k e, k <> j ->
              (In (k, e) (groupCalls (world s')) <-> In (k, e) (groupCalls (world s)))) /\
           exists after,
             In (j, after) (groupCalls (world s')) /\
             participants after = Some (ps ++ [me]) /\
             status after = of_string "active" /\
             groupId after = g /\
             creatorId after = creatorId d /\
             creatorName after = creatorName d /\
             startTime after = startTime d /\
             endTime after = endTime d)
    end.
Proof.
  intros Hf me g.
  pose proof (createOrJoin_spec props s Hf) as Hrec. cbv zeta in Hrec.
  fold me g in Hrec.
  destruct (filter (activeCallOf g) (groupCalls (world s)))
    as [|[j d] rest] eqn:Hq.
  - destruct Hrec as (s1 & Hrec & _ & _ & Hcalls).
    destruct (initializeCall_completes props callId0 s Hrec)
      as (s' & H1 & H2 & _ & _ & H5 & _).
    exists s', (nextId (world s)). rewrite H2.
    split; [exact H1|]. split; [exact H5|]. split.
    + exists (createdBy props (serverTime (world s))), [me].
      rewrite Hcalls. split; [apply in_app_iff; right; now left|].
      repeat split. now left.
    + split; [reflexivity|].
      exists (createdBy props (serverTime (world s))). now repeat split.
  - destruct Hrec as (s1 & Hrec & _ & _ & Hcalls).
    destruct (initializeCall_completes props callId0 s Hrec)
      as (s' & H1 & H2 & _ & _ & H5 & _).
    exists s', j. rewrite H2.
    split; [exact H1|]. split; [exact H5|].
    assert (Hin : In (j, d) (filter (activeCallOf g) (groupCalls (world s))))
      by (rewrite Hq; now left).
    apply filter_In in Hin. destruct Hin as [Hin Hact].
    apply activeCallOf_true in Hact. simpl in Hact. destruct Hact as [Hg Hst].
    split.
    { unfold memberOfActiveCall. rewrite Hcalls.
      destruct (includes (participantsOrEmpty d) me) eqn:Hinc.
      + destruct (includes_participantsOrEmpty _ _ Hinc) as (ps & Hps & Hme).
        exists d, ps. now repeat split.
      + exists (withParticipants (participantsOrEmpty d ++ [me]) d),
          (participantsOrEmpty d ++ [me]).
        split; [now apply In_updateIn|].
        destruct d; simpl in *. repeat split; try assumption.
        apply in_app_iff. right. now left. }
    split; [reflexivity|]. split; [exact Hin|].
    split; [exact Hg|]. split; [exact Hst|]. split.
    + intros ps Hps Hme. rewrite Hcalls.
      assert (Hinc : includes (participantsOrEmpty d) me = true).
      { unfold participantsOrEmpty. rewrite Hps. now apply includes_In. }
      now rewrite Hinc.
    + intros ps Hps Hme.
      assert (Hread : participantsOrEmpty d = ps).
      { unfold participantsOrEmpty.
        destruct Hps as [Hps|[Hps ->]]; now rewrite Hps. }
      assert (Hinc : includes (participantsOrEmpty d) me = false).
      { rewrite Hread. destruct (includes ps me) eqn:E; [|reflexivity].
        apply includes_In in E. contradiction. }
      rewrite Hinc, Hread in Hcalls. rewrite Hcalls. split; [|split].
      * unfold updateIn. rewrite map_map. apply map_ext.
        intros [k e]. cbn [fst]. now destruct (k =? j)%N.
      * intros k e Hk. unfold updateIn. rewrite in_map_iff. split.
        -- intros ([k' e'] & Heq & Hin'). cbn [fst snd] in Heq.
           destruct (N.eqb_spec k' j) as [->|_];
             injection Heq as <- <-; [contradiction | exact Hin'].
        -- intros Hin'. exists (k, e). cbn [fst snd].
           destruct (N.eqb_spec k j); [contradiction | now split].
      * exists (withParticipants (ps ++ [me]) d).
        split; [now apply In_updateIn|].
        destruct d; simpl in *. now repeat split.
Qed.

Lemma initializeCall_creates_or_joins_witness :
  faults (world (opened afterAlice)) = [] /\
  map (fun e => (fst e, participants (snd e))) (groupCalls afterAlice)
  = [(0%N, Some [alice])] /\
  exists s',
    initializeCall bobJoins None (opened afterAlice) = Ok tt s' /\
    callId (comp s') = Some 0%N /\
    memberOfActiveCall bob family 0%N (world s') /\
    exists after,
      In (0%N, after) (groupCalls (world s')) /\
      participants after = Some [alice; bob] /\
      status after = of_string "active" /\
      map fst (groupCalls (world s')) = [0%N].
Proof.
  split; [reflexivity|]. split; [reflexivity|].
  destruct (@initializeCall_creates_or_joins bobJoins None (opened afterAlice) eq_refl)
    as (s' & i & H1 & H2 & H3 & H4).
  simpl in H4. destruct H4 as (-> & _ & _ & _ & _ & Hjoin).
  destruct (Hjoin [alice]) as (Hids & _ & after & Hin & Hps & Hst & _).
  - left; reflexivity.
  - intros [H|[]]. discriminate H.
  - exists s'. split; [exact H1|]. split; [exact H2|]. split; [exact H3|].
    exists after. split; [exact Hin|]. split; [exact Hps|]. split; [exact Hst|].
    rewrite Hids. reflexivity.
Defined.

(** C8, as stated, fails.  Bob joins the call Alice has started; the
    store answers the query and rejects the update of the
    participants.  The error is caught, [initializeCall] goes on and
    Bob's component shows the call, while the only record still lists
    Alice alone: Bob is a member of no active record of the group. *)
Lemma join_survives_failed_update :
  exists s',
    initializeCall bobJoins None (opened afterAliceFlaky) = Ok tt s' /\
    isCallActive (comp s') = true /\ callId (comp s') = Some 0%N /\
    map (fun e => (fst e, participants (snd e))) (groupCalls (world s'))
    = [(0%N, Some [alice])] /\
    forall i, ~ memberOfActiveCall bob family i (world s').
Proof.
  eexists. split; [reflexivity|]. split; [reflexivity|].
  split; [reflexivity|]. split; [reflexivity|].
  intros i (d & ps & Hin & _ & _ & Hps & Hbob).
  cbn in Hin. destruct Hin as [Hin|[]].
  injection Hin as _ <-. cbn in Hps. injection Hps as <-.
  destruct Hbob as [H|[]]. discriminate H.
Qed.

(** ** C10 *)

Lemma step_distinct (w w' : World) :
  participantsDistinct w -> step w w' -> participantsDistinct w'.
Proof.
  intros Hw Hstep. destruct Hstep as [props callId w c|props callId w c|w w' Hsame].
  - pose proof (@initializeCall_distinct props callId
                  {| world := w; comp := c |} Hw) as H.
    now destruct (initializeCall props callId _).
  - pose proof (@cleanup_distinct props callId
                  {| world := w; comp := c |} Hw) as H.
    now destruct (cleanup props callId _).
  - unfold participantsDistinct. now rewrite Hsame.
Qed.

(** C10.  Starting with no call record, after any number of
    [initializeCall] and [cleanup] runs by any users, from any
    component state, with any store request failing and any answer of
    the media devices, no record of [groupCalls] lists a participant
    twice. *)
Theorem participants_never_duplicated (w : World) :
  reachable w -> participantsDistinct w.
Proof.
  induction 1 as [w Hempty|w w' _ IH Hstep].
  - intros i d Hin. rewrite Hempty in Hin. destruct Hin.
  - exact (step_distinct IH Hstep).
Qed.

Lemma participants_never_duplicated_witness :
  reachable afterBobLeft /\
  exists d, lookupDoc 0%N (groupCalls afterBobLeft) = Some d /\
            NoDup (participantsOrEmpty d).
Proof.
  assert (Hr : reachable afterBobLeft).
  { apply reachable_step with (w := afterBob); [|apply step_cleanup].
    apply reachable_step with (w := afterAlice);
      [|exact (step_initializeCall bobJoins None afterAlice mounted)].
    apply reachable_step with (w := emptyWorld);
      [|exact (step_initializeCall aliceJoins None emptyWorld mounted)].
    now apply reachable_start. }
  split; [exact Hr|].
  eexists. split; [reflexivity|].
  apply (participants_never_duplicated Hr 0%N). simpl. now left.
Defined.

(** ** What the hypotheses above leave out *)

(** A [cleanup] whose closure still has [callId] null (the one the
    mount effect and [initializeCall] hold) does not reach the store. *)
Lemma cleanup_without_callId props s :
  exists c', cleanup props None s = Ok tt {| world := world s; comp := c' |}.
Proof.
  destruct s as [w c]. unfold cleanup, bind, modify, ret; simpl.
  eexists; reflexivity.
Qed.

End CallLifecycle.

(* ================================================================= *)
(** * The candidate listener on whole snapshots *)

Module CandidateSnapshots.

Import GroupVideoCall GroupCallParticipants Samples MoreSamples.

Lemma foreignComplete_change engine cur type data pc :
  foreignComplete cur (type, data) = false ->
  onCandidateChange engine cur type data pc = (pc, []).
Proof.
  unfold foreignComplete, onCandidateChange; simpl.
  destruct type; try reflexivity.
  destruct (strict_neq_string (sender data) cur); [|reflexivity].
  destruct (incomplete data); [reflexivity | discriminate].
Qed.

(** X1.  A snapshot of candidate changes, taken as a whole.  While the
    connection has no remote description nothing is added and the
    timers scheduled are exactly the retries of the added, complete
    records of other senders, in the order of the snapshot.  Once it
    has one, no timer is scheduled, the description stays, and the
    candidates the engine takes among those same records are appended
    to the connection in order; what the connection held is kept. *)
Theorem snapshot_adds_or_schedules
    (engine : RTCIceCandidate -> bool) (currentUserId : js_string)
    (changes : list (changeType * CandidateData)) (pc : PeerConnection) :
  let going := filter (foreignComplete currentUserId) changes in
  match remoteDescription pc with
  | None =>
      onCandidatesSnapshot engine currentUserId changes pc
      = (pc, map retryOf going)
  | Some d =>
      onCandidatesSnapshot engine currentUserId changes pc
      = ({| remoteDescription := Some d;
            remoteCandidates :=
              remoteCandidates pc
              ++ filter engine (map (fun ch => candidateOf (snd ch)) going) |},
         [])
  end.
Proof.
  cbv zeta. revert pc.
  induction changes as [|[type data] rest IH]; intros pc.
  - destruct pc as [[d|] cs]; simpl; [now rewrite app_nil_r | reflexivity].
  - cbn [onCandidatesSnapshot filter].
    destruct (foreignComplete currentUserId (type, data)) eqn:Hgo.
    + unfold foreignComplete in Hgo; simpl in Hgo.
      destruct type; try discriminate.
      apply andb_true_iff in Hgo. destruct Hgo as [Hs Hc].
      apply negb_true_iff in Hc.
      unfold onCandidateChange. rewrite Hs, Hc.
      destruct pc as [[d|] cs]; cbn [remoteDescription remoteCandidates].
      * unfold addIceCandidate. cbn [remoteDescription remoteCandidates map filter snd].
        fold (candidateOf data).
        destruct (engine (candidateOf data)).
        -- specialize (IH {| remoteDescription := Some d;
                             remoteCandidates := cs ++ [candidateOf data] |}).
           cbn [remoteDescription remoteCandidates] in IH. rewrite IH.
           cbn [app]. now rewrite <- app_assoc.
        -- specialize (IH {| remoteDescription := Some d; remoteCandidates := cs |}).
           cbn [remoteDescription remoteCandidates] in IH. now rewrite IH.
      * specialize (IH {| remoteDescription := None; remoteCandidates := cs |}).
        cbn [remoteDescription] in IH. rewrite IH. reflexivity.
    + rewrite (foreignComplete_change engine _ _ _ pc Hgo).
      specialize (IH pc). destruct (remoteDescription pc); now rewrite IH.
Qed.

(** X2.  What one side gathers, the other side adds.  A complete local
    candidate [c] given to the [onicecandidate] handler of [a] (talking
    to [b]) is stored with [a] as sender; for the listener of [a] that
    record is one of its own and it does nothing, for the listener of
    [b], with the remote description set and the engine willing, the
    candidate added to the connection is [c] again. *)
Theorem gathered_candidate_reaches_peer
    (engine : RTCIceCandidate -> bool) (a b : js_string) (callDocId : DocId)
    (c : RTCIceCandidate) (s : Signaling) (pc : PeerConnection)
    (d : SessionDescription) :
  a <> b ->
  truthy (ice_sdpMLineIndex c) = true ->
  truthy (ice_candidate c) = true ->
  truthy (ice_sdpMid c) = true ->
  remoteDescription pc = Some d ->
  engine c = true ->
  exists data,
    candidates (onicecandidate a b callDocId (Some c) s)
      = candidates s ++ [(candidatesOf callDocId (connectionId b a), data)] /\
    candidateOf data = c /\
    onCandidateChange engine a Added data pc = (pc, []) /\
    onCandidateChange engine b Added data pc
      = ({| remoteDescription := Some d;
            remoteCandidates := remoteCandidates pc ++ [c] |}, []).
Proof.
  intros Hab Hi Hc Hm Hd He.
  eexists. split; [|split; [|split]].
  - unfold onicecandidate; cbn [candidates].
    rewrite <- (SignalingRole.connectionId_sym a b).
    unfold connectionId, shouldCreateOffer. reflexivity.
  - now destruct c.
  - unfold onCandidateChange; cbn [sender strict_neq_string].
    now rewrite string_eqb_refl.
  - unfold onCandidateChange, incomplete;
      cbn [sender strict_neq_string sdpMLineIndex candidate sdpMid].
    assert (Hne : string_eqb a b = false) by now apply string_eqb_neq.
    rewrite Hne, Hi, Hc, Hm, Hd. cbn [negb orb].
    unfold addIceCandidate.
    replace {| ice_sdpMLineIndex := ice_sdpMLineIndex c;
               ice_candidate := ice_candidate c;
               ice_sdpMid := ice_sdpMid c |} with c by now destruct c.
    now rewrite He, Hd.
Qed.

Lemma gathered_candidate_reaches_peer_witness :
  alice <> bob /\
  exists data,
    candidates (onicecandidate alice bob 7%N (Some hostIce1) noSignaling)
      = [(candidatesOf 7%N (of_string "alice_bob"), data)] /\
    onCandidateChange (fun _ => true) bob Added data describedConnection
      = ({| remoteDescription := Some someOffer;
            remoteCandidates := [hostIce1] |}, []).
Proof.
  assert (H : alice <> bob) by discriminate.
  split; [exact H|].
  destruct (@gathered_candidate_reaches_peer (fun _ => true) alice bob 7%N
              hostIce1 noSignaling describedConnection someOffer H
              eq_refl eq_refl eq_refl eq_refl eq_refl)
    as (data & H1 & _ & _ & H4).
  exists data. split; [exact H1 | exact H4].
Defined.

End CandidateSnapshots.

(* ================================================================= *)
(** * Who is set up and who is torn down *)

Module ParticipantsListener.

Import GroupVideoCall GroupCallParticipants Samples MoreSamples.

Lemma fold_addNew_In (xs seen : list js_string) (u : js_string) :
  In u (fold_left addNew xs seen) <-> In u seen \/ In u xs.
Proof.
  revert seen; induction xs as [|x xs IH]; intros seen; simpl; [tauto|].
  rewrite IH. unfold addNew.
  destruct (includes seen x) eqn:Hx.
  - apply includes_In in Hx. split; [tauto|].
    intros [H|[H|H]]; subst; auto.
  - rewrite in_app_iff; simpl. tauto.
Qed.

Lemma fold_addNew_NoDup (xs seen : list js_string) :
  NoDup seen -> NoDup (fold_left addNew xs seen).
Proof.
  revert seen; induction xs as [|x xs IH]; intros seen Hnd; simpl; [assumption|].
  apply IH. unfold addNew.
  destruct (includes seen x) eqn:Hx; [assumption|].
  now apply DistinctParticipants.NoDup_append_new.
Qed.

Lemma setOf_In (xs : list js_string) (u : js_string) : In u (setOf xs) <-> In u xs.
Proof.
  unfold setOf. change (In u (fold_left addNew xs []) <-> In u xs).
  rewrite fold_addNew_In. simpl. tauto.
Qed.

Lemma setOf_NoDup (xs : list js_string) : NoDup (setOf xs).
Proof. apply (fold_addNew_NoDup xs). constructor. Qed.

Lemma includes_false (xs : list js_string) (u : js_string) :
  includes xs u = false <-> ~ In u xs.
Proof.
  rewrite <- includes_In. destruct (includes xs u); split; congruence.
Qed.

Lemma ended_or_not (callData : GroupCallData) :
  string_eqb (status callData) (of_string "ended") = false <->
  status callData <> of_string "ended".
Proof. apply string_eqb_neq. Qed.

(** X3.  What the snapshot callback of [listenForParticipants] decides.
    Without a document, or with status 'ended', the call is given up
    and nothing is set up.  Otherwise a connection is set up exactly
    for those listed in the record who are not the current user and have
    no tile yet, each of them once, and torn down exactly for those
    with a tile who are not the current user and no longer listed; the
    current user is in neither list and nobody is in both. *)
Theorem snapshot_reconciles
    (currentUserId : js_string) (participants : list Participant)
    (callData : GroupCallData) :
  onCallSnapshot currentUserId participants None = CallHasEnded /\
  (status callData = of_string "ended" ->
   onCallSnapshot currentUserId participants (Some callData) = CallHasEnded) /\
  (status callData <> of_string "ended" ->
   exists setups teardowns,
     onCallSnapshot currentUserId participants (Some callData)
       = Reconcile setups teardowns /\
     NoDup setups /\
     (forall u, In u setups <->
                In u (participantsOrEmpty callData) /\ u <> currentUserId /\
                ~ In u (map id participants)) /\
     (forall u, In u teardowns <->
                In u (map id participants) /\ u <> currentUserId /\
                ~ In u (participantsOrEmpty callData)) /\
     (forall u, In u setups -> ~ In u teardowns)).
Proof.
  split; [reflexivity|]. split.
  - intros He. unfold onCallSnapshot. rewrite He. now rewrite string_eqb_refl.
  - intros Hne. apply ended_or_not in Hne.
    unfold onCallSnapshot. rewrite Hne.
    do 2 eexists. split; [reflexivity|].
    assert (Hs : forall u,
      In u (filter (fun participantId =>
                      negb (string_eqb participantId currentUserId)
                      && negb (includes (setOf (map id participants)) participantId))
                   (setOf (participantsOrEmpty callData))) <->
      In u (participantsOrEmpty callData) /\ u <> currentUserId /\
      ~ In u (map id participants)).
    { intros u. rewrite filter_In, setOf_In, andb_true_iff, !negb_true_iff,
        string_eqb_neq, includes_false, setOf_In. tauto. }
    assert (Ht : forall u,
      In u (filter (fun participantId =>
                      negb (string_eqb participantId currentUserId)
                      && negb (includes (setOf (participantsOrEmpty callData))
                                 participantId))
                   (map id participants)) <->
      In u (map id participants) /\ u <> currentUserId /\
      ~ In u (participantsOrEmpty callData)).
    { intros u. rewrite filter_In, andb_true_iff, !negb_true_iff,
        string_eqb_neq, includes_false, setOf_In. tauto. }
    split; [apply NoDup_filter, setOf_NoDup|].
    split; [exact Hs|]. split; [exact Ht|].
    intros u Hu Hu'. apply Hs in Hu. apply Ht in Hu'. tauto.
Qed.

Lemma snapshot_reconciles_witness :
  status threeInCall <> of_string "ended" /\
  exists setups teardowns,
    onCallSnapshot alice [bobTile] (Some threeInCall) = Reconcile setups teardowns /\
    In carol setups /\ ~ In bob setups /\ ~ In alice setups.
Proof.
  assert (H : status threeInCall <> of_string "ended") by discriminate.
  split; [exact H|].
  destruct (snapshot_reconciles alice [bobTile] threeInCall) as (_ & _ & Hplan).
  destruct (Hplan H) as (setups & teardowns & Heq & _ & Hs & _).
  exists setups, teardowns. split; [exact Heq|].
  split; [|split].
  - apply Hs. simpl. split; [tauto|]. split; [discriminate|].
    intros [Hb|[]]; discriminate.
  - intros Hb. apply Hs in Hb. simpl in Hb. tauto.
  - intros Ha. apply Hs in Ha. tauto.
Defined.

(** X4.  The callback that [initializeCall] registers belongs to the
    render of the mount, whose participants list is the initial, empty
    one.  With that list it never asks for a tear-down, whoever has
    left, and on every snapshot it asks for a set-up of everybody
    listed but the current user, whether set up before or not. *)
Theorem mount_closure_never_tears_down
    (currentUserId : js_string) (callData : GroupCallData) :
  status callData <> of_string "ended" ->
  exists setups,
    onCallSnapshot currentUserId (tiles mounted) (Some callData)
      = Reconcile setups [] /\
    (forall u, In u setups <->
               In u (participantsOrEmpty callData) /\ u <> currentUserId).
Proof.
  intros Hne. apply ended_or_not in Hne.
  unfold onCallSnapshot. rewrite Hne. simpl.
  eexists. split; [reflexivity|].
  intros u. rewrite filter_In, setOf_In, andb_true_iff, negb_true_iff,
    string_eqb_neq. simpl. tauto.
Qed.

Lemma mount_closure_never_tears_down_witness :
  status threeInCall <> of_string "ended" /\
  exists setups,
    onCallSnapshot alice (tiles mounted) (Some threeInCall) = Reconcile setups [] /\
    In bob setups /\ In carol setups.
Proof.
  assert (H : status threeInCall <> of_string "ended") by discriminate.
  split; [exact H|].
  destruct (@mount_closure_never_tears_down alice threeInCall H)
    as (setups & Heq & Hs).
  exists setups. split; [exact Heq|].
  split; apply Hs; simpl; (split; [tauto | discriminate]).
Defined.

End ParticipantsListener.

(* ================================================================= *)
(** * One tile per participant *)

Module ParticipantTiles.

Import GroupVideoCall GroupCallParticipants Samples MoreSamples.

Lemma ids_filter (f : Participant -> bool) (l : list Participant) :
  NoDup (map id l) -> NoDup (map id (filter f l)).
Proof.
  induction l as [|p l IH]; simpl; [auto|].
  intros H. inversion H as [|x xs Hnot Hnd]; subst.
  destruct (f p); simpl; [|auto].
  constructor; [|auto].
  intros Hin. apply Hnot. apply in_map_iff in Hin.
  destruct Hin as (q & Hq & Hin). apply filter_In in Hin.
  apply in_map_iff. exists q. tauto.
Qed.

Lemma ids_upsert (pid : js_string) (t : Participant) (prev : list Participant) :
  id t = pid -> NoDup (map id prev) ->
  NoDup (map id (filter (fun p => negb (string_eqb (id p) pid)) prev ++ [t])).
Proof.
  intros Ht Hnd. rewrite map_app. simpl.
  apply NoDup_app;
    [now apply ids_filter | repeat constructor; intros [] |].
  intros x Hx [Hx'|[]]. subst x.
  apply in_map_iff in Hx. destruct Hx as (q & Hq & Hin).
  apply filter_In in Hin. destruct Hin as [_ Hin].
  apply negb_true_iff, string_eqb_neq in Hin. congruence.
Qed.

Lemma ids_map (g : Participant -> Participant) (l : list Participant) :
  (forall p, id (g p) = id p) -> map id (map g l) = map id l.
Proof.
  intros Hg. rewrite map_map. apply map_ext. exact Hg.
Qed.

Lemma ids_refreshOwnStream cur ms (l : list Participant) :
  map id (refreshOwnStream cur ms l) = map id l.
Proof.
  induction l as [|p l IH]; simpl; [reflexivity|].
  destruct (string_eqb (id p) cur); [now destruct ms|].
  simpl. now rewrite IH.
Qed.

Lemma tiles_cleanupParticipantConnection active pid c :
  tiles (cleanupParticipantConnection active pid c)
  = filter (fun p => negb (string_eqb (id p) pid)) (tiles c).
Proof.
  unfold cleanupParticipantConnection.
  destruct c; simpl.
  destruct (includes _ pid); destruct active as [a|]; simpl;
    try destruct (string_eqb a pid); reflexivity.
Qed.

Lemma tilesStep_unique prev next :
  tilesStep prev next -> NoDup (map id prev) -> NoDup (map id next).
Proof.
  intros Hstep Hnd. destruct Hstep.
  - now apply ids_upsert.
  - now apply ids_upsert.
  - unfold showConnectionState. rewrite ids_map; [assumption|].
    intros p. now destruct (string_eqb (id p) pid).
  - unfold showStream. rewrite ids_map; [assumption|].
    intros p. now destruct (string_eqb (id p) pid).
  - now rewrite ids_refreshOwnStream.
  - rewrite tiles_cleanupParticipantConnection. now apply ids_filter.
  - constructor.
Qed.

(** X5.  The participant tiles never show anybody twice: from the empty
    list of the mount, whatever sequence of updates the component makes
    (its own tile in [initializeCall], a connecting tile in
    [setupPeerConnection], a connection state, a stream, the refresh of
    its own stream after a toggle, the removal of a participant, the
    reset of [cleanup]), all tiles have different identifiers. *)
Theorem tiles_never_duplicated (ts : list Participant) :
  tilesReachable ts -> NoDup (map id ts).
Proof.
  induction 1 as [|prev next _ IH Hstep].
  - constructor.
  - exact (tilesStep_unique Hstep IH).
Qed.

Lemma tiles_never_duplicated_witness :
  tilesReachable
    (showConnecting bob {| user_displayName := []; user_photoURL := [] |}
       (showConnecting bob {| user_displayName := []; user_photoURL := [] |}
          (showSelf aliceJoins [] []))) /\
  NoDup (map id
    (showConnecting bob {| user_displayName := []; user_photoURL := [] |}
       (showConnecting bob {| user_displayName := []; user_photoURL := [] |}
          (showSelf aliceJoins [] [])))).
Proof.
  assert (Hr : tilesReachable
    (showConnecting bob {| user_displayName := []; user_photoURL := [] |}
       (showConnecting bob {| user_displayName := []; user_photoURL := [] |}
          (showSelf aliceJoins [] [])))).
  { apply tiles_next with
      (prev := showConnecting bob {| user_displayName := []; user_photoURL := [] |}
                 (showSelf aliceJoins [] []));
      [|apply tiles_connecting].
    apply tiles_next with (prev := showSelf aliceJoins [] []);
      [|apply tiles_connecting].
    apply tiles_next with (prev := []); [apply tiles_mounted | apply tiles_self]. }
  split; [exact Hr|].
  exact (tiles_never_duplicated Hr).
Defined.

(** X6.  [cleanupParticipantConnection] takes away the tile and the
    peer connection of that participant and nothing else: the other
    tiles and connections stay, in order; the active participant is
    cleared only when the closure held that participant as active; the
    rest of the component state is left alone; and doing it again
    changes nothing. *)
Theorem participant_connection_removed
    (active : option js_string) (pid : js_string) (c : Component) :
  let c' := cleanupParticipantConnection active pid c in
  tiles c' = filter (fun p => negb (string_eqb (id p) pid)) (tiles c) /\
  peerConnections c' = without (peerConnections c) pid /\
  ~ In pid (map id (tiles c')) /\ ~ In pid (peerConnections c') /\
  activeParticipant c' =
    match active with
    | Some a => if string_eqb a pid then None else activeParticipant c
    | None => activeParticipant c
    end /\
  callId c' = callId c /\ isCallActive c' = isCallActive c /\
  localStream c' = localStream c /\ isMicMuted c' = isMicMuted c /\
  isVideoOff c' = isVideoOff c /\ onEndCall c' = onEndCall c /\
  cleanupParticipantConnection active pid c' = c'.
Proof.
  cbv zeta.
  assert (Hpc : peerConnections (cleanupParticipantConnection active pid c)
                = without (peerConnections c) pid).
  { unfold cleanupParticipantConnection. destruct c; simpl.
    destruct (includes peerConnections0 pid) eqn:Hin;
      destruct active as [a|]; simpl; try destruct (string_eqb a pid);
      simpl; try reflexivity;
      apply ParticipantsListener.includes_false in Hin; unfold without; symmetry;
      apply forallb_filter_id; apply forallb_forall; intros x Hx;
      apply negb_true_iff, string_eqb_neq; congruence. }
  split; [apply tiles_cleanupParticipantConnection|].
  split; [exact Hpc|].
  split.
  { rewrite tiles_cleanupParticipantConnection. intros Hin.
    apply in_map_iff in Hin. destruct Hin as (q & Hq & Hin).
    apply filter_In in Hin. destruct Hin as [_ Hin].
    apply negb_true_iff, string_eqb_neq in Hin. congruence. }
  split.
  { rewrite Hpc. intros Hin. apply without_In in Hin. tauto. }
  split.
  { unfold cleanupParticipantConnection. destruct c; simpl.
    destruct (includes _ pid); destruct active as [a|]; simpl;
      try destruct (string_eqb a pid); reflexivity. }
  assert (Hrest : forall c0,
    let c1 := cleanupParticipantConnection active pid c0 in
    callId c1 = callId c0 /\ isCallActive c1 = isCallActive c0 /\
    localStream c1 = localStream c0 /\ isMicMuted c1 = isMicMuted c0 /\
    isVideoOff c1 = isVideoOff c0 /\ onEndCall c1 = onEndCall c0).
  { intros c0. unfold cleanupParticipantConnection. destruct c0; simpl.
    destruct (includes _ pid); destruct active as [a|]; simpl;
      try destruct (string_eqb a pid); repeat split. }
  destruct (Hrest c) as (H1 & H2 & H3 & H4 & H5 & H6).
  repeat (split; [assumption|]).
  unfold cleanupParticipantConnection at 1.
  rewrite Hpc.
  assert (Hgone : includes (without (peerConnections c) pid) pid = false).
  { apply ParticipantsListener.includes_false. intros Hin. apply without_In in Hin. tauto. }
  rewrite Hgone.
  assert (Hf : forall l : list Participant,
    filter (fun p => negb (string_eqb (id p) pid))
      (filter (fun p => negb (string_eqb (id p) pid)) l)
    = filter (fun p => negb (string_eqb (id p) pid)) l).
  { intros l. induction l as [|p l IH]; simpl; [reflexivity|].
    destruct (negb (string_eqb (id p) pid)) eqn:E; simpl; [rewrite E|];
      now rewrite ?IH. }
  unfold cleanupParticipantConnection.
  destruct c; simpl in *.
  destruct (includes peerConnections0 pid); destruct active as [a|]; simpl;
    try destruct (string_eqb a pid); simpl; now rewrite Hf.
Qed.

End ParticipantTiles.

(* ================================================================= *)
(** * The history of the call records *)

Module CallHistory.

Import GroupVideoCall CallRecord GroupCallParticipants Triples Samples MoreSamples.

Lemma recordEvolves_refl d : recordEvolves d d.
Proof. unfold recordEvolves. tauto. Qed.

Lemma recordEvolves_trans d1 d2 d3 :
  recordEvolves d1 d2 -> recordEvolves d2 d3 -> recordEvolves d1 d3.
Proof.
  unfold recordEvolves.
  intros (A1 & A2 & A3 & A4 & A5) (B1 & B2 & B3 & B4 & B5).
  repeat split; try congruence.
  destruct B5 as [B5|B5]; [|now right].
  destruct A5 as [A5|A5]; [left | right]; congruence.
Qed.

Lemma recordEvolves_withParticipants ps d : recordEvolves d (withParticipants ps d).
Proof. destruct d; unfold recordEvolves; simpl; tauto. Qed.

Lemma recordEvolves_withEnded ps t d : recordEvolves d (withEnded ps t d).
Proof. destruct d; unfold recordEvolves; simpl; tauto. Qed.

Lemma Forall2_sameDocument_refl l : Forall2 sameDocument l l.
Proof.
  induction l; constructor; [|assumption].
  split; [reflexivity | apply recordEvolves_refl].
Qed.

Lemma storeEvolves_refl l : storeEvolves l l.
Proof.
  exists l, []. split; [now rewrite app_nil_r|].
  apply Forall2_sameDocument_refl.
Qed.

Lemma Forall2_sameDocument_trans l1 l2 l3 :
  Forall2 sameDocument l1 l2 -> Forall2 sameDocument l2 l3 ->
  Forall2 sameDocument l1 l3.
Proof.
  intros H12. revert l3. induction H12 as [|x y l l' Hxy _ IH]; intros l3 H23.
  - inversion H23. constructor.
  - inversion H23 as [|y' z l2' l3' Hyz Hrest]; subst.
    constructor; [|now apply IH].
    destruct Hxy as [Hx1 Hx2], Hyz as [Hy1 Hy2].
    split; [congruence | eapply recordEvolves_trans; eassumption].
Qed.

Lemma storeEvolves_trans l1 l2 l3 :
  storeEvolves l1 l2 -> storeEvolves l2 l3 -> storeEvolves l1 l3.
Proof.
  intros (k & a & -> & Hk) (k' & a' & -> & Hk').
  apply Forall2_app_inv_l in Hk'.
  destruct Hk' as (k1 & k2 & Hk1 & Hk2 & ->).
  exists k1, (k2 ++ a'). split; [now rewrite app_assoc|].
  exact (Forall2_sameDocument_trans Hk Hk1).
Qed.

Lemma storeEvolves_updateIn i f l :
  (forall d, recordEvolves d (f d)) -> storeEvolves l (updateIn i f l).
Proof.
  intros Hf. exists (updateIn i f l), []. split; [now rewrite app_nil_r|].
  induction l as [|[j d] l IH]; simpl; constructor; [|assumption].
  simpl. destruct (j =? i)%N; split; simpl;
    auto using recordEvolves_refl.
Qed.

Lemma storeEvolves_app l added : storeEvolves l (l ++ added).
Proof.
  exists l, added. split; [reflexivity|].
  apply Forall2_sameDocument_refl.
Qed.

(** ** Through the asynchronous functions *)

Section From.

Variable l0 : list (DocId * GroupCallData).

Lemma untouched_since {A} (m : M A) :
  untouched m -> triple (since l0) m (fun _ => (since l0)) (since l0).
Proof. intros H. exact (untouched_triple (storeEvolves l0) H). Qed.

Lemma untouched_getDoc i : untouched (getDoc_groupCall i).
Proof.
  unfold getDoc_groupCall.
  apply untouched_bind; [apply untouched_request|]. intros _.
  apply untouched_bind; [apply untouched_getWorld|]. intros w.
  apply untouched_ret.
Qed.

Lemma untouched_getDocs g : untouched (getDocs_groupCallsQuery g).
Proof.
  unfold getDocs_groupCallsQuery.
  apply untouched_bind; [apply untouched_request|]. intros _.
  apply untouched_bind; [apply untouched_getWorld|]. intros w.
  apply untouched_ret.
Qed.

Lemma updateDoc_since i f :
  (forall d, recordEvolves d (f d)) ->
  triple (since l0) (updateDoc_groupCall i f) (fun _ => (since l0)) (since l0).
Proof.
  intros Hf. unfold updateDoc_groupCall.
  eapply triple_bind; [apply untouched_since, untouched_request|].
  intros ? s Hs. unfold bind, getWorld, modifyWorld.
  destruct (lookupDoc i (groupCalls (world s))); simpl; [|exact Hs].
  unfold since; simpl. rewrite groupCalls_setGroupCalls.
  eapply storeEvolves_trans; [exact Hs | now apply storeEvolves_updateIn].
Qed.

Lemma addDoc_since callData :
  triple (since l0) (addDoc_groupCalls callData) (fun _ => (since l0)) (since l0).
Proof.
  unfold addDoc_groupCalls.
  eapply triple_bind; [apply untouched_since, untouched_request|].
  intros ? s Hs. unfold bind, getWorld, modifyWorld, ret; simpl.
  unfold since; simpl.
  rewrite groupCalls_setNextId, groupCalls_setGroupCalls.
  eapply storeEvolves_trans; [exact Hs | apply storeEvolves_app].
Qed.

Ltac quiet :=
  repeat first
    [ apply untouched_modify
    | apply untouched_ret
    | apply untouched_serverTimestamp
    | apply untouched_addDoc_groupMessages
    | apply untouched_acquireMedia
    | apply untouched_getDoc
    | apply untouched_getDocs
    | apply untouched_bind; [|intros ?] ].

Lemma cleanup_since props callId :
  triple (since l0) (cleanup props callId) (fun _ => (since l0)) (since l0).
Proof.
  unfold cleanup.
  do 4 (eapply triple_bind;
        [apply untouched_since, untouched_modify | intros ?; cbv beta]).
  eapply triple_bind with (Q := fun _ => (since l0)).
  - destruct callId as [i|]; [|now apply triple_ret].
    eapply triple_try with (E' := (since l0)); [|now apply triple_ret].
    eapply triple_bind; [apply untouched_since, untouched_getDoc|].
    intros [callData|]; cbv beta; [|now apply triple_ret].
    eapply triple_try with (E' := (since l0)); [|now apply triple_ret].
    destruct (negb _ || _).
    + eapply triple_bind; [apply untouched_since, untouched_serverTimestamp|].
      intros t. apply updateDoc_since. intros d. apply recordEvolves_withEnded.
    + apply updateDoc_since. intros d. apply recordEvolves_withParticipants.
  - intros ?; cbv beta. apply untouched_since. quiet.
Qed.

Lemma createOrJoin_since props :
  triple (since l0) (createOrJoin props) (fun _ => (since l0)) (since l0).
Proof.
  unfold createOrJoin.
  eapply triple_bind; [apply untouched_since, untouched_getDocs|].
  intros [|existingCall rest]; cbv beta.
  - eapply triple_bind; [apply untouched_since, untouched_serverTimestamp|].
    intros t.
    eapply triple_bind; [apply addDoc_since|].
    intros callDocId. apply untouched_since. quiet.
  - eapply triple_bind with (Q := fun _ => (since l0));
      [|intros ?; now apply triple_ret].
    destruct (negb _); [|now apply triple_ret].
    eapply triple_try with (E' := (since l0)); [|now apply triple_ret].
    eapply triple_bind.
    + apply updateDoc_since. intros d. apply recordEvolves_withParticipants.
    + intros ?; cbv beta. apply untouched_since. quiet.
Qed.

Lemma initializeCall_since props callId :
  triple (since l0) (initializeCall props callId) (fun _ => (since l0)) (since l0).
Proof.
  unfold initializeCall.
  eapply triple_try with (E' := (since l0)).
  - eapply triple_bind; [apply createOrJoin_since|].
    intros callDocId. apply untouched_since. quiet.
  - eapply triple_bind; [apply untouched_since, untouched_modify|].
    intros ?; cbv beta.
    eapply triple_bind; [apply cleanup_since|].
    intros ?; cbv beta. apply untouched_since, untouched_modify.
Qed.

End From.

Lemma step_evolves (w w' : World) :
  step w w' -> storeEvolves (groupCalls w) (groupCalls w').
Proof.
  intros Hstep. destruct Hstep as [props callId w c|props callId w c|w w' Hsame].
  - pose proof (@initializeCall_since (groupCalls w) props callId
                  {| world := w; comp := c |} (storeEvolves_refl _)) as H.
    now destruct (initializeCall props callId _).
  - pose proof (@cleanup_since (groupCalls w) props callId
                  {| world := w; comp := c |} (storeEvolves_refl _)) as H.
    now destruct (cleanup props callId _).
  - rewrite Hsame. apply storeEvolves_refl.
Qed.

Lemma storeEvolves_In l l' i d :
  storeEvolves l l' -> In (i, d) l ->
  exists d', In (i, d') l' /\ recordEvolves d d'.
Proof.
  intros (kept & added & -> & Hk) Hin.
  induction Hk as [|e e' l k He _ IH]; [destruct Hin|].
  destruct Hin as [->|Hin].
  - destruct e' as [j d']. destruct He as [Hj Hd]. simpl in *. subst j.
    exists d'. split; [now left | assumption].
  - destruct (IH Hin) as (d' & Hin' & Hd). exists d'. split; [now right | assumption].
Qed.

(** X7.  Call records are only ever added to and ended.  Over any
    number of [initializeCall] and [cleanup] runs, by anybody, with any
    request failing: every record that was there is still there, under
    its identifier, with its group, creator and start time; the
    collection has not become shorter; and a record whose status was
    'ended' still has it. *)
Theorem records_kept_and_never_reopened (w w' : World) :
  runs w w' ->
  storeEvolves (groupCalls w) (groupCalls w') /\
  List.length (groupCalls w) <= List.length (groupCalls w') /\
  forall i d, In (i, d) (groupCalls w) ->
    exists d', In (i, d') (groupCalls w') /\
               groupId d' = groupId d /\ creatorId d' = creatorId d /\
               startTime d' = startTime d /\
               (status d = of_string "ended" -> status d' = of_string "ended").
Proof.
  intros Hruns.
  assert (He : storeEvolves (groupCalls w) (groupCalls w')).
  { induction Hruns as [w|w w1 w2 Hstep _ IH]; [apply storeEvolves_refl|].
    eapply storeEvolves_trans; [apply step_evolves, Hstep | exact IH]. }
  split; [exact He|]. split.
  - destruct He as (kept & added & -> & Hk).
    rewrite length_app, <- (Forall2_length Hk). lia.
  - intros i d Hin.
    destruct (@storeEvolves_In _ _ _ _ He Hin) as (d' & Hin' & H1 & H2 & _ & H4 & H5).
    exists d'. repeat (split; [assumption|]).
    intros Hended. destruct H5 as [H5|H5]; congruence.
Qed.

Lemma records_kept_and_never_reopened_witness :
  runs afterAlice afterBobLeft /\
  List.length (groupCalls afterAlice) <= List.length (groupCalls afterBobLeft) /\
  exists d', In (0%N, d') (groupCalls afterBobLeft) /\
             creatorId d' = VString alice.
Proof.
  assert (Hr : runs afterAlice afterBobLeft).
  { apply runs_more with (w1 := afterBob);
      [exact (step_initializeCall bobJoins None afterAlice mounted)|].
    apply runs_more with (w1 := afterBobLeft);
      [exact (step_cleanup bobJoins (Some 0%N) afterBob mounted)|].
    apply runs_none. }
  split; [exact Hr|].
  destruct (records_kept_and_never_reopened Hr) as (_ & Hlen & Hall).
  split; [exact Hlen|].
  destruct (Hall 0%N (createdBy aliceJoins 1000%N)) as (d' & Hin & _ & Hc & _).
  { simpl. now left. }
  exists d'. split; [exact Hin | exact Hc].
Defined.

End CallHistory.

(* ================================================================= *)
(** * Joining and leaving, one after the other *)

Module CallCompositions.

Import GroupVideoCall CallRecord GroupCallParticipants Triples Samples MoreSamples.

Lemma joinedMessage props t :
  systemMessage props " joined the call" t =
  {| message_groupId := props_groupId props;
     senderId := currentUserId props;
     senderName := displayName props;
     content := displayName props ++ of_string " joined the call";
     timestamp := t;
     type := "system" |}.
Proof. reflexivity. Qed.

(** The record part with the store answering, state for state. *)
Lemma createOrJoin_exact props s i d rest :
  faults (world s) = [] ->
  filter (activeCallOf (props_groupId props)) (groupCalls (world s)) = (i, d) :: rest ->
  createOrJoin props s =
  Ok i (if includes (participantsOrEmpty d) (currentUserId props) then s
        else {| world :=
                  setGroupMessages
                    (groupMessages (world s)
                     ++ [systemMessage props " joined the call" (serverTime (world s))])
                    (setGroupCalls
                       (updateIn i (withParticipants
                                      (participantsOrEmpty d ++ [currentUserId props]))
                          (groupCalls (world s)))
                       (world s));
                comp := comp s |}).
Proof.
  intros Hf Hq. destruct s as [w c]. destruct w as [gc gm nid t fl gum].
  simpl in *. subst fl.
  unfold createOrJoin, getDocs_groupCallsQuery, bind, request, getWorld, ret; simpl.
  rewrite Hq. simpl.
  destruct (includes (participantsOrEmpty d) (currentUserId props)); simpl;
    [reflexivity|].
  assert (Hin : In (i, d) gc).
  { assert (H : In (i, d) (filter (activeCallOf (props_groupId props)) gc))
      by (rewrite Hq; now left).
    now apply filter_In in H. }
  destruct (CallLifecycle.In_lookupDoc _ _ _ Hin) as [d' Hd'].
  unfold try_catch, updateDoc_groupCall, serverTimestamp,
    addDoc_groupMessages, bind, request, getWorld, modifyWorld, ret; simpl.
  rewrite Hd'; simpl. reflexivity.
Qed.

(** [cleanup] with the store answering, state for state. *)
Lemma cleanup_exact props i s callData :
  faults (world s) = [] ->
  lookupDoc i (groupCalls (world s)) = Some callData ->
  let updatedParticipants :=
    without (participantsOrEmpty callData) (currentUserId props) in
  exists c',
    cleanup props (Some i) s =
    Ok tt {| world :=
               setGroupCalls
                 (updateIn i
                    (if negb (strict_neq_string (creatorId callData) (currentUserId props))
                        || (List.length updatedParticipants =? 0)%nat
                     then withEnded updatedParticipants (serverTime (world s))
                     else withParticipants updatedParticipants)
                    (groupCalls (world s)))
                 (world s);
             comp := c' |}.
Proof.
  intros Hf Hdoc upd.
  destruct s as [w c]. destruct w as [gc gm nid t fl gum]. simpl in *. subst fl.
  unfold cleanup, try_catch, getDoc_groupCall, bind, request, modify,
    getWorld, ret; simpl.
  rewrite Hdoc. fold upd.
  destruct (negb (strict_neq_string (creatorId callData) (currentUserId props))
            || (List.length upd =? 0)%nat).
  - unfold serverTimestamp, updateDoc_groupCall, bind, request, getWorld,
      modifyWorld, ret; simpl. rewrite Hdoc; simpl.
    eexists. reflexivity.
  - unfold updateDoc_groupCall, bind, request, getWorld, modifyWorld, ret; simpl.
    rewrite Hdoc; simpl. eexists. reflexivity.
Qed.

(** X8.  Joining a call one is already listed in changes nothing in
    the store: with the store answering, [initializeCall] of a user
    whom the first active record of the group lists completes, takes
    that record for its call, and leaves both collections as they
    were: no second entry, no second "joined" message. *)
Theorem rejoining_changes_nothing
    (props : GroupVideoCallProps) (callId0 : option DocId) (s : State)
    (i : DocId) (d : GroupCallData) (rest : list (DocId * GroupCallData)) :
  faults (world s) = [] ->
  filter (activeCallOf (props_groupId props)) (groupCalls (world s)) = (i, d) :: rest ->
  includes (participantsOrEmpty d) (currentUserId props) = true ->
  exists s',
    initializeCall props callId0 s = Ok tt s' /\
    world s' = world s /\
    callId (comp s') = Some i /\ isCallActive (comp s') = true.
Proof.
  intros Hf Hq Hinc.
  pose proof (createOrJoin_exact props s Hf Hq) as Hrec. rewrite Hinc in Hrec.
  destruct (CallLifecycle.initializeCall_completes props callId0 s Hrec)
    as (s' & H1 & H2 & H3 & _ & H5 & _).
  exists s'. now repeat split.
Qed.

Lemma rejoining_changes_nothing_witness :
  faults (world (opened afterBob)) = [] /\
  exists s',
    initializeCall bobJoins None (opened afterBob) = Ok tt s' /\
    world s' = afterBob.
Proof.
  split; [reflexivity|].
  destruct (@rejoining_changes_nothing bobJoins None (opened afterBob) 0%N
              (withParticipants [alice; bob] (createdBy aliceJoins 1000%N)) []
              eq_refl eq_refl eq_refl) as (s' & H1 & H2 & _).
  exists s'. split; [exact H1 | exact H2].
Defined.

Lemma without_app_self (ps : list js_string) (me : js_string) :
  ~ In me ps -> without (ps ++ [me]) me = ps.
Proof.
  intros Hnot. unfold without. rewrite filter_app. simpl.
  rewrite string_eqb_refl. simpl. rewrite app_nil_r.
  apply forallb_filter_id. apply forallb_forall. intros x Hx.
  apply negb_true_iff, string_eqb_neq. congruence.
Qed.

Lemma faults_setGroupMessages l w : faults (setGroupMessages l w) = faults w.
Proof. now destruct w. Qed.

Lemma faults_setGroupCalls l w : faults (setGroupCalls l w) = faults w.
Proof. now destruct w. Qed.

(** X9.  Joining and then leaving gives the record back.  A user who
    is neither listed nor the creator joins the first active call of
    the group, which has participants, and then leaves it from the
    component that joined (the store answering throughout): afterwards
    every call document reads exactly as before the join.  What stays
    is the "joined the call" message; there is none for the leaving. *)
Theorem join_then_leave_restores
    (props : GroupVideoCallProps) (callId0 : option DocId) (s : State)
    (i : DocId) (d : GroupCallData) (rest : list (DocId * GroupCallData))
    (ps : list js_string) :
  faults (world s) = [] ->
  filter (activeCallOf (props_groupId props)) (groupCalls (world s)) = (i, d) :: rest ->
  lookupDoc i (groupCalls (world s)) = Some d ->
  participants d = Some ps ->
  ~ In (currentUserId props) ps ->
  ps <> [] ->
  creatorId d <> VString (currentUserId props) ->
  exists s1 s2,
    initializeCall props callId0 s = Ok tt s1 /\
    cleanup props (callId (comp s1)) s1 = Ok tt s2 /\
    (forall j, lookupDoc j (groupCalls (world s2)) = lookupDoc j (groupCalls (world s))) /\
    groupMessages (world s2) =
      groupMessages (world s)
      ++ [systemMessage props " joined the call" (serverTime (world s))].
Proof.
  intros Hf Hq Hdoc Hps Hnot Hne Hcreator.
  assert (Hpoe : participantsOrEmpty d = ps)
    by (unfold participantsOrEmpty; now rewrite Hps).
  assert (Hinc : includes (participantsOrEmpty d) (currentUserId props) = false).
  { rewrite Hpoe. now apply ParticipantsListener.includes_false. }
  pose proof (createOrJoin_exact props s Hf Hq) as Hrec. rewrite Hinc, Hpoe in Hrec.
  destruct (CallLifecycle.initializeCall_completes props callId0 s Hrec)
    as (s1 & H1 & H2 & _ & _ & H5 & _).
  simpl in H2.
  assert (Hf1 : faults (world s1) = []).
  { rewrite H2, faults_setGroupMessages, faults_setGroupCalls. exact Hf. }
  assert (Hdoc1 : lookupDoc i (groupCalls (world s1))
                  = Some (withParticipants (ps ++ [currentUserId props]) d)).
  { rewrite H2, groupCalls_setGroupMessages, groupCalls_setGroupCalls.
    now apply CallLifecycle.lookupDoc_updateIn_same. }
  destruct (cleanup_exact props i s1 Hf1 Hdoc1) as [c2 Hc].
  rewrite DistinctParticipants.participants_withParticipants in Hc.
  rewrite (without_app_self _ _ Hnot) in Hc.
  assert (Hcond : negb (strict_neq_string
                          (creatorId (withParticipants (ps ++ [currentUserId props]) d))
                          (currentUserId props))
                  || (List.length ps =? 0)%nat = false).
  { apply orb_false_iff. split.
    - destruct (negb _) eqn:E; [|reflexivity].
      apply CallLifecycle.is_creator in E. destruct d; simpl in *. contradiction.
    - destruct ps; [contradiction | reflexivity]. }
  rewrite Hcond in Hc.
  exists s1. eexists. split; [exact H1|]. rewrite H5.
  split; [exact Hc|]. simpl.
  rewrite groupCalls_setGroupCalls. split.
  - intros j. rewrite H2, groupCalls_setGroupMessages, groupCalls_setGroupCalls.
    destruct (N.eq_dec j i) as [->|Hji].
    + rewrite (CallLifecycle.lookupDoc_updateIn_same _ _ _
                 (CallLifecycle.lookupDoc_updateIn_same _ _ _ Hdoc)).
      rewrite Hdoc. f_equal. destruct d; simpl in *. now rewrite Hps.
    + now rewrite !CallLifecycle.lookupDoc_updateIn_other.
  - rewrite H2. now destruct (world s).
Qed.

Lemma join_then_leave_restores_witness :
  faults (world (opened afterBob)) = [] /\
  exists s1 s2,
    initializeCall carolJoins None (opened afterBob) = Ok tt s1 /\
    cleanup carolJoins (callId (comp s1)) s1 = Ok tt s2 /\
    lookupDoc 0%N (groupCalls (world s2)) = lookupDoc 0%N (groupCalls afterBob).
Proof.
  split; [reflexivity|].
  destruct (@join_then_leave_restores carolJoins None (opened afterBob) 0%N
              (withParticipants [alice; bob] (createdBy aliceJoins 1000%N)) []
              [alice; bob] eq_refl eq_refl eq_refl eq_refl)
    as (s1 & s2 & H1 & H2 & H3 & _).
  - simpl. intros [H|[H|[]]]; discriminate.
  - discriminate.
  - discriminate.
  - exists s1, s2. split; [exact H1|]. split; [exact H2 | apply H3].
Defined.

(** X10.  A join that fails half way is not undone.  When the group has
    no active call and the store takes the new call record but rejects
    the system message that follows, [initializeCall] of the mount
    gives up (failure toast, [onEndCall], call not active, no [callId])
    and the [cleanup] it runs does not reach the store: the record it
    created stays, 'active', with the user as creator and only
    participant. *)
Theorem failed_join_leaves_record
    (props : GroupVideoCallProps) (s : State) (later : list bool) :
  faults (world s) = false :: false :: true :: later ->
  filter (activeCallOf (props_groupId props)) (groupCalls (world s)) = [] ->
  exists s',
    initializeCall props None s = Ok tt s' /\
    groupCalls (world s') =
      groupCalls (world s)
      ++ [(nextId (world s), createdBy props (serverTime (world s)))] /\
    memberOfActiveCall (currentUserId props) (props_groupId props)
      (nextId (world s)) (world s') /\
    groupMessages (world s') = groupMessages (world s) /\
    isCallActive (comp s') = false /\ callId (comp s') = None /\
    onEndCall (comp s') = S (onEndCall (comp s)) /\
    toasts (comp s') =
      toasts (comp s) ++ [ToastError "Failed to join call. Please try again."].
Proof.
  intros Hf Hq. destruct s as [w c]. destruct w as [gc gm nid t fl gum].
  simpl in *. subst fl.
  unfold initializeCall, try_catch, createOrJoin, getDocs_groupCallsQuery,
    bind, request, getWorld, ret; simpl.
  rewrite Hq.
  unfold serverTimestamp, addDoc_groupCalls, addDoc_groupMessages, cleanup,
    bind, request, getWorld, modifyWorld, modify, ret; simpl.
  eexists. split; [reflexivity|]. simpl.
  split; [reflexivity|]. split.
  - exists (createdBy props t), [currentUserId props]. simpl.
    split; [apply in_app_iff; right; now left|]. repeat split. now left.
  - destruct c; simpl. repeat split.
Qed.

Lemma failed_join_leaves_record_witness :
  faults (world (opened emptyWorldFlaky)) = [false; false; true] /\
  exists s',
    initializeCall aliceJoins None (opened emptyWorldFlaky) = Ok tt s' /\
    memberOfActiveCall alice family 0%N (world s') /\
    isCallActive (comp s') = false /\ onEndCall (comp s') = 1.
Proof.
  split; [reflexivity|].
  destruct (@failed_join_leaves_record aliceJoins (opened emptyWorldFlaky) []
              eq_refl eq_refl) as (s' & H1 & _ & H3 & _ & H5 & _ & H7 & _).
  exists s'. split; [exact H1|]. split; [exact H3|]. split; [exact H5 | exact H7].
Defined.

End CallCompositions.

(* ================================================================= *)
(** * The rotating quote *)

Module QuoteRotation.

Import QuoteCopy.

Lemma quoteIndexAfter_mod (n : nat) : quoteIndexAfter n = n mod 5.
Proof.
  induction n as [|n IH]; [reflexivity|].
  unfold quoteIndexAfter in *. rewrite Nat.iter_succ, IH.
  unfold nextQuoteIndex. change (List.length quotes) with 5.
  rewrite Nat.Div0.add_mod_idemp_l. f_equal. lia.
Qed.

(** X11.  The quote shown is always one of the five: after any number of
    ticks of the interval the index is the number of ticks modulo the
    number of quotes, so it is a valid index of [quotes], every quote
    gets its turn, and the same quote is back after exactly five
    ticks. *)
Theorem quote_index_cycles (n : nat) :
  quoteIndexAfter n = n mod List.length quotes /\
  quoteIndexAfter n < List.length quotes /\
  (exists q, shownQuote (quoteIndexAfter n) = Some q) /\
  quoteIndexAfter (n + List.length quotes) = quoteIndexAfter n /\
  (forall k, k < List.length quotes -> quoteIndexAfter k = k).
Proof.
  change (List.length quotes) with 5.
  rewrite !quoteIndexAfter_mod.
  assert (Hlt : n mod 5 < 5) by (apply Nat.mod_upper_bound; lia).
  split; [reflexivity|]. split; [exact Hlt|]. split.
  - unfold shownQuote.
    destruct (nth_error quotes (n mod 5)) as [q|] eqn:E; [now exists q|].
    apply nth_error_None in E. change (List.length quotes) with 5 in E. lia.
  - split.
    + rewrite <- (Nat.Div0.add_mod_idemp_r n 5 5). simpl (5 mod 5).
      now rewrite Nat.add_0_r.
    + intros k Hk. rewrite quoteIndexAfter_mod. now apply Nat.mod_small.
Qed.

End QuoteRotation.

(* ================================================================= *)
(** * The mute and camera buttons of the simple controls *)

Module SimpleToggles.

Import QuoteCopy.

Lemma flip_flip t : flip (flip t) = t.
Proof. destruct t; unfold flip; simpl. now rewrite negb_involutive. Qed.

Lemma map_flip_twice (sel : LocalTrack -> bool) (ts : list LocalTrack) :
  (forall t, sel (flip t) = sel t) ->
  map (fun t => if sel t then flip t else t)
    (map (fun t => if sel t then flip t else t) ts) = ts.
Proof.
  intros Hsel. rewrite map_map. rewrite <- (map_id ts) at 2.
  apply map_ext. intros t. destruct (sel t) eqn:E; [|now rewrite E].
  now rewrite Hsel, E, flip_flip.
Qed.

(** X12.  Pressing a button twice undoes it: [toggleMicrophone] and
    [toggleVideo] are each their own inverse on flags and tracks, they
    commute, the microphone button leaves the video tracks alone and
    the camera button the audio tracks, and without a local stream
    neither changes anything, not even its flag. *)
Theorem toggles_undo_themselves (c : Controls) :
  toggleMicrophone (toggleMicrophone c) = c /\
  toggleVideo (toggleVideo c) = c /\
  toggleMicrophone (toggleVideo c) = toggleVideo (toggleMicrophone c) /\
  (localTracks c = None -> toggleMicrophone c = c /\ toggleVideo c = c) /\
  (forall ts, localTracks c = Some ts ->
     exists ts' ts'',
       localTracks (toggleMicrophone c) = Some ts' /\
       filter isVideo ts' = filter isVideo ts /\
       localTracks (toggleVideo c) = Some ts'' /\
       filter isAudio ts'' = filter isAudio ts).
Proof.
  destruct c as [[ts|] m v]; unfold toggleMicrophone, toggleVideo; simpl.
  - split; [|split; [|split; [|split]]].
    + rewrite map_flip_twice, negb_involutive; [reflexivity|].
      intros t. now destruct t as [[|] e].
    + rewrite map_flip_twice, negb_involutive; [reflexivity|].
      intros t. now destruct t as [[|] e].
    + f_equal. f_equal. rewrite !map_map. apply map_ext.
      intros [[|] e]; reflexivity.
    + discriminate.
    + intros ts0 [= <-]. do 2 eexists.
      split; [reflexivity|]. split; [|split; [reflexivity|]].
      * induction ts as [|[[|] e] ts IH]; simpl; now rewrite ?IH.
      * induction ts as [|[[|] e] ts IH]; simpl; now rewrite ?IH.
  - repeat split; discriminate.
Qed.

Lemma toggleMicrophone_inSync c : inSync c -> inSync (toggleMicrophone c).
Proof.
  intros Hc ts t. destruct c as [[ts0|] m v]; unfold toggleMicrophone; simpl;
    [|discriminate].
  intros [= <-] Hin. apply in_map_iff in Hin. destruct Hin as (t0 & <- & Hin0).
  specialize (Hc ts0 t0 eq_refl Hin0). simpl in Hc.
  destruct t0 as [[|] e]; simpl in *; subst; now rewrite ?negb_involutive.
Qed.

Lemma toggleVideo_inSync c : inSync c -> inSync (toggleVideo c).
Proof.
  intros Hc ts t. destruct c as [[ts0|] m v]; unfold toggleVideo; simpl;
    [|discriminate].
  intros [= <-] Hin. apply in_map_iff in Hin. destruct Hin as (t0 & <- & Hin0).
  specialize (Hc ts0 t0 eq_refl Hin0). simpl in Hc.
  destruct t0 as [[|] e]; simpl in *; subst; now rewrite ?negb_involutive.
Qed.

(** X13.  The flags say what the tracks do.  From the stream as
    [getUserMedia] hands it over (every track enabled, nothing muted,
    camera on), after any sequence of presses of the two buttons, an
    audio track is enabled exactly when the microphone flag says
    unmuted and a video track exactly when the camera flag says on. *)
Theorem controls_stay_in_sync (kinds : GroupVideoCall.MediaStream) (c : Controls) :
  pressed (freshControls kinds) c -> inSync c.
Proof.
  intros Hp. remember (freshControls kinds) as c0 eqn:E.
  induction Hp as [c|c c' _ IH|c c' _ IH]; subst.
  - intros ts t [= <-] Hin. apply in_map_iff in Hin.
    destruct Hin as (k & <- & _). now destruct k.
  - apply toggleMicrophone_inSync. now apply IH.
  - apply toggleVideo_inSync. now apply IH.
Qed.

Lemma controls_stay_in_sync_witness :
  pressed (freshControls [GroupVideoCall.VideoTrack; GroupVideoCall.AudioTrack])
    (toggleVideo (toggleMicrophone
       (freshControls [GroupVideoCall.VideoTrack; GroupVideoCall.AudioTrack]))) /\
  inSync (toggleVideo (toggleMicrophone
       (freshControls [GroupVideoCall.VideoTrack; GroupVideoCall.AudioTrack]))).
Proof.
  assert (Hp : pressed
    (freshControls [GroupVideoCall.VideoTrack; GroupVideoCall.AudioTrack])
    (toggleVideo (toggleMicrophone
       (freshControls [GroupVideoCall.VideoTrack; GroupVideoCall.AudioTrack])))).
  { apply pressed_video, pressed_mic, pressed_none. }
  split; [exact Hp | exact (controls_stay_in_sync Hp)].
Defined.

End SimpleToggles.

(* ================================================================= *)
(** * The two copies of the group call, side by side *)

Module CopiesCompared.

Import GroupVideoCall CallRecord Samples MoreSamples.

Lemma bind_ext {A B} (m : M A) (k1 k2 : A -> M B) (s : State) :
  (forall a s', k1 a s' = k2 a s') -> bind m k1 s = bind m k2 s.
Proof.
  intros H. unfold bind. destruct (m s); [apply H | reflexivity].
Qed.

Lemma getDoc_result i s :
  (exists s', getDoc_groupCall i s = Throw s') \/
  (exists s', getDoc_groupCall i s = Ok (lookupDoc i (groupCalls (world s))) s').
Proof.
  unfold getDoc_groupCall, bind, request, getWorld, ret.
  destruct (faults (world s)) as [|[|] rest]; simpl; eauto.
  right. eexists. now rewrite Triples.groupCalls_setFaults.
Qed.

(** The part of the two [cleanup]s that talks to the store. *)
Lemma leave_copies_agree props i s :
  (forall d, lookupDoc i (groupCalls (world s)) = Some d -> participants d <> None) ->
  try_catch
    (callDoc <- getDoc_groupCall i ;;
     match callDoc with
     | Some callData =>
         match participants callData with
         | Some ps =>
             let updatedParticipants := without ps (currentUserId props) in
             if negb (strict_neq_string (creatorId callData) (currentUserId props))
                || (List.length updatedParticipants =? 0)%nat
             then
               endTime <- serverTimestamp ;;
               updateDoc_groupCall i (withEnded updatedParticipants endTime)
             else
               updateDoc_groupCall i (withParticipants updatedParticipants)
         | None => fun s => Throw s
         end
     | None => ret tt
     end)
    (ret tt) s
  =
  try_catch
    (callDoc <- getDoc_groupCall i ;;
     match callDoc with
     | Some callData =>
         let currentParticipants := participantsOrEmpty callData in
         let updatedParticipants :=
           without currentParticipants (currentUserId props) in
         try_catch
           (if negb (strict_neq_string (creatorId callData) (currentUserId props))
               || (List.length updatedParticipants =? 0)%nat
            then
              endTime <- serverTimestamp ;;
              updateDoc_groupCall i (withEnded updatedParticipants endTime)
            else
              updateDoc_groupCall i (withParticipants updatedParticipants))
           (ret tt)
     | None => ret tt
     end)
    (ret tt) s.
Proof.
  intros Hwf. unfold try_catch at 1 2. unfold bind at 1 3.
  destruct (getDoc_result i s) as [[s' H]|[s' H]]; rewrite H; [reflexivity|].
  destruct (lookupDoc i (groupCalls (world s))) as [d|]; [|reflexivity].
  specialize (Hwf d eq_refl). unfold participantsOrEmpty. cbv zeta.
  destruct (participants d) as [ps|]; [|contradiction].
  unfold try_catch.
  match goal with
  | |- match ?m s' with Ok _ _ => _ | Throw _ => _ end = _ => destruct (m s')
  end; reflexivity.
Qed.

(** X14.  The two copies of [cleanup] do the same whenever the record
    they find has a participants array: same store, same component
    state, for every closure, every state and every failing request. *)
Theorem cleanup_copies_agree
    (props : GroupVideoCallProps) (callId : option DocId) (s : State) :
  (forall i d, callId = Some i ->
               lookupDoc i (groupCalls (world s)) = Some d ->
               participants d <> None) ->
  QuoteCopy.cleanup props callId s = GroupVideoCall.cleanup props callId s.
Proof.
  intros Hwf. unfold QuoteCopy.cleanup, cleanup.
  destruct callId as [i|]; [|reflexivity].
  unfold bind at 1 2 3 4. unfold bind at 2 3 4 5.
  unfold modify at 1 2 3 4. unfold modify at 3 4 5 6. cbv beta iota.
  apply (f_equal (fun r => match r with
                           | Ok a s' => _ a s'
                           | Throw s' => Throw s'
                           end)).
  apply leave_copies_agree. simpl. intros d Hd. exact (Hwf i d eq_refl Hd).
Qed.

Lemma cleanup_copies_agree_witness :
  (forall i d, Some 0%N = Some i ->
               lookupDoc i (groupCalls (world (opened afterBob))) = Some d ->
               participants d <> None) /\
  QuoteCopy.cleanup bobJoins (Some 0%N) (opened afterBob)
  = GroupVideoCall.cleanup bobJoins (Some 0%N) (opened afterBob).
Proof.
  assert (H : forall i d, Some 0%N = Some i ->
               lookupDoc i (groupCalls (world (opened afterBob))) = Some d ->
               participants d <> None).
  { intros i d [= <-] Hd. simpl in Hd. injection Hd as <-. discriminate. }
  split; [exact H | exact (@cleanup_copies_agree bobJoins (Some 0%N) (opened afterBob) H)].
Defined.

(** X15.  The two copies part when the record has no participants
    array.  With the store answering: the first copy reads the missing
    array as empty, so nobody is left and it ends the call (status
    'ended', participants empty, end time written); the second copy
    throws on the missing array, catches the error and leaves the
    collection as it is. *)
Theorem cleanup_copies_differ
    (props : GroupVideoCallProps) (i : DocId) (s : State) (d : GroupCallData) :
  faults (world s) = [] ->
  lookupDoc i (groupCalls (world s)) = Some d ->
  participants d = None ->
  (exists s2,
     QuoteCopy.cleanup props (Some i) s = Ok tt s2 /\
     groupCalls (world s2) = groupCalls (world s)) /\
  (exists s1 after,
     GroupVideoCall.cleanup props (Some i) s = Ok tt s1 /\
     lookupDoc i (groupCalls (world s1)) = Some after /\
     status after = of_string "ended" /\
     participants after = Some [] /\
     endTime after = Some (serverTime (world s))).
Proof.
  intros Hf Hdoc Hnone. split.
  - destruct s as [w c]. destruct w as [gc gm nid t fl gum]. simpl in *. subst fl.
    unfold QuoteCopy.cleanup, try_catch, getDoc_groupCall, bind, request, modify,
      getWorld, ret; simpl.
    rewrite Hdoc, Hnone. simpl. eexists. split; reflexivity.
  - destruct (CallCompositions.cleanup_exact props i s Hf Hdoc) as [c' Hc].
    assert (Hpoe : participantsOrEmpty d = [])
      by (unfold participantsOrEmpty; now rewrite Hnone).
    rewrite Hpoe in Hc. simpl in Hc. rewrite orb_true_r in Hc.
    do 2 eexists. split; [exact Hc|]. simpl.
    rewrite Triples.groupCalls_setGroupCalls.
    split; [apply CallLifecycle.lookupDoc_updateIn_same, Hdoc|].
    destruct d; simpl. repeat split.
Qed.

Lemma cleanup_copies_differ_witness :
  faults (world (opened brokenWorld)) = [] /\
  lookupDoc 0%N (groupCalls (world (opened brokenWorld))) = Some brokenRecord /\
  (exists s2,
     QuoteCopy.cleanup bobJoins (Some 0%N) (opened brokenWorld) = Ok tt s2 /\
     groupCalls (world s2) = [(0%N, brokenRecord)]) /\
  (exists s1 after,
     GroupVideoCall.cleanup bobJoins (Some 0%N) (opened brokenWorld) = Ok tt s1 /\
     lookupDoc 0%N (groupCalls (world s1)) = Some after /\
     status after = of_string "ended").
Proof.
  split; [reflexivity|]. split; [reflexivity|].
  destruct (@cleanup_copies_differ bobJoins 0%N (opened brokenWorld) brokenRecord
              eq_refl eq_refl eq_refl)
    as [(s2 & H1 & H2) (s1 & after & H3 & H4 & H5 & _)].
  split.
  - exists s2. split; [exact H1 | exact H2].
  - exists s1, after. split; [exact H3|]. split; [exact H4 | exact H5].
Defined.

(** X16.  The second copy has no fallback for the media.  With the
    store answering and the first active record, if any, well formed:
    when [getUserMedia] refuses video with audio, [initializeCall] of
    the mount gives up (failure toast, [onEndCall], call not active, no
    local stream), and since the [cleanup] it runs does not reach the
    store the user stays listed in an active record of the group. *)
Theorem second_copy_join_needs_camera (props : GroupVideoCallProps) (s : State) :
  faults (world s) = [] ->
  getUserMedia (world s) true true = None ->
  (forall i d rest,
      filter (activeCallOf (props_groupId props)) (groupCalls (world s)) = (i, d) :: rest ->
      participants d <> None) ->
  exists s' i,
    QuoteCopy.initializeCall props None s = Ok tt s' /\
    memberOfActiveCall (currentUserId props) (props_groupId props) i (world s') /\
    isCallActive (comp s') = false /\ callId (comp s') = None /\
    localStream (comp s') = None /\
    onEndCall (comp s') = S (onEndCall (comp s)) /\
    toasts (comp s') =
      toasts (comp s)
      ++ [ToastError
            "Failed to start call. Please check your camera and microphone permissions."].
Proof.
  intros Hf Hgum Hwf. destruct s as [w c]. destruct w as [gc gm nid t fl gum].
  simpl in *. subst fl.
  unfold QuoteCopy.initializeCall, try_catch, QuoteCopy.createOrJoin,
    getDocs_groupCallsQuery, bind, request, getWorld, ret; simpl.
  destruct (filter (activeCallOf (props_groupId props)) gc) as [|[i d] rest] eqn:Hq.
  - unfold serverTimestamp, addDoc_groupCalls, addDoc_groupMessages,
      mediaDevices_getUserMedia, QuoteCopy.cleanup,
      bind, request, getWorld, modifyWorld, modify, ret; simpl.
    rewrite Hgum. simpl.
    eexists. exists nid. split; [reflexivity|]. simpl. split.
    + exists (createdBy props t), [currentUserId props]. simpl.
      split; [apply in_app_iff; right; now left|]. repeat split. now left.
    + destruct c; simpl. repeat split.
  - specialize (Hwf i d rest eq_refl).
    destruct (participants d) as [ps|] eqn:Hps; [|contradiction]. simpl.
    assert (Hin : In (i, d) (filter (activeCallOf (props_groupId props)) gc))
      by (rewrite Hq; now left).
    apply filter_In in Hin. destruct Hin as [Hin Hact].
    apply CallLifecycle.activeCallOf_true in Hact. simpl in Hact.
    destruct Hact as [Hg Hst].
    destruct (includes ps (currentUserId props)) eqn:Hinc; simpl.
    + unfold mediaDevices_getUserMedia, QuoteCopy.cleanup,
        bind, request, getWorld, modifyWorld, modify, ret; simpl.
      rewrite Hps, Hinc. simpl. rewrite Hgum. simpl.
      eexists. exists i. split; [reflexivity|]. simpl. split.
      * exists d, ps. apply includes_In in Hinc. now repeat split.
      * destruct c; simpl. repeat split.
    + destruct (CallLifecycle.In_lookupDoc _ _ _ Hin) as [d' Hd'].
      unfold updateDoc_groupCall, mediaDevices_getUserMedia, QuoteCopy.cleanup,
        bind, request, getWorld, modifyWorld, modify, ret; simpl.
      rewrite Hps, Hinc. simpl. rewrite Hd'. simpl. rewrite Hgum. simpl.
      eexists. exists i. split; [reflexivity|]. simpl. split.
      * exists (withParticipants (ps ++ [currentUserId props]) d),
          (ps ++ [currentUserId props]).
        split; [now apply CallLifecycle.In_updateIn|].
        destruct d; simpl in *. repeat split; try assumption.
        apply in_app_iff. right. now left.
      * destruct c; simpl. repeat split.
Qed.

Lemma second_copy_join_needs_camera_witness :
  faults (world (opened afterAlice)) = [] /\
  getUserMedia (world (opened afterAlice)) true true = None /\
  exists s' i,
    QuoteCopy.initializeCall bobJoins None (opened afterAlice) = Ok tt s' /\
    memberOfActiveCall bob family i (world s') /\
    isCallActive (comp s') = false /\ onEndCall (comp s') = 1.
Proof.
  split; [reflexivity|]. split; [reflexivity|].
  destruct (@second_copy_join_needs_camera bobJoins (opened afterAlice)
              eq_refl eq_refl) as (s' & i & H1 & H2 & H3 & _ & _ & H6 & _).
  - intros i d rest Hq. simpl in Hq. injection Hq as _ <- _. discriminate.
  - exists s', i. split; [exact H1|]. split; [exact H2|].
    split; [exact H3 | exact H6].
Defined.

(** X17.  The two copies treat an incoming candidate differently.  The
    second copy hands every added record of another sender to the
    engine at once, whatever its fields and whether or not there is a
    remote description, and the candidate the engine takes is appended.
    The first copy does the same only for a complete record with the
    remote description set; a record it finds incomplete (as every
    record of the first media line) it drops, and without a remote
    description it only schedules the retry. *)
Theorem copies_differ_on_candidates
    (engine : RTCIceCandidate -> bool) (currentUserId : js_string)
    (data : CandidateData) (pc : PeerConnection) :
  strict_neq_string (sender data) currentUserId = true ->
  engine (candidateOf data) = true ->
  let added :=
    {| remoteDescription := remoteDescription pc;
       remoteCandidates := remoteCandidates pc ++ [candidateOf data] |} in
  QuoteCopy.onCandidateChange engine currentUserId Added data pc = added /\
  (incomplete data = false -> remoteDescription pc <> None ->
   onCandidateChange engine currentUserId Added data pc = (added, [])) /\
  (incomplete data = true ->
   onCandidateChange engine currentUserId Added data pc = (pc, [])) /\
  (sdpMLineIndex data = VNumber 0 ->
   onCandidateChange engine currentUserId Added data pc = (pc, [])) /\
  (incomplete data = false -> remoteDescription pc = None ->
   onCandidateChange engine currentUserId Added data pc
   = (pc, [{| delay := 2000; retried := candidateOf data |}])).
Proof.
  intros Hs He added.
  assert (Hinc : incomplete data = true ->
                 onCandidateChange engine currentUserId Added data pc = (pc, [])).
  { intros Hi. unfold onCandidateChange. now rewrite Hs, Hi. }
  split; [|split; [|split; [exact Hinc|split]]].
  - unfold QuoteCopy.onCandidateChange, addIceCandidate. rewrite Hs.
    fold (candidateOf data). now rewrite He.
  - intros Hi Hd. unfold onCandidateChange, addIceCandidate. rewrite Hs, Hi.
    fold (candidateOf data).
    destruct (remoteDescription pc); [|contradiction]. now rewrite He.
  - intros H0. apply Hinc. unfold incomplete. now rewrite H0.
  - intros Hi Hd. unfold onCandidateChange. now rewrite Hs, Hi, Hd.
Qed.

Lemma copies_differ_on_candidates_witness :
  strict_neq_string (sender firstLineCandidate) alice = true /\
  QuoteCopy.onCandidateChange (fun _ => true) alice Added firstLineCandidate
    describedConnection
  = {| remoteDescription := Some someOffer;
       remoteCandidates := [candidateOf firstLineCandidate] |} /\
  onCandidateChange (fun _ => true) alice Added firstLineCandidate describedConnection
  = (describedConnection, []).
Proof.
  split; [reflexivity|].
  destruct (@copies_differ_on_candidates (fun _ => true) alice firstLineCandidate
              describedConnection eq_refl eq_refl) as (H1 & _ & _ & H4 & _).
  split; [exact H1 | exact (H4 eq_refl)].
Defined.

End CopiesCompared.

(* ================================================================= *)
(** * The one-to-one call from both ends *)

Module OneToOneProofs.

Import VideoCall OneToOneCall Samples MoreSamples OneToOneSamples.

Lemma deliver_null (events : list (option IceCandidateJSON)) (s : Store) :
  deliver (onicecandidate None) events s = s.
Proof.
  unfold deliver. induction events as [|ev events IH]; simpl; [reflexivity|].
  now rewrite CallerCandidates.onicecandidate_null.
Qed.

Lemma offerCandidatesOf_updateCall i j f s :
  offerCandidatesOf i (updateCall j f s) = offerCandidatesOf i s.
Proof. reflexivity. Qed.

Lemma offerCandidatesOf_fresh i s :
  (forall e, In e (offerCandidates s) -> fst e <> i) ->
  offerCandidatesOf i s = [].
Proof.
  intros Hfresh. unfold offerCandidatesOf.
  induction (offerCandidates s) as [|[j c] l IH]; [reflexivity|].
  cbn [filter fst]. destruct (N.eqb_spec j i) as [E|E].
  - exfalso. apply (Hfresh (j, c)); [now left | exact E].
  - apply IH. intros e' He'. apply Hfresh. now right.
Qed.

(** X18.  In a one-to-one call the callee never gets a candidate of the
    caller, while the callee's own are published.  The caller's view
    starts the call on mount; whatever candidates its connection then
    gathers, the callee who answers that call reads no offer candidate
    and its connection starts with none (the call document's identifier
    being new to the candidates collection).  The handler the callee
    installs stores every candidate under [answerCandidates] of the
    call. *)
Theorem callee_gets_no_caller_candidates
    (props : VideoCallProps) (env : StartEnv) (s : Store)
    (handler : option IceCandidateJSON -> Store -> Store) (r1 : Render) (s1 : Store)
    (events : list (option IceCandidateJSON))
    (aenv : AnswerEnv) (callee : Render) (incoming : CallData)
    (answering : option IceCandidateJSON -> Store -> Store)
    (pc : GroupVideoCall.PeerConnection)
    (answerSDP : GroupVideoCall.SessionDescription) (r2 : Render) (s2 : Store) :
  (forall e, In e (offerCandidates s) -> fst e <> nextId s) ->
  startOnMount props env s = Some (Calling handler r1 s1) ->
  incomingCall callee = Some (nextId s) ->
  answerCall aenv callee incoming (deliver handler events s1)
    = Answering answering pc answerSDP r2 s2 ->
  deliver handler events s1 = s1 /\
  GroupVideoCall.remoteCandidates pc = [] /\
  GroupVideoCall.remoteDescription pc = Some (offerSDP incoming) /\
  callDocId r2 = Some (nextId s) /\ isCallConnected r2 = true /\
  (exists d, In (nextId s, d) (calls s2) /\ answered d = true /\
             status d = of_string "active") /\
  forall c later,
    answerCandidates (answering (Some c) later)
    = answerCandidates later ++ [(nextId s, c)].
Proof.
  intros Hfresh Hstart Hinc Hans.
  unfold startOnMount in Hstart.
  destruct (targetUserId props) as [[|u us]|]; try discriminate.
  simpl in Hstart. injection Hstart as Hstart.
  destruct (CallerCandidates.startCall_handler _ _ _ _ Hstart)
    as (-> & _ & (callData & Hcalls) & Hoc).
  simpl in *. rewrite deliver_null in Hans |- *.
  split; [reflexivity|].
  unfold answerCall in Hans. rewrite Hinc in Hans.
  destruct (answer_getUserMedia_ok aenv); simpl in Hans;
    [|destruct (rejectCall _ callee s1); discriminate].
  destruct (setRemoteDescription_ok aenv); simpl in Hans;
    [|destruct (rejectCall _ callee s1); discriminate].
  destruct (createAnswer aenv) as [ans|];
    [|destruct (rejectCall _ callee s1); discriminate].
  destruct (answer_updateDoc_ok aenv && hasCall (nextId s) s1); simpl in Hans;
    [|destruct (rejectCall _ callee s1); discriminate].
  destruct (getDocs_ok aenv); simpl in Hans;
    [|destruct (rejectCall _ callee _); discriminate].
  injection Hans as <- <- <- <- <-.
  cbn [GroupVideoCall.remoteCandidates GroupVideoCall.remoteDescription
       callDocId isCallConnected].
  rewrite offerCandidatesOf_updateCall, offerCandidatesOf_fresh;
    [|now rewrite Hoc].
  repeat split.
  exists (withAnswer callData). split; [|split; reflexivity].
  unfold updateCall; cbn [calls]. rewrite Hcalls, map_app. simpl.
  rewrite N.eqb_refl. apply in_app_iff. right. now left.
Qed.

Lemma callee_gets_no_caller_candidates_witness :
  (forall e, In e (offerCandidates emptyCalls) -> fst e <> nextId emptyCalls) /\
  exists handler r1 s1 answering pc answerSDP r2 s2,
    startOnMount aliceCallsBob allWorks emptyCalls = Some (Calling handler r1 s1) /\
    answerCall bobAnswers bobRinging aliceToBob
      (deliver handler [Some hostIce1; Some hostIce] s1)
      = Answering answering pc answerSDP r2 s2 /\
    GroupVideoCall.remoteCandidates pc = [] /\
    answerCandidates (answering (Some hostIce1) s2) = [(0%N, hostIce1)].
Proof.
  assert (Hfresh : forall e, In e (offerCandidates emptyCalls) ->
                             fst e <> nextId emptyCalls) by (intros e []).
  split; [exact Hfresh|].
  do 8 eexists. split; [reflexivity|]. split; [reflexivity|].
  destruct (@callee_gets_no_caller_candidates aliceCallsBob allWorks emptyCalls
              _ _ _ [Some hostIce1; Some hostIce] bobAnswers bobRinging aliceToBob
              _ _ _ _ _ Hfresh eq_refl eq_refl eq_refl)
    as (_ & H2 & _ & _ & _ & _ & H7).
  split; [exact H2 | exact (H7 hostIce1 _)].
Defined.

(** X19.  Accepting an incoming call calls back.  The view that
    [IncomingCallAlert] opens on acceptance is given the caller as
    target, so on mount it places a call of its own: with media, offer
    and store cooperating a new document is added to [calls], with the
    accepting user as caller, the original caller as receiver, status
    'pending', unanswered; the documents already there, the incoming
    call among them, are left as they are. *)
Theorem accepting_places_a_new_call
    (me : js_string) (incoming : CallData) (env : StartEnv) (s : Store)
    (o : GroupVideoCall.SessionDescription) :
  callerId incoming <> [] ->
  getUserMedia_ok env = true -> createOffer env = Some o -> setDoc_ok env = true ->
  exists handler r' s',
    startOnMount (acceptedCallProps me incoming) env s = Some (Calling handler r' s') /\
    calls s' =
      calls s
      ++ [(nextId s,
           {| callerId := me; receiverId := callerId incoming; offerSDP := o;
              status := of_string "pending"; answered := false |})] /\
    callDocId r' = Some (nextId s) /\ isCalling r' = true /\
    incomingCall r' = None.
Proof.
  intros Hcaller Hm Ho Hw.
  unfold startOnMount, acceptedCallProps; cbn [targetUserId].
  destruct (callerId incoming) as [|u us] eqn:Hc; [contradiction|].
  cbn -[startCall]. unfold startCall; cbn [targetUserId currentUserId].
  rewrite Hm, Ho, Hw. cbn.
  do 3 eexists. split; [reflexivity|]. cbn. repeat split.
Qed.

Lemma accepting_places_a_new_call_witness :
  callerId aliceToBob <> [] /\
  exists handler r' s',
    startOnMount (acceptedCallProps bob aliceToBob) allWorks oneCall
      = Some (Calling handler r' s') /\
    calls s' =
      [(0%N, aliceToBob);
       (1%N, {| callerId := bob; receiverId := alice; offerSDP := someOffer;
                status := of_string "pending"; answered := false |})].
Proof.
  assert (H : callerId aliceToBob <> []) by discriminate.
  split; [exact H|].
  destruct (@accepting_places_a_new_call bob aliceToBob allWorks oneCall someOffer
              H eq_refl eq_refl eq_refl) as (h & r' & s' & H1 & H2 & _).
  exists h, r', s'. split; [exact H1 | exact H2].
Defined.

(** X20.  Ending a one-to-one call deletes its document and leaves its
    candidates behind.  [endCall] from a view that knows its call
    writes status 'ended' and then runs [cleanup]: the view is back in
    its initial state, the other calls are as before, and when the
    deletion goes through no document of [calls] has that identifier
    any more.  Whether or not the two writes go through, the records of
    [offerCandidates] and [answerCandidates] (those of the call among
    them) are all still there. *)
Theorem endCall_deletes_the_call
    (updateDoc_ok deleteDoc_ok : bool) (r : Render) (s : Store) (i : DocId) :
  callDocId r = Some i ->
  fst (endCall updateDoc_ok deleteDoc_ok r s) = mounted /\
  (deleteDoc_ok = true ->
   forall d, ~ In (i, d) (calls (snd (endCall updateDoc_ok deleteDoc_ok r s)))) /\
  (forall j d, j <> i ->
     (In (j, d) (calls (snd (endCall updateDoc_ok deleteDoc_ok r s)))
      <-> In (j, d) (calls s))) /\
  offerCandidates (snd (endCall updateDoc_ok deleteDoc_ok r s)) = offerCandidates s /\
  answerCandidates (snd (endCall updateDoc_ok deleteDoc_ok r s)) = answerCandidates s.
Proof.
  intros Hid. unfold endCall, cleanupWith, cleanup. rewrite Hid.
  assert (Hupd : forall j d, j <> i ->
    (In (j, d) (calls (updateCall i (withStatus (of_string "ended")) s))
     <-> In (j, d) (calls s))).
  { intros j d Hj. unfold updateCall; cbn [calls]. rewrite in_map_iff. split.
    - intros ([k e] & Heq & Hin). cbn [fst snd] in Heq.
      destruct (N.eqb_spec k i) as [->|Hk]; inversion Heq; subst;
        [contradiction | assumption].
    - intros Hin. exists (j, d). cbn [fst snd].
      destruct (N.eqb_spec j i); [contradiction | now split]. }
  split; [now destruct deleteDoc_ok|]. split; [|split].
  - intros -> d Hin. cbn [fst snd calls] in Hin.
    apply filter_In in Hin. destruct Hin as [_ Hin].
    cbn [fst] in Hin. now rewrite N.eqb_refl in Hin.
  - intros j d Hj. destruct deleteDoc_ok; cbn [fst snd calls].
    + rewrite filter_In. cbn [fst].
      destruct (N.eqb_spec j i) as [|_]; [contradiction|]. cbn [negb].
      destruct updateDoc_ok; [rewrite Hupd by assumption|]; tauto.
    + destruct updateDoc_ok; [apply Hupd; assumption | tauto].
  - now destruct updateDoc_ok, deleteDoc_ok.
Qed.

Lemma endCall_deletes_the_call_witness :
  callDocId aliceCalling = Some 0%N /\
  calls (snd (endCall true true aliceCalling oneCall)) = [] /\
  answerCandidates (snd (endCall true true aliceCalling oneCall)) = [(0%N, hostIce1)].
Proof.
  split; [reflexivity|].
  destruct (@endCall_deletes_the_call true true aliceCalling oneCall 0%N eq_refl)
    as (_ & Hgone & _ & _ & Hac).
  split; [|exact Hac].
  destruct (calls (snd (endCall true true aliceCalling oneCall))) as [|[j d] l] eqn:E;
    [reflexivity|].
  exfalso. assert (Hj : j = 0%N) by (cbv in E; discriminate).
  subst j. apply (Hgone eq_refl d). now left.
Defined.

End OneToOneProofs.

(* ================================================================= *)
(** * The group chat: sending a message *)

Module SendingMessages.

Import GroupChat Samples ChatSamples.

Lemma trimStart_blank (s : js_string) :
  (forall c, In c s -> isWhiteSpace c = true) -> trimStart s = [].
Proof.
  induction s as [|c s IH]; intros H; simpl; [reflexivity|].
  rewrite (H c) by now left. apply IH. intros c' Hc'. apply H. now right.
Qed.

Lemma trim_blank (s : js_string) :
  (forall c, In c s -> isWhiteSpace c = true) -> trim s = [].
Proof.
  intros H. unfold trim, trimEnd. rewrite (trimStart_blank s H). reflexivity.
Qed.

Lemma trimStart_length (s : js_string) :
  (List.length (trimStart s) <= List.length s)%nat.
Proof.
  induction s as [|c s IH]; simpl; [lia|].
  destruct (isWhiteSpace c); simpl; lia.
Qed.

Lemma trimStart_suffix (s : js_string) : exists p, s = p ++ trimStart s.
Proof.
  induction s as [|c s [p IH]]; simpl; [now exists []|].
  destruct (isWhiteSpace c); [|now exists []].
  exists (c :: p). simpl. now f_equal.
Qed.

Lemma trimStart_head (s : js_string) c t :
  trimStart s = c :: t -> isWhiteSpace c = false.
Proof.
  induction s as [|d s IH]; simpl; [discriminate|].
  destruct (isWhiteSpace d) eqn:E; [exact IH|].
  intros [= <- _]. exact E.
Qed.

Lemma trimStart_fixed c t : isWhiteSpace c = false -> trimStart (c :: t) = c :: t.
Proof. intros H. simpl. now rewrite H. Qed.

Lemma trim_length (s : js_string) : (List.length (trim s) <= List.length s)%nat.
Proof.
  unfold trim, trimEnd. rewrite length_rev.
  etransitivity; [apply trimStart_length|]. rewrite length_rev.
  apply trimStart_length.
Qed.

(** What [trim] leaves is a stretch of the string that neither starts
    nor ends with white space. *)
Lemma trim_spec (s : js_string) :
  exists before after,
    s = before ++ trim s ++ after /\
    (forall c, In c before -> isWhiteSpace c = true) /\
    (forall c, In c after -> isWhiteSpace c = true) /\
    (forall c t, trim s = c :: t -> isWhiteSpace c = false) /\
    (forall c t, trim s = t ++ [c] -> isWhiteSpace c = false).
Proof.
  assert (Hpre : forall x, exists p, x = p ++ trimStart x /\
                   forall c, In c p -> isWhiteSpace c = true).
  { induction x as [|c x (p & Hx & Hp)]; simpl; [now exists []|].
    destruct (isWhiteSpace c) eqn:E; [|now exists []].
    exists (c :: p). split; [simpl; now f_equal|].
    intros c' [<-|Hc']; [exact E | now apply Hp]. }
  destruct (Hpre s) as (before & Hs & Hbefore).
  destruct (Hpre (rev (trimStart s))) as (q & Hq & Hafter).
  exists before, (rev q). unfold trim, trimEnd.
  split; [|split; [exact Hbefore|split; [|split]]].
  - rewrite <- rev_app_distr, <- Hq, rev_involutive. exact Hs.
  - intros c Hc. apply Hafter. now apply in_rev.
  - intros c t Ht.
    destruct (trimStart s) as [|d u] eqn:Eu; [discriminate|].
    assert (Hd : isWhiteSpace d = false) by (eapply trimStart_head; exact Eu).
    assert (Hu : d :: u = (rev (trimStart (rev (d :: u)))) ++ rev q).
    { rewrite <- rev_app_distr, <- Hq. now rewrite rev_involutive. }
    rewrite Ht in Hu. simpl in Hu. now injection Hu as -> _.
  - intros c t Ht.
    apply (f_equal (@rev _)) in Ht. rewrite rev_involutive, rev_app_distr in Ht.
    simpl in Ht. eapply trimStart_head. exact Ht.
Qed.

Lemma preview_length (newMessage : js_string) :
  (List.length (preview newMessage) <= 33)%nat.
Proof.
  unfold preview. rewrite length_app.
  pose proof (firstn_le_length 30 (trim newMessage)) as Hcut.
  assert (Hmark : (List.length (if (30 <? List.length newMessage)%nat
                                then of_string "..." else []) <= 3)%nat)
    by (destruct (30 <? List.length newMessage)%nat; cbv; lia).
  lia.
Qed.

Lemma trim_nonblank (s : js_string) :
  (exists c, In c s /\ isWhiteSpace c = false) -> trim s <> [].
Proof.
  intros (c & Hin & Hc) Hempty.
  destruct (trim_spec s) as (before & after & Hs & Hb & Ha & _).
  rewrite Hempty in Hs. simpl in Hs. rewrite Hs in Hin.
  apply in_app_or in Hin. destruct Hin as [Hin|Hin].
  - rewrite (Hb c Hin) in Hc. discriminate.
  - rewrite (Ha c Hin) in Hc. discriminate.
Qed.

(** [updateReadStatus] returns normally whatever the store does, and
    touches nothing but the read-status collection, the identifier
    counter and the fault schedule. *)
Lemma updateReadStatus_returns (r : Render) (s : State) :
  exists s',
    updateReadStatus r s = Ok tt s' /\
    groups (db s') = groups (db s) /\
    groupMessages (db s') = groupMessages (db s) /\
    serverTime (db s') = serverTime (db s) /\
    input s' = input s /\ toasts s' = toasts s.
Proof.
  unfold updateReadStatus.
  destruct (currentUser r) as [user|]; [|now exists s].
  destruct (groupId r) as [|g0 g]; [now exists s|].
  destruct (userIdOf user) as [userId|]; [|now exists s].
  destruct s as [d fl inp ts].
  unfold try_catch, getDocs_readStatus, serverTimestamp,
    addDoc_readStatus, updateDoc_readStatus, bind, request, ret, setFaults, setDb;
    simpl.
  assert (Hdone : forall (x : result unit),
            (exists d' fl',
               x = Ok tt {| db := d'; faults := fl'; input := inp; toasts := ts |} /\
               groups d' = groups d /\ groupMessages d' = groupMessages d /\
               serverTime d' = serverTime d) ->
            exists s', x = Ok tt s' /\
              groups (db s') = groups d /\ groupMessages (db s') = groupMessages d /\
              serverTime (db s') = serverTime d /\ input s' = inp /\ toasts s' = ts).
  { intros x (d' & fl' & -> & H1 & H2 & H3). eexists. split; [reflexivity|].
    now repeat split. }
  apply Hdone.
  destruct fl as [|[|] fl]; simpl;
    try (do 2 eexists; split; [reflexivity|now repeat split]);
    destruct (filter _ (groupReadStatus d)) as [|first rest]; simpl;
    try destruct fl as [|[|] fl]; simpl;
    repeat match goal with
           | |- context [if ?b then _ else _] => destruct b
           end;
    do 2 eexists; (split; [reflexivity|now repeat split]).
Qed.

(** X21.  A message of white space only is not sent: [handleSendMessage]
    then makes no request, shows nothing and leaves the input as it
    is. *)
Theorem blank_message_is_not_sent (r : Render) (s : State) :
  (forall c, In c (newMessage r) -> isWhiteSpace c = true) ->
  handleSendMessage r s = Ok tt s.
Proof.
  intros Hblank. unfold handleSendMessage. now rewrite (trim_blank _ Hblank).
Qed.

Lemma In_updated (g : js_string) (f : GroupData -> GroupData) l d :
  In (g, d)
     (map (fun e : js_string * GroupData =>
             if string_eqb (fst e) g then (fst e, f (snd e)) else e) l) ->
  exists d0, In (g, d0) l /\ d = f d0.
Proof.
  rewrite in_map_iff. intros ([k e] & Heq & Hin). cbn [fst snd] in Heq.
  destruct (string_eqb k g) eqn:E.
  - injection Heq as -> <-. now exists e.
  - injection Heq as -> ->. rewrite JSFacts.string_eqb_refl in E. discriminate.
Qed.

Lemma In_not_updated (g g' : js_string) (f : GroupData -> GroupData) l d :
  g' <> g ->
  (In (g', d)
      (map (fun e : js_string * GroupData =>
              if string_eqb (fst e) g then (fst e, f (snd e)) else e) l)
   <-> In (g', d) l).
Proof.
  intros Hne. rewrite in_map_iff. split.
  - intros ([k e] & Heq & Hin). cbn [fst snd] in Heq.
    destruct (string_eqb k g) eqn:E.
    + injection Heq as -> <-. apply JSFacts.string_eqb_eq in E. contradiction.
    + now injection Heq as -> ->.
  - intros Hin. exists (g', d). cbn [fst snd].
    destruct (string_eqb g' g) eqn:E; [|now split].
    apply JSFacts.string_eqb_eq in E. contradiction.
Qed.

Lemma handleSendMessage_sends (r : Render) (s : State) (user : User) (userId : js_string) :
  currentUser r = Some user -> userIdOf user = Some userId ->
  groupId r <> [] ->
  (exists c, In c (newMessage r) /\ isWhiteSpace c = false) ->
  hasGroup (groupId r) (db s) = true ->
  nth 0 (faults s) false = false -> nth 1 (faults s) false = false ->
  exists s',
    handleSendMessage r s = Ok tt s' /\
    groupMessages (db s') =
      groupMessages (db s)
      ++ [(nextId (db s),
           {| message_groupId := groupId r;
              senderId := userId;
              senderName := orLiteral (displayName user) (of_string "User");
              content := trim (newMessage r);
              timestamp := serverTime (db s);
              type := "text" |})] /\
    (forall d, In (groupId r, d) (groups (db s')) ->
       lastMessage d = Some (preview (newMessage r)) /\
       lastMessageSender d = Some userId /\
       lastMessageTime d = Some (serverTime (db s))) /\
    (forall g d, g <> groupId r ->
       (In (g, d) (groups (db s')) <-> In (g, d) (groups (db s)))) /\
    (List.length (preview (newMessage r)) <= 33)%nat /\
    input s' = [] /\ toasts s' = toasts s.
Proof.
  intros Hu Hid Hg Hnb Hhas H0 H1.
  pose proof (trim_nonblank _ Hnb) as Ht.
  pose proof (updateReadStatus_returns r) as Hurs.
  pose proof (preview_length (newMessage r)) as Hlen.
  unfold handleSendMessage. rewrite Hu, Hid.
  set (urs := updateReadStatus r) in *.
  destruct (trim (newMessage r)) as [|c0 t0] eqn:Etrim; [contradiction|].
  destruct (groupId r) as [|g0 g] eqn:Eg; [contradiction|].
  destruct s as [d fl inp ts]; simpl in *.
  unfold hasGroup in Hhas.
  unfold try_catch, addDoc_groupMessages, updateDoc_group, serverTimestamp,
    hasGroup, bind, request, modify, setFaults, setDb.
  destruct fl as [|[|] [|[|] fl]]; simpl in *; try discriminate;
    rewrite Hhas;
    match goal with
    | |- context [urs ?st] =>
        destruct (Hurs st) as (s2 & -> & Hgs & Hms & _ & Hin & Hts)
    end; simpl in *;
    (eexists; split; [reflexivity|]); simpl;
    rewrite Hgs, Hms;
    (split; [reflexivity|]);
    (split; [intros d0 Hd0; apply In_updated in Hd0;
             destruct Hd0 as (d1 & _ & ->); now repeat split|]);
    (split; [intros g' d0 Hne; now apply In_not_updated|]);
    (split; [exact Hlen|]); (split; [reflexivity | exact Hts]).
Qed.

Lemma blank_message_is_not_sent_witness :
  (forall c, In c (newMessage (typing aliceUser blank)) -> isWhiteSpace c = true) /\
  handleSendMessage (typing aliceUser blank) (chatting [] blank)
  = Ok tt (chatting [] blank).
Proof.
  assert (H : forall c, In c (newMessage (typing aliceUser blank)) ->
                        isWhiteSpace c = true)
    by (intros c [<-|[<-|[<-|[<-|[]]]]]; reflexivity).
  split; [exact H|].
  exact (@blank_message_is_not_sent (typing aliceUser blank) (chatting [] blank) H).
Defined.

(** X22.  A message with something in it, typed by a signed-in user in
    a group that exists, is sent when the first two requests go
    through: its trimmed text is added to [groupMessages] as a 'text'
    message of that user, the group document gets the preview (33 code
    units at most), the sender and the time as last message, the other
    groups stay as they are, and the input is cleared without a toast,
    whatever happens to the read status afterwards. *)
Theorem message_sent (r : Render) (s : State) (user : User) (userId : js_string) :
  currentUser r = Some user -> userIdOf user = Some userId ->
  groupId r <> [] ->
  (exists c, In c (newMessage r) /\ isWhiteSpace c = false) ->
  hasGroup (groupId r) (db s) = true ->
  nth 0 (faults s) false = false -> nth 1 (faults s) false = false ->
  exists s',
    handleSendMessage r s = Ok tt s' /\
    groupMessages (db s') =
      groupMessages (db s)
      ++ [(nextId (db s),
           {| message_groupId := groupId r;
              senderId := userId;
              senderName := orLiteral (displayName user) (of_string "User");
              content := trim (newMessage r);
              timestamp := serverTime (db s);
              type := "text" |})] /\
    (forall d, In (groupId r, d) (groups (db s')) ->
       lastMessage d = Some (preview (newMessage r)) /\
       lastMessageSender d = Some userId /\
       lastMessageTime d = Some (serverTime (db s))) /\
    (forall g d, g <> groupId r ->
       (In (g, d) (groups (db s')) <-> In (g, d) (groups (db s)))) /\
    (List.length (preview (newMessage r)) <= 33)%nat /\
    input s' = [] /\ toasts s' = toasts s.
Proof. apply handleSendMessage_sends. Qed.

Lemma message_sent_witness :
  exists s',
    handleSendMessage (typing aliceUser hello) (chatting [false; false; true] hello)
    = Ok tt s' /\
    map (fun e => content (snd e)) (groupMessages (db s')) = [of_string "hello"] /\
    input s' = [].
Proof.
  assert (Hnb : exists c, In c (newMessage (typing aliceUser hello)) /\
                          isWhiteSpace c = false)
    by (exists 104%N; split; [simpl; tauto | reflexivity]).
  assert (Hg : groupId (typing aliceUser hello) <> []) by discriminate.
  destruct (@message_sent (typing aliceUser hello)
              (chatting [false; false; true] hello) aliceUser alice
              eq_refl eq_refl Hg Hnb eq_refl eq_refl eq_refl)
    as (s' & Hrun & Hms & _ & _ & _ & Hin & _).
  exists s'. split; [exact Hrun|]. split; [|exact Hin].
  rewrite Hms. reflexivity.
Defined.

(** X23.  The ellipsis of the preview goes by the typed length, not by
    what is shown.  When the trimmed message has 30 code units at most
    the preview shows all of it; it is followed by '...' exactly when
    the message as typed, white space included, has more than 30. *)
Theorem preview_marks_by_typed_length (newMessage : js_string) :
  (List.length (trim newMessage) <= 30)%nat ->
  ((List.length newMessage <= 30)%nat -> preview newMessage = trim newMessage) /\
  ((30 < List.length newMessage)%nat ->
   preview newMessage = trim newMessage ++ of_string "...").
Proof.
  intros Hshort. unfold preview. rewrite firstn_all2 by exact Hshort. split.
  - intros Hle. apply Nat.ltb_ge in Hle. rewrite Hle. apply app_nil_r.
  - intros Hlt. apply Nat.ltb_lt in Hlt. now rewrite Hlt.
Qed.

Lemma preview_marks_by_typed_length_witness :
  (List.length (trim padded) <= 30)%nat /\
  preview padded = of_string "the quick brown fox jumps ove...".
Proof.
  assert (H : (List.length (trim padded) <= 30)%nat) by (vm_compute; lia).
  split; [exact H|].
  destruct (@preview_marks_by_typed_length padded H) as [_ Hmark].
  rewrite Hmark by (vm_compute; lia). reflexivity.
Defined.

(** X24.  A send that fails half way can be repeated, and then the
    message is there twice.  When the store takes the message but
    rejects the update of the group document, [handleSendMessage] shows
    the failure toast and keeps the input, the message already stored;
    sending again from that render at some later time, with the store
    answering, stores the same text of the same sender under the next
    identifier and clears the input. *)
Theorem retried_message_is_stored_twice
    (r : Render) (s : State) (user : User) (userId : js_string)
    (rest : list bool) (later : Timestamp) :
  currentUser r = Some user -> userIdOf user = Some userId ->
  groupId r <> [] ->
  (exists c, In c (newMessage r) /\ isWhiteSpace c = false) ->
  hasGroup (groupId r) (db s) = true ->
  faults s = false :: true :: false :: false :: rest ->
  let sent t :=
    {| message_groupId := groupId r;
       senderId := userId;
       senderName := orLiteral (displayName user) (of_string "User");
       content := trim (newMessage r);
       timestamp := t;
       type := "text" |} in
  exists s1 s2,
    handleSendMessage r s = Ok tt s1 /\
    input s1 = input s /\
    toasts s1 = toasts s ++ [ToastError "Failed to send message"] /\
    groups (db s1) = groups (db s) /\
    groupMessages (db s1)
    = groupMessages (db s) ++ [(nextId (db s), sent (serverTime (db s)))] /\
    handleSendMessage r (atTime later s1) = Ok tt s2 /\
    groupMessages (db s2) =
      groupMessages (db s)
      ++ [(nextId (db s), sent (serverTime (db s)));
          (N.succ (nextId (db s)), sent later)] /\
    input s2 = [].
Proof.
  intros Hu Hid Hg Hnb Hhas Hf sent.
  pose proof (trim_nonblank _ Hnb) as Ht.
  destruct s as [d fl inp ts]; simpl in Hf, Hhas; subst fl.
  set (d1 := {| groups := groups d;
                groupMessages := groupMessages d ++ [(nextId d, sent (serverTime d))];
                groupReadStatus := groupReadStatus d;
                nextId := N.succ (nextId d);
                serverTime := serverTime d |}).
  set (s1 := {| db := d1; faults := false :: false :: rest; input := inp;
                toasts := ts ++ [ToastError "Failed to send message"] |}).
  assert (H1 : handleSendMessage r
                 {| db := d; faults := false :: true :: false :: false :: rest;
                    input := inp; toasts := ts |} = Ok tt s1).
  { unfold handleSendMessage. rewrite Hu, Hid.
    subst sent s1 d1.
    destruct (trim (newMessage r)) as [|c0 t0]; [contradiction|].
    destruct (groupId r) as [|g0 g]; [contradiction|].
    reflexivity. }
  destruct (@handleSendMessage_sends r (atTime later s1) user userId Hu Hid Hg Hnb
              Hhas eq_refl eq_refl)
    as (s2 & H2 & Hms & _ & _ & _ & Hin & _).
  exists s1, s2. simpl.
  split; [exact H1|]. repeat (split; [reflexivity|]).
  split; [exact H2|]. split; [|exact Hin].
  rewrite Hms. simpl. rewrite <- app_assoc. reflexivity.
Qed.

Lemma retried_message_is_stored_twice_witness :
  exists s2,
    map (fun e => (fst e, content (snd e), timestamp (snd e))) (groupMessages (db s2))
    = [(0%N, of_string "hello", 1000%N); (1%N, of_string "hello", 1007%N)].
Proof.
  assert (Hnb : exists c, In c (newMessage (typing aliceUser hello)) /\
                          isWhiteSpace c = false)
    by (exists 104%N; split; [simpl; tauto | reflexivity]).
  assert (Hg : groupId (typing aliceUser hello) <> []) by discriminate.
  destruct (@retried_message_is_stored_twice (typing aliceUser hello)
              (chatting [false; true; false; false] hello) aliceUser alice []
              1007%N eq_refl eq_refl Hg Hnb eq_refl eq_refl)
    as (s1 & s2 & _ & _ & _ & _ & _ & _ & Hms & _).
  exists s2. rewrite Hms. reflexivity.
Defined.

End SendingMessages.

(* ================================================================= *)
(** * The group chat: read status *)

Module ReadStatusProofs.

Import GroupChat Samples ChatSamples.

Lemma keeps_ret P A (a : A) : keeps P (ret a).
Proof. intros s H; exact H. Qed.

Lemma keeps_throw P A : keeps P (@throw A).
Proof. intros s H; exact H. Qed.

Lemma keeps_bind P A B (m : M A) (k : A -> M B) :
  keeps P m -> (forall a, keeps P (k a)) -> keeps P (bind m k).
Proof.
  intros Hm Hk s H. unfold bind. specialize (Hm s H).
  destruct (m s) as [a s1|s1]; [apply (Hk a s1 Hm) | exact Hm].
Qed.

Lemma keeps_try P A (m h : M A) :
  keeps P m -> keeps P h -> keeps P (try_catch m h).
Proof.
  intros Hm Hh s H. unfold try_catch. specialize (Hm s H).
  destruct (m s) as [a s1|s1]; [exact Hm | apply (Hh s1 Hm)].
Qed.

Lemma keeps_request P : keeps P request.
Proof. intros s H. unfold request. now destruct (faults s) as [|[|] fl]. Qed.

Lemma keeps_serverTimestamp P : keeps P serverTimestamp.
Proof. intros s H; exact H. Qed.

Lemma keeps_modify P (f : State -> State) :
  (forall s, db (f s) = db s) -> keeps P (modify f).
Proof. intros Hf s H. unfold modify. now rewrite Hf. Qed.

(** Writes to the other collections. *)
Lemma keeps_addDoc_groupMessages m : keeps oneStatusEach (addDoc_groupMessages m).
Proof.
  apply keeps_bind; [apply keeps_request|]. intros _ s H. exact H.
Qed.

Lemma keeps_updateDoc_group g f : keeps oneStatusEach (updateDoc_group g f).
Proof.
  unfold updateDoc_group. destruct g as [|g0 g]; [apply keeps_throw|].
  apply keeps_bind; [apply keeps_request|]. intros _ s H.
  destruct (hasGroup (g0 :: g) (db s)); exact H.
Qed.

(** A status added for a group and user that had none. *)
Lemma one_after_add (l : list (DocId * ReadStatus)) i g u t :
  (forall g' u', (List.length (filter (statusOf g' u') l) <= 1)%nat) ->
  filter (statusOf g u) l = [] ->
  forall g' u',
    (List.length
       (filter (statusOf g' u')
          (l ++ [(i, {| status_groupId := g; status_userId := u;
                        lastReadTimestamp := t |})])) <= 1)%nat.
Proof.
  intros Hone Hnone g' u'. rewrite filter_app, length_app.
  cbn [filter]. unfold statusOf at 2. cbn [snd status_groupId status_userId].
  destruct (string_eqb g g') eqn:Eg; [|cbn; rewrite Nat.add_0_r; apply Hone].
  destruct (string_eqb u u') eqn:Eu; [|cbn; rewrite Nat.add_0_r; apply Hone].
  apply JSFacts.string_eqb_eq in Eg, Eu. subst g' u'.
  rewrite Hnone. cbn. lia.
Qed.

(** An update of the time of one status. *)
Lemma one_after_update (l : list (DocId * ReadStatus)) i t g u :
  filter (statusOf g u)
    (map (fun e : DocId * ReadStatus =>
            if (fst e =? i)%N then (fst e, withLastRead t (snd e)) else e) l)
  = map (fun e : DocId * ReadStatus =>
           if (fst e =? i)%N then (fst e, withLastRead t (snd e)) else e)
        (filter (statusOf g u) l).
Proof.
  induction l as [|[j r] l IH]; [reflexivity|].
  cbn [map filter fst snd].
  assert (Hsame : statusOf g u (if (j =? i)%N then (j, withLastRead t r) else (j, r))
                  = statusOf g u (j, r)) by now destruct (j =? i)%N.
  rewrite Hsame. destruct (statusOf g u (j, r)); [|exact IH].
  cbn [map fst snd]. now rewrite IH.
Qed.

Lemma keeps_updateReadStatus r : keeps oneStatusEach (updateReadStatus r).
Proof.
  unfold updateReadStatus.
  destruct (currentUser r) as [user|]; [|apply keeps_ret].
  destruct (groupId r) as [|g0 g]; [apply keeps_ret|].
  apply keeps_try; [|apply keeps_ret].
  destruct (userIdOf user) as [userId|]; [|apply keeps_throw].
  intros s H. unfold bind at 1, getDocs_readStatus, bind at 1.
  pose proof (@keeps_request oneStatusEach s H) as Hreq.
  destruct (request s) as [[] s1|s1]; [|exact Hreq].
  destruct (filter (statusOf (g0 :: g) userId) (groupReadStatus (db s1)))
    as [|first rest] eqn:Eq.
  - unfold bind, serverTimestamp, addDoc_readStatus, bind.
    pose proof (@keeps_request oneStatusEach s1 Hreq) as Hreq2.
    destruct (request s1) as [[] s2|s2] eqn:E2; [|exact Hreq2].
    assert (Hdb : db s2 = db s1).
    { unfold request in E2. destruct (faults s1) as [|[|] fl];
        inversion E2; reflexivity. }
    unfold ret, setDb; cbn [db]. intros g' u'. cbn [groupReadStatus].
    rewrite Hdb. apply one_after_add; [exact Hreq | exact Eq].
  - unfold bind, serverTimestamp, updateDoc_readStatus, bind.
    pose proof (@keeps_request oneStatusEach s1 Hreq) as Hreq2.
    destruct (request s1) as [[] s2|s2] eqn:E2; [|exact Hreq2].
    match goal with
    | |- context [if ?b then _ else _] => destruct b; [|exact Hreq2]
    end.
    unfold setDb; cbn [db]. intros g' u'. cbn [groupReadStatus].
    rewrite one_after_update, length_map. apply Hreq2.
Qed.

Lemma keeps_handleSendMessage r : keeps oneStatusEach (handleSendMessage r).
Proof.
  unfold handleSendMessage.
  destruct (trim (newMessage r)); [apply keeps_ret|].
  destruct (currentUser r) as [user|]; [|apply keeps_ret].
  destruct (groupId r) as [|g0 g]; [apply keeps_ret|].
  apply keeps_try; [|now apply keeps_modify].
  destruct (userIdOf user) as [userId|]; [|apply keeps_throw].
  apply keeps_bind; [apply keeps_serverTimestamp|]. intros t.
  apply keeps_bind; [apply keeps_addDoc_groupMessages|]. intros _.
  apply keeps_bind; [apply keeps_serverTimestamp|]. intros t'.
  apply keeps_bind; [apply keeps_updateDoc_group|]. intros _.
  apply keeps_bind; [apply keeps_updateReadStatus|]. intros _.
  now apply keeps_modify.
Qed.

Lemma keeps_kickMember r memberId : keeps oneStatusEach (kickMember r memberId).
Proof.
  unfold kickMember.
  destruct (currentUser r) as [user|]; [|apply keeps_ret].
  destruct (groupInfo r) as [info|]; [|apply keeps_ret].
  destruct (negb (isGroupCreator r) || isSelf user memberId); [apply keeps_ret|].
  apply keeps_try; [|now apply keeps_modify].
  destruct (userIdOf user) as [[|c u]|]; try now apply keeps_modify.
  apply keeps_bind; [apply keeps_updateDoc_group|]. intros _.
  apply keeps_bind; [apply keeps_serverTimestamp|]. intros t.
  apply keeps_bind; [apply keeps_addDoc_groupMessages|]. intros _.
  apply keeps_bind; [apply keeps_serverTimestamp|]. intros t'.
  apply keeps_bind; [apply keeps_updateDoc_group|]. intros _.
  now apply keeps_modify.
Qed.

Lemma step_keeps s s' : step s s' -> oneStatusEach (db s) -> oneStatusEach (db s').
Proof.
  intros Hstep H. destruct Hstep as [r s s' _ Hrun|r s s' _ Hrun|r m s s' _ Hrun|fs s|t s].
  - pose proof (keeps_handleSendMessage r s H) as K. now rewrite Hrun in K.
  - pose proof (keeps_updateReadStatus r s H) as K. now rewrite Hrun in K.
  - pose proof (keeps_kickMember r m s H) as K. now rewrite Hrun in K.
  - exact H.
  - exact H.
Qed.

(** X25.  The read status is never there twice.  If every group and
    user has one status document at most, that is still so after any
    number of messages sent, read-status updates and members removed,
    by any signed-in users from any renders, whichever requests fail in
    between. *)
Theorem read_status_never_duplicated (s s' : State) :
  oneStatusEach (db s) -> runs s s' -> oneStatusEach (db s').
Proof.
  intros H Hruns. induction Hruns as [s|s s1 s2 _ IH Hstep]; [exact H|].
  eapply step_keeps; [exact Hstep | exact (IH H)].
Qed.

Lemma read_status_never_duplicated_witness :
  oneStatusEach (db (chatting [] hello)) /\
  exists s',
    runs (chatting [] hello) s' /\
    map (fun e => status_userId (snd e)) (groupReadStatus (db s')) = [alice; bob] /\
    oneStatusEach (db s').
Proof.
  assert (H0 : oneStatusEach (db (chatting [] hello))) by (intros g u; cbn; lia).
  assert (Ha : signedIn (typing aliceUser hello))
    by (exists aliceUser, alice; split; reflexivity).
  assert (Hb : signedIn (typing bobUser []))
    by (exists bobUser, bob; split; reflexivity).
  split; [exact H0|].
  assert (Hruns : runs (chatting [] hello) aliceSentAgain).
  { apply runs_step with (s' := bobRead);
      [apply runs_step with (s' := aliceSent);
         [apply runs_step with (s' := chatting [] hello); [apply runs_refl|]|]|].
    - apply (@step_send (typing aliceUser hello) _ _ Ha). vm_compute. reflexivity.
    - apply (@step_read (typing bobUser []) _ _ Hb). vm_compute. reflexivity.
    - apply (@step_send (typing aliceUser hello) _ _ Ha). vm_compute. reflexivity. }
  exists aliceSentAgain. split; [exact Hruns|]. split; [reflexivity|].
  exact (@read_status_never_duplicated _ _ H0 Hruns).
Defined.

End ReadStatusProofs.

(* ================================================================= *)
(** * The group chat: removing a member *)

Module GroupManagement.

Import GroupChat Samples ChatSamples.

Lemma isGroupCreator_true (r : Render) :
  isGroupCreator r = true <->
  exists user userId info,
    currentUser r = Some user /\ groupInfo r = Some info /\
    userIdOf user = Some userId /\ userId <> [] /\
    createdBy info = Some userId.
Proof.
  unfold isGroupCreator. split.
  - destruct (currentUser r) as [user|] eqn:Eu; [|discriminate].
    destruct (groupInfo r) as [info|] eqn:Ei; [|discriminate].
    destruct (userIdOf user) as [[|c u]|] eqn:Eid; try discriminate.
    destruct (createdBy info) as [creator|] eqn:Ec; [|discriminate].
    intros H. apply JSFacts.string_eqb_eq in H. subst creator.
    exists user, (c :: u), info.
    split; [reflexivity|]. split; [reflexivity|]. split; [exact Eid|].
    split; [discriminate | exact Ec].
  - intros (user & userId & info & -> & -> & -> & Hne & ->).
    destruct userId as [|c u]; [contradiction|]. apply JSFacts.string_eqb_refl.
Qed.

Lemma isSelf_true (user : User) (memberId : js_string) :
  isSelf user memberId = true <-> userIdOf user = Some memberId.
Proof.
  unfold isSelf. destruct (userIdOf user) as [userId|]; [|split; discriminate].
  rewrite JSFacts.string_eqb_eq. split; [now intros -> | now intros [= ->]].
Qed.

(** X26.  Only the creator of the group removes members, and never
    themselves.  Unless the current user has a non-empty id, the loaded
    group information names that id as creator and the member to
    remove is someone else, [kickMember] makes no request and shows
    nothing. *)
Theorem only_the_creator_removes_others
    (r : Render) (memberId : js_string) (s : State) :
  ~ (exists user userId info,
       currentUser r = Some user /\ groupInfo r = Some info /\
       userIdOf user = Some userId /\ userId <> [] /\
       createdBy info = Some userId /\ memberId <> userId) ->
  kickMember r memberId s = Ok tt s.
Proof.
  intros Hnot. unfold kickMember.
  destruct (currentUser r) as [user|] eqn:Eu; [|reflexivity].
  destruct (groupInfo r) as [info|] eqn:Ei; [|reflexivity].
  destruct (isGroupCreator r) eqn:Ec; [|reflexivity].
  destruct (isSelf user memberId) eqn:Es; [reflexivity|].
  exfalso. apply Hnot.
  apply isGroupCreator_true in Ec.
  destruct Ec as (user' & userId & info' & Hu & Hi & Hid & Hne & Hc).
  rewrite Eu in Hu. rewrite Ei in Hi.
  injection Hu as <-. injection Hi as <-.
  exists user, userId, info. repeat split; try assumption.
  intros ->. apply isSelf_true in Hid. rewrite Hid in Es. discriminate.
Qed.

Lemma only_the_creator_removes_others_witness :
  kickMember (typing bobUser []) carol (chatting [] [])
  = Ok tt (chatting [] []).
Proof.
  apply only_the_creator_removes_others.
  intros (user & userId & info & Hu & Hi & Hid & _ & Hc & _).
  injection Hu as <-. injection Hi as <-.
  cbv in Hid, Hc. congruence.
Defined.

Lemma updatedMembers_spec (r : Render) (memberId x : js_string) :
  In x (updatedMembers r memberId) <->
  In x (map member_id (groupMembers r)) /\ x <> memberId.
Proof.
  unfold updatedMembers. rewrite !in_map_iff. split.
  - intros (m & <- & Hm). apply filter_In in Hm. destruct Hm as [Hin Hne].
    apply negb_true_iff, JSFacts.string_eqb_neq in Hne.
    split; [now exists m | exact Hne].
  - intros [(m & <- & Hin) Hne]. exists m. split; [reflexivity|].
    apply filter_In. split; [exact Hin|].
    now apply negb_true_iff, JSFacts.string_eqb_neq.
Qed.

Lemma stranger_not_found (r : Render) (memberId : js_string) :
  ~ In memberId (map member_id (groupMembers r)) ->
  updatedMembers r memberId = map member_id (groupMembers r) /\
  removalNotice r memberId = of_string "A member was removed from the group".
Proof.
  unfold updatedMembers, removalNotice.
  induction (groupMembers r) as [|m l IH]; intros Hnot; [now split|].
  assert (Hm : string_eqb (member_id m) memberId = false).
  { apply JSFacts.string_eqb_neq. intros E. apply Hnot. now left. }
  destruct IH as [IH1 IH2]; [intros Hin; apply Hnot; now right|].
  cbn [filter find map]. rewrite Hm. cbn [negb map]. split.
  - now rewrite IH1.
  - exact IH2.
Qed.

(** X27.  What [kickMember] writes.  For the creator removing someone
    else, the three requests going through: the members written to the
    group document are the ids of the member list the component loaded,
    without the one removed, whatever the document listed before; a
    removal is announced by a 'system' message, which also becomes the
    last message of the group.  Removing an id that is not in the
    loaded list writes that list unchanged and announces that 'A
    member' was removed. *)
Theorem kick_writes_the_loaded_members
    (r : Render) (memberId : js_string) (s : State)
    (user : User) (userId : js_string) (info : GroupInfo) :
  currentUser r = Some user -> groupInfo r = Some info ->
  userIdOf user = Some userId -> userId <> [] ->
  createdBy info = Some userId -> memberId <> userId ->
  groupId r <> [] -> hasGroup (groupId r) (db s) = true ->
  (forall k, (k < 3)%nat -> nth k (faults s) false = false) ->
  exists s',
    kickMember r memberId s = Ok tt s' /\
    (forall d, In (groupId r, d) (groups (db s')) ->
       members d = updatedMembers r memberId /\
       lastMessage d = Some (removalNotice r memberId)) /\
    (forall x, In x (updatedMembers r memberId) <->
               In x (map member_id (groupMembers r)) /\ x <> memberId) /\
    (~ In memberId (map member_id (groupMembers r)) ->
       updatedMembers r memberId = map member_id (groupMembers r) /\
       removalNotice r memberId
       = of_string "A member was removed from the group") /\
    groupMessages (db s') =
      groupMessages (db s)
      ++ [(nextId (db s),
           {| message_groupId := groupId r;
              senderId := userId;
              senderName := orLiteral (displayName user) (of_string "User");
              content := removalNotice r memberId;
              timestamp := serverTime (db s);
              type := "system" |})] /\
    toasts s' = toasts s ++ [ToastSuccess "Member removed from group"].
Proof.
  intros Hu Hi Hid Hne Hc Hother Hg Hhas Hf.
  assert (Hcreator : isGroupCreator r = true).
  { apply isGroupCreator_true. exists user, userId, info. now repeat split. }
  assert (Hself : isSelf user memberId = false).
  { destruct (isSelf user memberId) eqn:E; [|reflexivity].
    apply isSelf_true in E. rewrite Hid in E. injection E as E. now subst. }
  unfold kickMember. rewrite Hu, Hi, Hcreator, Hself, Hid. cbn [negb orb].
  destruct userId as [|c0 u0]; [contradiction|].
  set (notice := removalNotice r memberId).
  set (kept := updatedMembers r memberId).
  pose proof (updatedMembers_spec r memberId) as Hkept.
  pose proof (stranger_not_found r memberId) as Hstranger.
  fold kept in Hkept, Hstranger. fold notice in Hstranger.
  destruct (groupId r) as [|g0 g] eqn:Eg; [contradiction|].
  destruct s as [d fl inp ts]; simpl in *.
  pose proof (Hf 0%nat ltac:(lia)) as H0.
  pose proof (Hf 1%nat ltac:(lia)) as H1.
  pose proof (Hf 2%nat ltac:(lia)) as H2. clear Hf.
  unfold hasGroup in Hhas.
  assert (Hhas' : forall f,
            existsb (fun e : js_string * GroupData => string_eqb (fst e) (g0 :: g))
              (map (fun e : js_string * GroupData =>
                      if string_eqb (fst e) (g0 :: g) then (fst e, f (snd e)) else e)
                   (groups d)) = true).
  { intros f. rewrite existsb_exists in Hhas |- *.
    destruct Hhas as ([k e] & Hin & Hk). cbn [fst] in Hk.
    exists (k, f e). split; [|exact Hk].
    apply in_map_iff. exists (k, e). cbn [fst snd]. now rewrite Hk. }
  unfold try_catch, addDoc_groupMessages, updateDoc_group, serverTimestamp,
    hasGroup, bind, request, modify, setFaults, setDb, addToast.
  destruct fl as [|[|] [|[|] [|[|] fl]]]; simpl in *; try discriminate;
    rewrite Hhas; simpl; rewrite Hhas';
    (eexists; split; [reflexivity|]); simpl;
    (split; [intros d0 Hd0;
             apply SendingMessages.In_updated in Hd0;
             destruct Hd0 as (d1 & Hd1 & ->);
             apply SendingMessages.In_updated in Hd1;
             destruct Hd1 as (d2 & _ & ->); now split|]);
    (split; [exact Hkept|]); (split; [exact Hstranger|]);
    split; reflexivity.
Qed.

Lemma kick_writes_the_loaded_members_witness :
  exists s',
    kickMember (typing aliceUser []) bob (chatting [] []) = Ok tt s' /\
    map (fun e => members (snd e)) (groups (db s')) = [[alice; carol]] /\
    map (fun e => content (snd e)) (groupMessages (db s'))
    = [of_string "A member was removed from the group"].
Proof.
  assert (Hne : alice <> []) by discriminate.
  assert (Hother : bob <> alice) by discriminate.
  assert (Hg : groupId (typing aliceUser []) <> []) by discriminate.
  assert (Hf : forall k, (k < 3)%nat -> nth k (faults (chatting [] [])) false = false)
    by (intros [|[|[|k]]] _; reflexivity).
  destruct (@kick_writes_the_loaded_members (typing aliceUser []) bob (chatting [] [])
              aliceUser alice {| createdBy := Some alice |}
              eq_refl eq_refl eq_refl Hne eq_refl Hother Hg eq_refl Hf)
    as (s' & Hrun & Hgroup & _ & _ & Hms & _).
  exists s'. split; [exact Hrun|]. split.
  - assert (E : kickMember (typing aliceUser []) bob (chatting [] []) = Ok tt s')
      by exact Hrun.
    vm_compute in E. injection E as <-. reflexivity.
  - rewrite Hms. reflexivity.
Defined.

End GroupManagement.

(* ================================================================= *)
(** * The voice recorder: the recording time *)

Module RecordingTime.

Import GroupChat.

Lemma digits_inj (d e : Decimal.uint) : digits d = digits e -> d = e.
Proof.
  revert e. induction d; intros e H; destruct e; simpl in H;
    try discriminate; try reflexivity;
    injection H as H; f_equal; now apply IHd.
Qed.

Lemma toString_inj (m n : N) : toString m = toString n -> m = n.
Proof.
  intros H. apply DecimalN.Unsigned.to_uint_inj. now apply digits_inj.
Qed.

(** The seconds part is two decimal digits. *)
Lemma two_digits (n : N) :
  (n < 60)%N ->
  padStart 2 (toString n) = [(48 + n / 10)%N; (48 + n mod 10)%N].
Proof.
  intros Hn.
  assert (Hall : forallb (fun k => string_eqb (padStart 2 (toString k))
                                     [(48 + k / 10)%N; (48 + k mod 10)%N])
                         (map N.of_nat (seq 0 60)) = true) by (vm_compute; reflexivity).
  rewrite forallb_forall in Hall.
  apply JSFacts.string_eqb_eq, Hall, in_map_iff.
  exists (N.to_nat n). split; [apply N2Nat.id|]. apply in_seq. lia.
Qed.

(** X28.  The recording time is shown as minutes, a colon and two
    digits of seconds, and two different times are never shown alike.
    For counts of seconds below 2^53: [formatTime] gives the decimal
    minutes, ':' and the two decimal digits of the seconds within the
    minute, the first of them padded; and equal texts come from equal
    counts only. *)
Theorem formatTime_shows_minutes_and_seconds (a b : N) :
  exactInteger a -> exactInteger b ->
  (exists tens units,
     formatTime a = toString (a / 60) ++ [58; 48 + tens; 48 + units]%N /\
     (tens < 6)%N /\ (units < 10)%N /\ (a = 60 * (a / 60) + 10 * tens + units)%N) /\
  (formatTime a = formatTime b -> a = b).
Proof.
  intros _ _.
  assert (Hshape : forall n,
            formatTime n
            = toString (n / 60) ++ [58; 48 + (n mod 60) / 10; 48 + (n mod 60) mod 10]%N).
  { intros n. unfold formatTime. rewrite two_digits; [reflexivity|].
    apply N.mod_lt. discriminate. }
  split.
  - exists ((a mod 60) / 10)%N, ((a mod 60) mod 10)%N.
    split; [apply Hshape|].
    pose proof (N.mod_lt a 60 ltac:(discriminate)) as Hlt.
    split; [apply N.Div0.div_lt_upper_bound; lia|].
    split; [apply N.mod_lt; discriminate|].
    pose proof (N.div_mod a 60 ltac:(discriminate)) as Ha.
    pose proof (N.div_mod (a mod 60) 10 ltac:(discriminate)) as Hs.
    lia.
  - rewrite !Hshape. intros H.
    change [58; 48 + (a mod 60) / 10; 48 + (a mod 60) mod 10]%N
      with (([58%N] ++ [(48 + (a mod 60) / 10)%N]) ++ [(48 + (a mod 60) mod 10)%N])
      in H.
    change [58; 48 + (b mod 60) / 10; 48 + (b mod 60) mod 10]%N
      with (([58%N] ++ [(48 + (b mod 60) / 10)%N]) ++ [(48 + (b mod 60) mod 10)%N])
      in H.
    rewrite !app_assoc in H.
    apply app_inj_tail in H. destruct H as [H Hunits].
    apply app_inj_tail in H. destruct H as [H Htens].
    apply app_inj_tail in H. destruct H as [H _].
    apply toString_inj in H.
    pose proof (N.div_mod a 60 ltac:(discriminate)) as Ha.
    pose proof (N.div_mod b 60 ltac:(discriminate)) as Hb.
    pose proof (N.div_mod (a mod 60) 10 ltac:(discriminate)) as Hsa.
    pose proof (N.div_mod (b mod 60) 10 ltac:(discriminate)) as Hsb.
    lia.
Qed.

Lemma formatTime_shows_minutes_and_seconds_witness :
  exactInteger 75 /\ exactInteger 3599 /\
  formatTime 75 = of_string "1:15" /\ formatTime 75 <> formatTime 3599.
Proof.
  assert (Ha : exactInteger 75) by reflexivity.
  assert (Hb : exactInteger 3599) by reflexivity.
  split; [exact Ha|]. split; [exact Hb|].
  destruct (@formatTime_shows_minutes_and_seconds 75 3599 Ha Hb)
    as [(tens & units & Hshape & _) Hinj].
  split; [reflexivity|].
  intros H. apply Hinj in H. discriminate.
Defined.

End RecordingTime.

(* ================================================================= *)
(** * The notification of group calls *)

Module CallNotificationProofs.

Import GroupVideoCall CallNotification Samples MoreSamples NotificationSamples.

Lemma pushed_one currentUserId held doc :
  pushed currentUserId held doc
  = match participantsOf held doc with
    | Some v =>
        if alreadyIn currentUserId v then []
        else [notificationOf (of_string "Unknown Group") doc v]
    | None => []
    end.
Proof. reflexivity. Qed.

(** The callback completes exactly when it can read every record, and
    then it has pushed, record by record, without a look at the groups. *)
Lemma activeCallsOf_Some currentUserId getDoc held docs :
  (forall doc, In doc docs -> participantsOf held doc <> None) ->
  activeCallsOf currentUserId getDoc held docs
  = Some (flat_map (pushed currentUserId held) docs).
Proof.
  induction docs as [|doc rest IH]; intros Hall; [reflexivity|].
  cbn [activeCallsOf flat_map].
  destruct (participantsOf held doc) as [v|] eqn:Ev;
    [|destruct (Hall doc (or_introl eq_refl) Ev)].
  rewrite IH by (intros d Hd; apply Hall; now right).
  rewrite (pushed_one currentUserId held doc), Ev.
  destruct (alreadyIn currentUserId v); [reflexivity|].
  cbn [refOf documentParent collectionParent removelast]. reflexivity.
Qed.

Lemma activeCallsOf_None currentUserId getDoc held docs :
  (exists doc, In doc docs /\ participantsOf held doc = None) ->
  activeCallsOf currentUserId getDoc held docs = None.
Proof.
  induction docs as [|doc rest IH]; intros (bad & Hin & Hbad); [destruct Hin|].
  cbn [activeCallsOf].
  destruct (participantsOf held doc) as [v|] eqn:Ev; [|reflexivity].
  destruct Hin as [->|Hin]; [congruence|].
  rewrite IH by (exists bad; now split).
  destruct (alreadyIn currentUserId v); [reflexivity|].
  cbn [refOf documentParent collectionParent removelast]. reflexivity.
Qed.

Lemma activeCallsOf_inv currentUserId getDoc held docs calls :
  activeCallsOf currentUserId getDoc held docs = Some calls ->
  (forall doc, In doc docs -> participantsOf held doc <> None) /\
  calls = flat_map (pushed currentUserId held) docs.
Proof.
  intros H.
  assert (Hall : forall doc, In doc docs -> participantsOf held doc <> None).
  { intros doc Hin Hbad.
    rewrite (activeCallsOf_None currentUserId getDoc held docs) in H;
      [discriminate | now exists doc]. }
  split; [exact Hall|].
  rewrite (activeCallsOf_Some currentUserId getDoc held docs Hall) in H.
  now injection H.
Qed.

(** X29.  The notification lists the snapshot's calls the user is not
    in, and never knows the group's name.  When some record of the
    snapshot holds for [participants] a truthy value that is neither an
    array nor a string, the callback is left by an exception and
    [setActiveCalls] is not reached.  Otherwise, and whatever [getDoc]
    would answer, the callback completes; it lists, in snapshot order,
    the calls it does not find the current user in, each with its group
    id and a creator name that is not empty: a call with an array that
    does not contain the user, counted by the length of the array; a
    call whose field is falsy, counted 0; a call whose field is a text
    in which the user's id does not occur, counted by the length of the
    text.  Since the parent of the top-level collection is [null], the
    group is not looked up and every entry is named 'Unknown Group'. *)
Theorem notification_lists_calls_not_joined
    (currentUserId : js_string) (getDoc : path -> option (option js_string))
    (held : DocId -> otherValue) (docs : list (DocId * GroupCallData)) :
  ((exists i d, In (i, d) docs /\ participants d = None /\ held i = Truthy) ->
   activeCallsOf currentUserId getDoc held docs = None) /\
  ((forall i d, In (i, d) docs -> participants d = None -> held i <> Truthy) ->
   exists calls,
     activeCallsOf currentUserId getDoc held docs = Some calls /\
     (exists listed,
        map call_id calls = map fst listed /\
        listed
        = filter (fun doc =>
                    match participants (snd doc), held (fst doc) with
                    | Some ps, _ => negb (includes ps currentUserId)
                    | None, Text ((_ :: _) as s) =>
                        negb (includesText s currentUserId)
                    | None, _ => true
                    end) docs) /\
     forall c, In c calls ->
       groupName c = of_string "Unknown Group" /\
       call_creatorName c <> [] /\
       exists d,
         In (call_id c, d) docs /\ call_groupId c = groupId d /\
         ((exists ps, participants d = Some ps /\
                      includes ps currentUserId = false /\
                      participantCount c = List.length ps) \/
          (participants d = None /\
           (held (call_id c) = Falsy \/ held (call_id c) = Text []) /\
           participantCount c = 0) \/
          (exists s, participants d = None /\ held (call_id c) = Text s /\
                     s <> [] /\ includesText s currentUserId = false /\
                     participantCount c = List.length s))).
Proof.
  split.
  - intros (i & d & Hin & Hps & Hheld).
    apply activeCallsOf_None. exists (i, d). split; [exact Hin|].
    unfold participantsOf; cbn [fst snd]. now rewrite Hps, Hheld.
  - intros Hok.
    assert (Hall : forall doc, In doc docs -> participantsOf held doc <> None).
    { intros [i d] Hin. unfold participantsOf; cbn [fst snd].
      destruct (participants d) eqn:Hps; [discriminate|].
      pose proof (Hok i d Hin Hps) as Hnot.
      destruct (held i) as [|[|c s]|]; try discriminate. contradiction. }
    eexists. split; [apply activeCallsOf_Some, Hall|]. split.
    + eexists. split; [|reflexivity]. clear Hall.
      induction docs as [|[i d] rest IH]; [reflexivity|].
      cbn [flat_map filter fst snd].
      rewrite map_app, IH by (intros j e Hje; apply Hok; now right).
      rewrite (pushed_one currentUserId held (i, d)).
      unfold participantsOf; cbn [fst snd].
      destruct (participants d) as [ps|] eqn:Hps; cbn [alreadyIn].
      * now destruct (includes ps currentUserId).
      * pose proof (Hok i d (or_introl eq_refl) Hps) as Hnot.
        destruct (held i) as [|[|c s]|]; cbn [alreadyIn negb];
          try reflexivity; [|contradiction].
        now destruct (includesText (c :: s) currentUserId).
    + intros c Hc. apply in_flat_map in Hc. destruct Hc as ([i d] & Hin & Hc).
      unfold pushed, participantsOf in Hc; cbn [fst snd] in Hc.
      assert (Hname : forall v,
                call_creatorName (notificationOf (of_string "Unknown Group")
                                    (i, d) v) <> [])
        by (intros v; cbn; now destruct (creatorName d)).
      destruct (participants d) as [ps|] eqn:Hps.
      * cbn [alreadyIn] in Hc.
        destruct (includes ps currentUserId) eqn:Hinc; [destruct Hc|].
        destruct Hc as [<-|[]]. split; [reflexivity|]. split; [apply Hname|].
        exists d. split; [exact Hin|]. split; [reflexivity|].
        left. exists ps. now repeat split.
      * destruct (held i) as [|[|ch s]|] eqn:Hheld; cbn [alreadyIn] in Hc.
        -- destruct Hc as [<-|[]]. split; [reflexivity|]. split; [apply Hname|].
           exists d. split; [exact Hin|]. split; [reflexivity|].
           right; left. cbn [call_id notificationOf fst]. rewrite Hheld.
           split; [exact Hps|]. split; [now left | reflexivity].
        -- destruct Hc as [<-|[]]. split; [reflexivity|]. split; [apply Hname|].
           exists d. split; [exact Hin|]. split; [reflexivity|].
           right; left. cbn [call_id notificationOf fst]. rewrite Hheld.
           split; [exact Hps|]. split; [now right | reflexivity].
        -- destruct (includesText (ch :: s) currentUserId) eqn:Hinc;
             [destruct Hc|].
           destruct Hc as [<-|[]]. split; [reflexivity|]. split; [apply Hname|].
           exists d. split; [exact Hin|]. split; [reflexivity|].
           right; right. exists (ch :: s).
           cbn [call_id notificationOf fst]. rewrite Hheld.
           split; [exact Hps|]. split; [reflexivity|].
           split; [discriminate|]. split; [exact Hinc | reflexivity].
        -- destruct Hc.
Qed.

Lemma notification_lists_calls_not_joined_witness :
  activeCallsOf bob noGroups heldNumber [(0%N, textRecord)] = None /\
  activeCallsOf (of_string "car") noGroups heldText [(0%N, textRecord)] = Some [] /\
  exists c,
    activeCallsOf bob noGroups heldText [(0%N, textRecord)] = Some [c] /\
    groupName c = of_string "Unknown Group" /\ participantCount c = 5.
Proof.
  destruct (notification_lists_calls_not_joined bob noGroups heldNumber
              [(0%N, textRecord)]) as [Hthrows _].
  split.
  { apply Hthrows. exists 0%N, textRecord.
    split; [now left | split; reflexivity]. }
  destruct (notification_lists_calls_not_joined (of_string "car") noGroups heldText
              [(0%N, textRecord)]) as [_ Hcar].
  destruct Hcar as (calls & Hrun & (listed & Hids & ->) & _).
  { intros i d _ _. discriminate. }
  split.
  { rewrite Hrun. destruct calls as [|c more]; [reflexivity|].
    cbv in Hids. discriminate Hids. }
  destruct (notification_lists_calls_not_joined bob noGroups heldText
              [(0%N, textRecord)]) as [_ Hbob].
  destruct Hbob as (shown & Hshown & (listed & Hlisted & ->) & Hall).
  { intros i d _ _. discriminate. }
  destruct shown as [|c [|c' more]];
    try (cbv in Hlisted; discriminate Hlisted).
  exists c. split; [exact Hshown|].
  destruct (Hall c (or_introl eq_refl)) as (Hname & _ & d & Hin & _ & Hcount).
  split; [exact Hname|].
  destruct Hin as [Hin|[]]. injection Hin as Hid <-.
  destruct Hcount as [(ps & Hps & _)|[(_ & [Hh|Hh] & _)|(s & _ & Hh & _ & _ & Hc)]].
  - discriminate Hps.
  - rewrite <- Hid in Hh. discriminate Hh.
  - rewrite <- Hid in Hh. discriminate Hh.
  - rewrite <- Hid in Hh. cbv in Hh. injection Hh as <-. exact Hc.
Defined.

Lemma callsQuery_updateIn userGroups i ps docs :
  callsQuery userGroups (updateIn i (withParticipants ps) docs)
  = updateIn i (withParticipants ps) (callsQuery userGroups docs).
Proof.
  unfold callsQuery, updateIn.
  induction docs as [|[j d] docs IH]; [reflexivity|].
  cbn [map filter fst snd].
  assert (Hg : groupId (withParticipants ps d) = groupId d) by now destruct d.
  assert (Hs : status (withParticipants ps d) = status d) by now destruct d.
  destruct (j =? i)%N eqn:E; cbn [fst snd]; rewrite ?Hg, ?Hs;
    (destruct (includes userGroups (groupId d)
               && string_eqb (status d) (of_string "active")); [|exact IH]);
    cbn [map fst snd]; rewrite E; now rewrite IH.
Qed.

Lemma participantsOf_joined held i d ps :
  participantsOf held (i, withParticipants ps d) = Some (Ids ps).
Proof. unfold participantsOf; cbn [fst snd]. now destruct d. Qed.

(** After the join every record of that id lists the user; the other
    records are pushed as before. *)
Lemma pushed_updateIn currentUserId held i ps docs :
  includes ps currentUserId = true ->
  flat_map (pushed currentUserId held) (updateIn i (withParticipants ps) docs)
  = filter (fun c => negb (call_id c =? i)%N)
           (flat_map (pushed currentUserId held) docs).
Proof.
  intros Hps. unfold updateIn.
  induction docs as [|[j d] docs IH]; [reflexivity|].
  cbn [map flat_map fst snd]. rewrite filter_app, <- IH. f_equal.
  rewrite (pushed_one currentUserId held (j, d)).
  destruct (j =? i)%N eqn:E; rewrite pushed_one.
  - rewrite participantsOf_joined. cbn [alreadyIn]. rewrite Hps.
    destruct (participantsOf held (j, d)) as [v|]; [|reflexivity].
    destruct (alreadyIn currentUserId v); [reflexivity|].
    cbn [filter notificationOf call_id fst]. now rewrite E.
  - destruct (participantsOf held (j, d)) as [v|]; [|reflexivity].
    destruct (alreadyIn currentUserId v); [reflexivity|].
    cbn [filter notificationOf call_id fst]. now rewrite E.
Qed.

Lemma readable_updateIn held i ps docs :
  (forall doc, In doc docs -> participantsOf held doc <> None) ->
  forall doc, In doc (updateIn i (withParticipants ps) docs) ->
              participantsOf held doc <> None.
Proof.
  intros Hall doc Hin. unfold updateIn in Hin. apply in_map_iff in Hin.
  destruct Hin as ([j d] & <- & Hin). cbn [fst snd].
  destruct (j =? i)%N; [|now apply Hall].
  now rewrite participantsOf_joined.
Qed.

Lemma fst_unique (docs : list (DocId * GroupCallData)) i d d' :
  NoDup (map fst docs) -> In (i, d) docs -> In (i, d') docs -> d = d'.
Proof.
  induction docs as [|[j e] docs IH]; intros Hnd H1 H2; [contradiction|].
  cbn [map fst] in Hnd. inversion Hnd as [|? ? Hnot Hnd']; subst.
  destruct H1 as [H1|H1], H2 as [H2|H2].
  - congruence.
  - injection H1 as -> ->. exfalso. apply Hnot.
    apply in_map_iff. now exists (i, d').
  - injection H2 as -> ->. exfalso. apply Hnot.
    apply in_map_iff. now exists (i, d).
  - now apply IH.
Qed.

Lemma filter_all A (q : A -> bool) (l : list A) :
  (forall x, In x l -> q x = true) -> filter q l = l.
Proof.
  induction l as [|x l IH]; intros H; [reflexivity|].
  cbn [filter]. rewrite (H x) by now left.
  f_equal. apply IH. intros y Hy. apply H. now right.
Qed.

(** X30.  Joining from a notification joins the first active call of
    the group.  With the listener installed, the store answering and
    document ids distinct, and whatever the records hold where their
    participants are not arrays: for a call the notification lists, the
    record part of [initializeCall] in the [GroupVideoCall] that
    [joinCall] mounts succeeds with the first active call of that
    call's group; the next notification is the old one without the
    entry of the call joined, so the selected entry goes away exactly
    when it was that first call. *)
Theorem joining_from_a_notification
    (currentUserId displayName : js_string) (photoURL : option js_string)
    (userGroups : list js_string) (getDoc : path -> option (option js_string))
    (held : DocId -> otherValue)
    (s : State) (calls : list ActiveCall) (selectedCall : ActiveCall) :
  listening currentUserId userGroups ->
  faults (world s) = [] ->
  NoDup (map fst (groupCalls (world s))) ->
  activeCallsOf currentUserId getDoc held
    (callsQuery userGroups (groupCalls (world s)))
  = Some calls ->
  In selectedCall calls ->
  exists i d rest s',
    filter (activeCallOf (call_groupId selectedCall)) (groupCalls (world s))
    = (i, d) :: rest /\
    createOrJoin (joinProps currentUserId displayName photoURL selectedCall) s
    = Ok i s' /\
    activeCallsOf currentUserId getDoc held
      (callsQuery userGroups (groupCalls (world s')))
    = Some (filter (fun c => negb (call_id c =? i)%N) calls).
Proof.
  intros _ Hf Hnd Hcalls Hsel.
  apply activeCallsOf_inv in Hcalls. destruct Hcalls as [Hall ->].
  apply in_flat_map in Hsel. destruct Hsel as ([j dj] & Hj & Hsel).
  assert (Hgroup : call_groupId selectedCall = groupId dj).
  { unfold pushed in Hsel.
    destruct (participantsOf held (j, dj)) as [v|]; [|destruct Hsel].
    destruct (alreadyIn currentUserId v); [destruct Hsel|].
    destruct Hsel as [<-|[]]. reflexivity. }
  unfold callsQuery in Hj. apply filter_In in Hj. destruct Hj as [Hj Hactive].
  cbn [snd] in Hactive. apply andb_true_iff in Hactive.
  destruct Hactive as [_ Hactive].
  assert (Hprops : props_groupId
                     (joinProps currentUserId displayName photoURL selectedCall)
                   = groupId dj) by exact Hgroup.
  rewrite Hgroup.
  assert (Hfirst : In (j, dj) (filter (activeCallOf (groupId dj)) (groupCalls (world s)))).
  { apply filter_In. split; [exact Hj|]. unfold activeCallOf. cbn [snd].
    now rewrite JSFacts.string_eqb_refl, Hactive. }
  destruct (filter (activeCallOf (groupId dj)) (groupCalls (world s)))
    as [|[i d] rest] eqn:Eq; [contradiction|].
  assert (Hid : In (i, d) (groupCalls (world s))).
  { assert (H : In (i, d) (filter (activeCallOf (groupId dj)) (groupCalls (world s))))
      by (rewrite Eq; now left).
    now apply filter_In in H. }
  assert (Hlast : includes (participantsOrEmpty d ++ [currentUserId]) currentUserId
                  = true).
  { unfold includes. rewrite existsb_app. cbn.
    now rewrite JSFacts.string_eqb_refl, orb_true_r. }
  assert (Hq : filter (activeCallOf
                         (props_groupId
                            (joinProps currentUserId displayName photoURL
                               selectedCall)))
                      (groupCalls (world s)) = (i, d) :: rest)
    by (rewrite Hprops; exact Eq).
  pose proof (@CallCompositions.createOrJoin_exact
                (joinProps currentUserId displayName photoURL selectedCall)
                s i d rest Hf Hq) as Hrun.
  cbn [joinProps GroupVideoCall.currentUserId] in Hrun.
  exists i, d, rest. eexists. split; [reflexivity|]. split; [exact Hrun|].
  destruct (includes (participantsOrEmpty d) currentUserId) eqn:Einc.
  - rewrite (activeCallsOf_Some currentUserId getDoc held _ Hall). f_equal.
    symmetry. apply filter_all. intros c Hc.
    apply in_flat_map in Hc. destruct Hc as ([k dk] & Hk & Hc).
    unfold pushed in Hc.
    unfold callsQuery in Hk. apply filter_In in Hk. destruct Hk as [Hk _].
    destruct (N.eqb_spec k i) as [->|Hki].
    + rewrite (@fst_unique _ _ _ _ Hnd Hk Hid) in Hc.
      unfold participantsOf in Hc; cbn [fst snd] in Hc.
      unfold participantsOrEmpty in Einc.
      destruct (participants d); [|discriminate].
      cbn [alreadyIn] in Hc. rewrite Einc in Hc. destruct Hc.
    + destruct (participantsOf held (k, dk)) as [v|]; [|destruct Hc].
      destruct (alreadyIn currentUserId v); [destruct Hc|].
      destruct Hc as [<-|[]]. cbn [notificationOf call_id fst].
      now destruct (N.eqb_spec k i).
  - assert (Hw : groupCalls
                   (world
                      {| world :=
                           setGroupMessages
                             (groupMessages (world s)
                              ++ [systemMessage
                                    (joinProps currentUserId displayName photoURL
                                       selectedCall)
                                    " joined the call" (serverTime (world s))])
                             (setGroupCalls
                                (updateIn i
                                   (withParticipants
                                      (participantsOrEmpty d ++ [currentUserId]))
                                   (groupCalls (world s)))
                                (world s));
                         comp := comp s |})
                 = updateIn i
                     (withParticipants (participantsOrEmpty d ++ [currentUserId]))
                     (groupCalls (world s)))
      by (destruct s as [w c]; destruct w; reflexivity).
    rewrite Hw, callsQuery_updateIn.
    rewrite (activeCallsOf_Some currentUserId getDoc held _
               (readable_updateIn held i _ _ Hall)).
    f_equal. now apply pushed_updateIn.
Qed.

Lemma joining_from_a_notification_witness :
  exists i s',
    activeCallsOf bob noGroups noneHeld (callsQuery [family] (groupCalls afterAlice))
    = Some [aliceCall] /\
    createOrJoin (joinProps bob (of_string "Bob") None aliceCall) (opened afterAlice)
    = Ok i s' /\
    activeCallsOf bob noGroups noneHeld
      (callsQuery [family] (groupCalls (world s')))
    = Some [].
Proof.
  assert (Hf : faults (world (opened afterAlice)) = []) by reflexivity.
  assert (Hnd : NoDup (map fst (groupCalls (world (opened afterAlice)))))
    by (vm_compute; repeat constructor; intros []).
  assert (Hcalls : activeCallsOf bob noGroups noneHeld
                     (callsQuery [family] (groupCalls (world (opened afterAlice))))
                   = Some [aliceCall]) by reflexivity.
  assert (Hsel : In aliceCall [aliceCall]) by now left.
  assert (Hon : listening bob [family])
    by (split; [discriminate | cbn; lia]).
  destruct (@joining_from_a_notification bob (of_string "Bob") None [family]
              noGroups noneHeld (opened afterAlice) [aliceCall] aliceCall
              Hon Hf Hnd Hcalls Hsel)
    as (i & d & rest & s' & Hq & Hrun & Hnext).
  exists i, s'. split; [exact Hcalls|]. split; [exact Hrun|].
  rewrite Hnext.
  assert (Hi : i = 0%N) by (vm_compute in Hq; now injection Hq as <- _ _).
  now subst i.
Defined.

End CallNotificationProofs.
